(** * Statement-of-account pipeline: ingestion, merge and running balance

    A shallow embedding of the reconciliation core of the repository:
    - [findValue], [parseDate], [cleanCustomerName] and the [processFile]
      pipeline of the upload component (header location, row building);
    - [handleSubmit] of the manual-entry form;
    - the filter / merge / sort / running-balance part of
      [generateStatementPDF].

    JavaScript values are modelled as follows.
    - A JavaScript number is an IEEE 754 binary64 value: [spec_float] with
      [prec = 53] and [emax = 1024], operated on by the reference
      operations [SFadd], [SFmul], [SFopp], [SFabs], [SFcompare].
    - A string is a [string] of code units below 256; case mapping and
      the white-space class are the ECMAScript ones on that range.
    - An object used as a keyed record is the association list of its
      own enumerable properties, in [Object.keys] order.  The members
      that every object inherits are not values of the model;
      statements about arbitrary keys leave their names out.
    - [Array.prototype.sort] is a stable insertion sort.  The language
      fixes the result of a sort only for a comparator that is a
      consistent order; statements about the order of a sorted list
      are made for that case.
    - Host facilities whose result is implementation-defined or comes
      from a third-party library ([new Date(string)], the spreadsheet
      reader) are parameters of the development; concrete instances are
      provided for evaluation. *)

From Stdlib Require Import ZArith List Bool Ascii String Lia.
From Stdlib Require Import Permutation Sorted SpecFloat.
Import ListNotations.

Open Scope string_scope.
Open Scope Z_scope.

(** ** Strings *)

Definition charCode (c : ascii) : Z := Z.of_N (N_of_ascii c).

Definition fromCharCode (n : Z) : ascii := ascii_of_N (Z.to_N n).

(** [WhiteSpace] and [LineTerminator] code units below 256: TAB, LF, VT,
    FF, CR, SP and NBSP.  This is the class used by [trim] and by [\s]. *)
Definition isWhiteSpace (c : ascii) : bool :=
  let n := charCode c in
  ((9 <=? n) && (n <=? 13)) || (n =? 32) || (n =? 160).

Definition isLineBreak (c : ascii) : bool :=
  let n := charCode c in (n =? 10) || (n =? 13).

Definition isDigit (c : ascii) : bool :=
  let n := charCode c in (48 <=? n) && (n <=? 57).

Definition lowerChar (c : ascii) : ascii :=
  let n := charCode c in
  if ((65 <=? n) && (n <=? 90))
     || ((192 <=? n) && (n <=? 222) && negb (n =? 215))
  then fromCharCode (n + 32) else c.

Fixpoint toLowerCase (s : string) : string :=
  match s with
  | EmptyString => EmptyString
  | String c s' => String (lowerChar c) (toLowerCase s')
  end.

Fixpoint startsWith (s p : string) {struct p} : bool :=
  match p, s with
  | EmptyString, _ => true
  | String _ _, EmptyString => false
  | String a p', String b s' => Ascii.eqb a b && startsWith s' p'
  end.

(** [s.includes(sub)] *)
Fixpoint includes (s sub : string) : bool :=
  startsWith s sub ||
  match s with
  | EmptyString => false
  | String _ s' => includes s' sub
  end.

Fixpoint trimStart (s : string) : string :=
  match s with
  | EmptyString => EmptyString
  | String c s' => if isWhiteSpace c then trimStart s' else s
  end.

Fixpoint trimEnd (s : string) : string :=
  match s with
  | EmptyString => EmptyString
  | String c s' =>
      match trimEnd s' with
      | EmptyString => if isWhiteSpace c then EmptyString else String c EmptyString
      | t => String c t
      end
  end.

(** Every character of [s] is white space (so [s.trim()] is empty). *)
Fixpoint allWhite (s : string) : bool :=
  match s with
  | EmptyString => true
  | String c s' => isWhiteSpace c && allWhite s'
  end.

Definition trim (s : string) : string := trimEnd (trimStart s).

(** [s.replace(/[...]/g, '')] for a character class given as a predicate *)
Fixpoint removeChars (p : ascii -> bool) (s : string) : string :=
  match s with
  | EmptyString => EmptyString
  | String c s' => if p c then removeChars p s' else String c (removeChars p s')
  end.

(** [s.replace(/[...]+/g, ' ')]: every maximal run of characters of the
    class becomes one space (the space is emitted at the end of the run) *)
Fixpoint collapseRuns (p : ascii -> bool) (s : string) : string :=
  match s with
  | EmptyString => EmptyString
  | String c s' =>
      if p c then
        match s' with
        | String c' _ => if p c' then collapseRuns p s'
                         else String " " (collapseRuns p s')
        | EmptyString => String " " EmptyString
        end
      else String c (collapseRuns p s')
  end.

Definition isComma (c : ascii) : bool := Ascii.eqb c ",".

Definition isParenOrComma (c : ascii) : bool :=
  Ascii.eqb c "(" || Ascii.eqb c ")" || Ascii.eqb c ",".

(** [s.padStart(2, '0')] *)
Definition padStart2 (s : string) : string :=
  match s with
  | EmptyString => "00"
  | String c EmptyString => String "0" s
  | _ => s
  end.

Fixpoint takeDigits (s : string) : string * string :=
  match s with
  | EmptyString => (EmptyString, EmptyString)
  | String c s' =>
      if isDigit c then let '(d, r) := takeDigits s' in (String c d, r)
      else (EmptyString, s)
  end.

Fixpoint digitsValue (acc : Z) (s : string) : Z :=
  match s with
  | EmptyString => acc
  | String c s' => digitsValue (10 * acc + (charCode c - 48)) s'
  end.

(** Decimal digits of a non-negative integer, most significant first. *)
Fixpoint digitsOfPos (fuel : nat) (n : Z) (acc : string) : string :=
  match fuel with
  | O => acc
  | S fuel' =>
      let acc' := String (fromCharCode (48 + n mod 10)) acc in
      if n / 10 =? 0 then acc' else digitsOfPos fuel' (n / 10) acc'
  end.

Definition decimalString (n : Z) : string :=
  digitsOfPos (S (Z.to_nat (Z.log2 n))) n EmptyString.

Fixpoint repeatChar (c : ascii) (n : nat) : string :=
  match n with
  | O => EmptyString
  | S n' => String c (repeatChar c n')
  end.

Definition padZeros (width : nat) (s : string) : string :=
  repeatChar "0" (width - String.length s) ++ s.

(** ** Numbers: IEEE 754 binary64 *)

Definition float64 := spec_float.

Definition prec : Z := 53.
Definition emax : Z := 1024.

Definition b64_add : float64 -> float64 -> float64 := SFadd prec emax.
Definition b64_sub : float64 -> float64 -> float64 := SFsub prec emax.
Definition b64_mul : float64 -> float64 -> float64 := SFmul prec emax.
Definition b64_neg : float64 -> float64 := SFopp.
Definition Math_abs : float64 -> float64 := SFabs.

(** [x < y] and [x > y] on numbers; both are [false] when an operand is
    [NaN]. *)
Definition b64_lt (x y : float64) : bool := SFltb x y.
Definition b64_gt (x y : float64) : bool := SFltb y x.

Definition isNaN (x : float64) : bool :=
  match x with S754_nan => true | _ => false end.

Definition isZero (x : float64) : bool :=
  match x with S754_zero _ => true | _ => false end.

Definition zero : float64 := S754_zero false.

(** The sign bit of a number that is not [NaN]. *)
Definition signBit (x : float64) : option bool :=
  match x with
  | S754_zero s | S754_infinity s | S754_finite s _ _ => Some s
  | S754_nan => None
  end.

(** *** Sums that do not round

    The value of a zero or finite number, as an integer multiple of
    2^-1074 (the spacing of the smallest binary64 numbers). *)
Definition scaledValue (x : float64) : option Z :=
  match x with
  | S754_zero _ => Some 0
  | S754_finite s m e =>
      if -1074 <=? e then Some (cond_Zopp s (Zpos m) * 2 ^ (e + 1074)) else None
  | _ => None
  end.

Definition scaledOrZero (x : float64) : Z :=
  match scaledValue x with
  | Some v => v
  | None => 0
  end.

(** [b + a] is finite and equal to the exact sum. *)
Definition exactAdd (b a : float64) : bool :=
  match scaledValue b, scaledValue a, scaledValue (b64_add b a) with
  | Some vb, Some va, Some vs => vs =? vb + va
  | _, _, _ => false
  end.

(** No addition rounds when the amounts are added to [b] from left to
    right. *)
Fixpoint exactSums (b : float64) (amounts : list float64) : bool :=
  match amounts with
  | [] => match scaledValue b with Some _ => true | None => false end
  | a :: rest => exactAdd b a && exactSums (b64_add b a) rest
  end.

(** The number nearest to the integer [z] (ties to even). *)
Definition ofZ (z : Z) : float64 := binary_normalize prec emax z 0 false.

(** The number nearest to the positive rational [n / d] (ties to even),
    with sign [neg].  The quotient is computed with at least 55
    significant bits and a sticky bit, then rounded once. *)
Definition roundRatio (neg : bool) (n d : positive) : float64 :=
  let k := Z.max 0 (55 + Z.log2 (Zpos d) - Z.log2 (Zpos n)) in
  let '(q, r) := Z.div_eucl (Zpos n * 2 ^ k) (Zpos d) in
  let m := 2 * q + (if r =? 0 then 0 else 1) in
  binary_normalize prec emax (cond_Zopp neg m) (- k - 1) neg.

(** The number nearest to [m * 10 ^ e10] for a decimal numeral with
    integer mantissa [m >= 0].  Numerals beyond the binary64 range are
    clamped before any power of ten is computed. *)
Definition ofDecimal (neg : bool) (m : Z) (e10 : Z) : float64 :=
  match m with
  | Zpos p =>
      let nd := Z.of_nat (String.length (decimalString m)) in
      if 310 <? e10 + nd then S754_infinity neg
      else if e10 + nd <? -324 then S754_zero neg
      else roundRatio neg (p * Z.to_pos (10 ^ Z.max e10 0))
                          (Z.to_pos (10 ^ Z.max (- e10) 0))
  | _ => S754_zero neg
  end.

Definition readSign (s : string) : bool * string :=
  match s with
  | String "-" r => (true, r)
  | String "+" r => (false, r)
  | _ => (false, s)
  end.

Fixpoint dropChars (n : nat) (s : string) : string :=
  match n, s with
  | S n', String _ s' => dropChars n' s'
  | _, _ => s
  end.

Fixpoint takeChars (n : nat) (s : string) : string :=
  match n, s with
  | S n', String c s' => String c (takeChars n' s')
  | _, _ => EmptyString
  end.

(** The exponent part [e[+-]ddd] of a decimal literal and what follows
    it; exponent [0] and the input unchanged when the part is absent or
    malformed (the literal then ends before the [e]). *)
Definition readExponent (s : string) : Z * string :=
  match s with
  | String c r =>
      if Ascii.eqb c "e" || Ascii.eqb c "E" then
        let '(eneg, r') := readSign r in
        let '(ed, r'') := takeDigits r' in
        match ed with
        | EmptyString => (0, s)
        | _ => (cond_Zopp eneg (digitsValue 0 ed), r'')
        end
      else (0, s)
  | EmptyString => (0, s)
  end.

(** The longest prefix of [s0] that is a [StrDecimalLiteral], as its
    value and the rest of the string. *)
Definition readDecimalLiteral (s0 : string) : option (float64 * string) :=
  let '(neg, s) := readSign s0 in
  if startsWith s "Infinity" then Some (S754_infinity neg, dropChars 8 s)
  else
    let '(ip, r1) := takeDigits s in
    let '(fp, r2) :=
      match r1 with
      | String "." r => takeDigits r
      | _ => (EmptyString, r1)
      end in
    match ip ++ fp with
    | EmptyString => None
    | ds =>
        let '(ex, r3) := readExponent r2 in
        Some (ofDecimal neg (digitsValue 0 ds) (ex - Z.of_nat (String.length fp)),
              r3)
    end.

(** [parseFloat(s)]: leading white space is skipped and the longest
    prefix that is a [StrDecimalLiteral] is converted; [NaN] when there
    is none. *)
Definition parseFloat (input : string) : float64 :=
  match readDecimalLiteral (trimStart input) with
  | Some (v, _) => v
  | None => S754_nan
  end.

Definition radixDigit (c : ascii) : option Z :=
  let n := charCode c in
  if (48 <=? n) && (n <=? 57) then Some (n - 48)
  else if (97 <=? n) && (n <=? 102) then Some (n - 87)
  else if (65 <=? n) && (n <=? 70) then Some (n - 55)
  else None.

Fixpoint radixValue (radix acc : Z) (s : string) : option Z :=
  match s with
  | EmptyString => Some acc
  | String c s' =>
      match radixDigit c with
      | Some d => if d <? radix then radixValue radix (radix * acc + d) s' else None
      | None => None
      end
  end.

Definition readRadixLiteral (radix : Z) (body : string) : float64 :=
  match body with
  | EmptyString => S754_nan
  | _ => match radixValue radix 0 body with
         | Some v => ofZ v
         | None => S754_nan
         end
  end.

(** [Number(s)] on a string: the whole trimmed string must be a numeric
    literal; the empty string is [+0]. *)
Definition Number_ofString (input : string) : float64 :=
  let t := trim input in
  match t with
  | EmptyString => zero
  | String "0" (String c body) =>
      if Ascii.eqb c "x" || Ascii.eqb c "X" then readRadixLiteral 16 body
      else if Ascii.eqb c "o" || Ascii.eqb c "O" then readRadixLiteral 8 body
      else if Ascii.eqb c "b" || Ascii.eqb c "B" then readRadixLiteral 2 body
      else match readDecimalLiteral t with
           | Some (v, EmptyString) => v
           | _ => S754_nan
           end
  | _ => match readDecimalLiteral t with
         | Some (v, EmptyString) => v
         | _ => S754_nan
         end
  end.

(** *** Number to string

    [Number::toString]: the shortest digit string [s] (with [k] digits
    and decimal exponent [n]) that reads back as the same number. *)

(** [x < 10 ^ n] for the positive rational [x = num / den] *)
Definition belowPow10 (num den n : Z) : bool :=
  if 0 <=? n then num <? den * 10 ^ n else num * 10 ^ (- n) <? den.

(** The [n] with [10 ^ (n - 1) <= num / den < 10 ^ n] *)
Definition decimalExponent (num den : Z) : Z :=
  let est := ((Z.log2 num - Z.log2 den) * 30103) / 100000 in
  if belowPow10 num den (est - 1) then est - 1
  else if belowPow10 num den est then est
  else if belowPow10 num den (est + 1) then est + 1
  else est + 2.

Definition readsBackAs (x : float64) (s n k : Z) : bool :=
  SFeqb (ofDecimal false s (n - k)) x.

Fixpoint shortestDigits (fuel : nat) (k : Z) (x : float64) (num den n0 : Z)
  : Z * Z :=
  let '(sn, sd) := if 0 <=? k - n0 then (num * 10 ^ (k - n0), den)
                   else (num, den * 10 ^ (n0 - k)) in
  let lo := sn / sd in
  let hi := lo + 1 in
  let '(hs, hn) := if hi =? 10 ^ k then (10 ^ (k - 1), n0 + 1) else (hi, n0) in
  let okLo := readsBackAs x lo n0 k in
  let okHi := readsBackAs x hs hn k in
  let preferLo :=
    match 2 * (sn - lo * sd) ?= sd with
    | Lt => true
    | Gt => false
    | Eq => Z.even lo
    end in
  match fuel with
  | O => (lo, n0)
  | S fuel' =>
      if okLo && okHi then (if preferLo then (lo, n0) else (hs, hn))
      else if okLo then (lo, n0)
      else if okHi then (hs, hn)
      else shortestDigits fuel' (k + 1) x num den n0
  end.

Definition formatDigits (s n : Z) : string :=
  let ds := decimalString s in
  let k := Z.of_nat (String.length ds) in
  if (k <=? n) && (n <=? 21) then ds ++ repeatChar "0" (Z.to_nat (n - k))
  else if (0 <? n) && (n <=? 21) then
    takeChars (Z.to_nat n) ds ++ "." ++ dropChars (Z.to_nat n) ds
  else if (-6 <? n) && (n <=? 0) then
    "0." ++ repeatChar "0" (Z.to_nat (- n)) ++ ds
  else
    let e := n - 1 in
    let mant := if k =? 1 then ds
                else takeChars 1 ds ++ "." ++ dropChars 1 ds in
    mant ++ "e" ++ (if e <? 0 then "-" else "+") ++ decimalString (Z.abs e).

Definition Number_toString (x : float64) : string :=
  match x with
  | S754_nan => "NaN"
  | S754_zero _ => "0"
  | S754_infinity s => if s then "-Infinity" else "Infinity"
  | S754_finite s m e =>
      let '(num, den) := if 0 <=? e then (Zpos m * 2 ^ e, 1)
                         else (Zpos m, 2 ^ (- e)) in
      let '(d, n) := shortestDigits 17 1 (S754_finite false m e) num den
                       (decimalExponent num den) in
      (if s then "-" else "") ++ formatDigits d n
  end.

(** [Math.round(x)] as an integer: the nearest integer, halves going
    up; [None] for [NaN] and the infinities. *)
Definition Math_round (x : float64) : option Z :=
  match x with
  | S754_zero _ => Some 0
  | S754_finite s m e =>
      let v := cond_Zopp s (Zpos m) in
      if 0 <=? e then Some (v * 2 ^ e)
      else Some ((2 * v + 2 ^ (- e)) / 2 ^ (- e + 1))
  | _ => None
  end.

(** ** Dates *)

Definition msPerDay : Z := 86400000.

Definition isLeapYear (y : Z) : bool :=
  (y mod 4 =? 0) && (negb (y mod 100 =? 0) || (y mod 400 =? 0)).

Definition daysInMonth (y m : Z) : Z :=
  if m =? 2 then (if isLeapYear y then 29 else 28)
  else if (m =? 4) || (m =? 6) || (m =? 9) || (m =? 11) then 30
  else 31.

(** Days from 1970-01-01 to the proleptic Gregorian date [y-m-d]. *)
Definition daysFromCivil (y m d : Z) : Z :=
  let y' := if m <=? 2 then y - 1 else y in
  let era := y' / 400 in
  let yoe := y' - era * 400 in
  let doy := (153 * (if 2 <? m then m - 3 else m + 9) + 2) / 5 + d - 1 in
  let doe := yoe * 365 + yoe / 4 - yoe / 100 + doy in
  era * 146097 + doe - 719468.

Definition civilFromDays (z : Z) : Z * Z * Z :=
  let z' := z + 719468 in
  let era := z' / 146097 in
  let doe := z' - era * 146097 in
  let yoe := (doe - doe / 1460 + doe / 36524 - doe / 146096) / 365 in
  let doy := doe - (365 * yoe + yoe / 4 - yoe / 100) in
  let mp := (5 * doy + 2) / 153 in
  let d := doy - (153 * mp + 2) / 5 + 1 in
  let m := if mp <? 10 then mp + 3 else mp - 9 in
  (if m <=? 2 then yoe + era * 400 + 1 else yoe + era * 400, m, d).

(** A time value is a count of milliseconds since the epoch, at most
    8.64e15 in magnitude; [None] stands for the [NaN] of an invalid
    date. *)
Definition timeClip (t : option Z) : option Z :=
  match t with
  | Some v => if Z.abs v <=? 8640000000000000 then Some v else None
  | None => None
  end.

(** [new Date(t).toISOString().split('T')[0]] for a valid time value *)
Definition toISODate (t : Z) : string :=
  let '(y, m, d) := civilFromDays (t / msPerDay) in
  let year := if (0 <=? y) && (y <=? 9999) then padZeros 4 (decimalString y)
              else (if y <? 0 then "-" else "+") ++ padZeros 6 (decimalString (Z.abs y)) in
  year ++ "-" ++ padZeros 2 (decimalString m) ++ "-" ++ padZeros 2 (decimalString d).

Definition allDigits (s : string) : bool :=
  match takeDigits s with
  | (_, EmptyString) => true
  | _ => false
  end.

(** The fields of a string of the exact shape [YYYY-MM-DD]. *)
Definition splitCanonical (s : string) : option (Z * Z * Z) :=
  let y := takeChars 4 s in
  let m := takeChars 2 (dropChars 5 s) in
  let d := dropChars 8 s in
  if (String.length s =? 10)%nat
     && allDigits y && allDigits m && allDigits d
     && startsWith (dropChars 4 s) "-" && startsWith (dropChars 7 s) "-"
  then Some (digitsValue 0 y, digitsValue 0 m, digitsValue 0 d)
  else None.

(** A valid calendar date in canonical [YYYY-MM-DD] form. *)
Definition isCanonicalDate (s : string) : bool :=
  match splitCanonical s with
  | Some (y, m, d) =>
      (1 <=? m) && (m <=? 12) && (1 <=? d) && (d <=? daysInMonth y m)
  | None => false
  end.

(** A host date parser that reads exactly the valid canonical dates (as
    UTC midnight) and rejects every other string.  Hosts are free to
    accept more; the development is parametric in the parser and uses
    this one for evaluation. *)
Definition Date_parse_canonical (s : string) : option Z :=
  match splitCanonical s with
  | Some (y, m, d) =>
      if isCanonicalDate s then Some (daysFromCivil y m d * msPerDay) else None
  | None => None
  end.

(** ** JavaScript values and keyed records *)

Inductive value : Type :=
| VUndefined
| VNull
| VBool (b : bool)
| VNum (n : float64)
| VStr (s : string).

(** [!!v] *)
Definition truthy (v : value) : bool :=
  match v with
  | VUndefined | VNull => false
  | VBool b => b
  | VNum n => negb (isNaN n || isZero n)
  | VStr s => negb (s =? "")%string
  end.

(** [String(v)] *)
Definition String_of (v : value) : string :=
  match v with
  | VUndefined => "undefined"
  | VNull => "null"
  | VBool b => if b then "true" else "false"
  | VNum n => Number_toString n
  | VStr s => s
  end.

(** [v || d] *)
Definition orElse (v d : value) : value := if truthy v then v else d.

(** [v !== undefined && v !== null && v !== ""] *)
Definition hasValue (v : value) : bool :=
  match v with
  | VUndefined | VNull => false
  | VStr s => negb (s =? "")%string
  | _ => true
  end.

(** A keyed record: the own enumerable properties of a plain object, in
    [Object.keys] order. *)
Definition record := list (string * value).

Definition Object_keys (row : record) : list string := map fst row.

(** The names under which [row[key]] finds a member although the row
    has no such property of its own: the members every plain object
    inherits from [Object.prototype], and the hidden row number that
    the sheet reader attaches to each record.  These members are
    functions, objects or numbers, never [undefined]. *)
Definition inheritedKeys : list string :=
  ["constructor"; "hasOwnProperty"; "isPrototypeOf"; "propertyIsEnumerable";
   "toLocaleString"; "toString"; "valueOf"; "__proto__";
   "__defineGetter__"; "__defineSetter__"; "__lookupGetter__";
   "__lookupSetter__"; "__rowNum__"].

Definition inherited (key : string) : bool :=
  existsb (String.eqb key) inheritedKeys.

(** [row[key]], for the properties of the row's own.  A [key] among
    [inheritedKeys] that the row does not define reads the inherited
    member in the language; such a member is not a [value] of this
    model, and statements about arbitrary keys leave these names out.
    The keys that [processFile] looks up are column names outside
    [inheritedKeys]. *)
Fixpoint getProp (row : record) (key : string) : value :=
  match row with
  | [] => VUndefined
  | (k, v) :: rest => if (k =? key)%string then v else getProp rest key
  end.

(** ** Field resolution: [findValue] *)

(** One [for (const key of possibleKeys)] loop: the first candidate, in
    list order, for which the pass finds a value. *)
Fixpoint firstHit (hit : string -> option value) (possibleKeys : list string)
  : option value :=
  match possibleKeys with
  | [] => None
  | key :: rest =>
      match hit key with
      | Some v => Some v
      | None => firstHit hit rest
      end
  end.

Definition exactHit (row : record) (key : string) : option value :=
  if hasValue (getProp row key) then Some (getProp row key) else None.

(** [foundKey && row[foundKey] has a value] for the result of
    [rowKeys.find(...)] *)
Definition hitAt (row : record) (foundKey : option string) : option value :=
  match foundKey with
  | Some k =>
      if negb (k =? "")%string && hasValue (getProp row k)
      then Some (getProp row k) else None
  | None => None
  end.

Definition sameKeyIgnoringCase (key k : string) : bool :=
  (toLowerCase (trim k) =? toLowerCase (trim key))%string.

Definition keyContains (key k : string) : bool :=
  includes (toLowerCase k) (toLowerCase key).

Definition caseInsensitiveHit (row : record) (key : string) : option value :=
  hitAt row (find (sameKeyIgnoringCase key) (Object_keys row)).

Definition partialHit (row : record) (key : string) : option value :=
  hitAt row (find (keyContains key) (Object_keys row)).

Definition findValue (row : record) (possibleKeys : list string) : value :=
  match firstHit (exactHit row) possibleKeys with
  | Some v => v
  | None =>
      match firstHit (caseInsensitiveHit row) possibleKeys with
      | Some v => v
      | None =>
          match firstHit (partialHit row) possibleKeys with
          | Some v => v
          | None => VUndefined
          end
      end
  end.

(** *** The resolution policy in words

    The three match tiers, strongest first, and what it means for a
    value to be the resolution of a candidate list: some candidate hits
    in some tier, no earlier candidate hits in that tier, and no
    candidate at all hits in a stronger tier. *)

Inductive MatchTier : Type := ExactKey | SameKeyAnyCase | KeyContainsName.

Definition tierHit (tier : MatchTier) (row : record) (key : string) : option value :=
  match tier with
  | ExactKey => exactHit row key
  | SameKeyAnyCase => caseInsensitiveHit row key
  | KeyContainsName => partialHit row key
  end.

Definition strongerTiers (tier : MatchTier) : list MatchTier :=
  match tier with
  | ExactKey => []
  | SameKeyAnyCase => [ExactKey]
  | KeyContainsName => [ExactKey; SameKeyAnyCase]
  end.

Definition resolves (row : record) (possibleKeys : list string) (v : value) : Prop :=
  exists tier before key after,
    possibleKeys = (before ++ key :: after)%list
    /\ tierHit tier row key = Some v
    /\ Forall (fun k => tierHit tier row k = None) before
    /\ Forall (fun t => Forall (fun k => tierHit t row k = None) possibleKeys)
              (strongerTiers tier).

(** *** What a pass finds for one candidate, read off the record

    The first pass looks the candidate up as it is written.  The later
    passes look at one record key only: the first key, in key order,
    that equals the candidate once both are trimmed and lower-cased
    (second pass), or that contains the candidate once both are
    lower-cased (third pass); an empty key counts as no key.  A pass
    finds a value when the value there is neither [undefined] nor [null]
    nor the empty string. *)

Definition filled (v : value) : Prop :=
  v <> VUndefined /\ v <> VNull /\ v <> VStr "".

Definition firstKey (p : string -> bool) (row : record) (k : string) : Prop :=
  exists before after,
    Object_keys row = (before ++ k :: after)%list
    /\ Forall (fun k' => p k' = false) before
    /\ p k = true.

Inductive yields (row : record) (key : string) (v : value) : MatchTier -> Prop :=
| yields_exact :
    getProp row key = v -> filled v -> yields row key v ExactKey
| yields_anyCase (k : string) :
    firstKey (fun k' => (toLowerCase (trim k') =? toLowerCase (trim key))%string) row k ->
    k <> "" -> getProp row k = v -> filled v ->
    yields row key v SameKeyAnyCase
| yields_contains (k : string) :
    firstKey (fun k' => includes (toLowerCase k') (toLowerCase key)) row k ->
    k <> "" -> getProp row k = v -> filled v ->
    yields row key v KeyContainsName.

(** ** Customer names *)

Definition cleanCustomerName (name : value) : string :=
  if truthy name then
    trim (collapseRuns isWhiteSpace (collapseRuns isLineBreak (String_of name)))
  else "Unknown".

(** ** Transactions *)

Inductive TrxType : Type := INV | Payment | INVOICE | PAYMENT.

(** [`file-${index}-${Date.now()}`] and [`manual-${Date.now()}`] *)
Inductive TrxId : Type :=
| FileId (index : nat) (now : Z)
| ManualId (now : Z).

(** [region], [siteLocation], [glAgency] and [note] are declared as
    strings but are assigned whatever the resolver returns, hence
    [value].  The two optional fields are absent on manual entries. *)
Record Transaction : Type := mkTransaction {
  id : TrxId;
  trxDate : string;
  number : string;
  region : value;
  siteLocation : value;
  trxType : TrxType;
  originalAmount : float64;
  customerName : string;
  glAgency : option value;
  note : option value
}.

Record StatementConfig : Type := mkStatementConfig {
  operatingUnit : string;
  startDate : string;
  endDate : string;
  openingBalance : float64;
  logoUrl : option string
}.

(** ** The regular expression of [parseDate]

    [/^(\d{1,2})[\/\-](\d{1,2})[\/\-](\d{4})/].  A greedy one-or-two
    digit group never needs to give a digit back: when two digits were
    taken and the separator is missing, one digit is followed by a digit
    and the separator is missing as well. *)

(** A group of [lo] to [hi] decimal digits, as in [\d{lo,hi}] *)
Definition digitGroup (lo hi : nat) (s : string) : bool :=
  (lo <=? String.length s)%nat && (String.length s <=? hi)%nat && allDigits s.

Definition isDateSeparator (c : ascii) : bool :=
  Ascii.eqb c "/" || Ascii.eqb c "-".

Definition oneOrTwoDigits (s : string) : option (string * string) :=
  match s with
  | String a (String b r) =>
      if isDigit a then
        if isDigit b then Some (String a (String b EmptyString), r)
        else Some (String a EmptyString, String b r)
      else None
  | String a EmptyString =>
      if isDigit a then Some (String a EmptyString, EmptyString) else None
  | EmptyString => None
  end.

Definition separator (s : string) : option string :=
  match s with
  | String c r => if isDateSeparator c then Some r else None
  | EmptyString => None
  end.

Definition fourDigits (s : string) : option string :=
  let y := takeChars 4 s in
  if (String.length y =? 4)%nat && allDigits y then Some y else None.

(** The three groups [(day, month, year)] of a match *)
Definition matchDMY (s : string) : option (string * string * string) :=
  match oneOrTwoDigits s with
  | Some (g1, r1) =>
      match separator r1 with
      | Some r2 =>
          match oneOrTwoDigits r2 with
          | Some (g2, r3) =>
              match separator r3 with
              | Some r4 =>
                  match fourDigits r4 with
                  | Some g3 => Some (g1, g2, g3)
                  | None => None
                  end
              | None => None
              end
          | None => None
          end
      | None => None
      end
  | None => None
  end.

(** ** Header location *)

Definition customerKeywords : list string :=
  ["customer"; "client"; "party name"; "bill to"; "account name"; "payer"].

Definition isCustomerCell (cell : value) : bool :=
  truthy cell &&
  existsb (fun k => includes (toLowerCase (String_of cell)) k) customerKeywords.

Definition isHeaderRow (row : list value) : bool := existsb isCustomerCell row.

(** [for (let i = 0; i < Math.min(rawRows.length, 50); i++)]: [limit]
    counts the iterations left, [i] is the current index; [None] is the
    [-1] of the source. *)
Fixpoint scanHeader (limit : nat) (i : nat) (rows : list (list value))
  : option nat :=
  match limit, rows with
  | S limit', row :: rest =>
      if isHeaderRow row then Some i else scanHeader limit' (S i) rest
  | _, _ => None
  end.

Definition findHeaderRow (rawRows : list (list value)) : option nat :=
  scanHeader 50 0 rawRows.

(** A sample sheet reader, for evaluation only: [processFile] and the
    statements about it take the reader as a parameter.  The row at
    [range] gives the field names; every later row in which some cell
    is present gives a record, a cell holding the empty string
    included; an absent cell reads as the empty string (the [defval]
    of the call); a row without any cell gives no record.  It stands
    for the spreadsheet library on sheets whose first row is the first
    raw row (the index of a raw row is then its row in the sheet),
    whose header cells are all present with distinct texts, and whose
    cells are text, numbers or booleans. *)
Definition present (cell : value) : bool :=
  match cell with
  | VUndefined | VNull => false
  | _ => true
  end.

Fixpoint zipRecord (names : list value) (cells : list value) : record :=
  match names with
  | [] => []
  | name :: names' =>
      let cell := match cells with
                  | c :: _ => if present c then c else VStr ""
                  | [] => VStr ""
                  end in
      (String_of name, cell) :: zipRecord names' (tl cells)
  end.

Definition recordsBelow (grid : list (list value)) (range : nat) : list record :=
  match skipn range grid with
  | [] => []
  | names :: data =>
      map (zipRecord names) (filter (existsb present) data)
  end.

(** ** [Array.prototype.sort]

    The sort of the language is stable.  It is modelled by a stable
    insertion sort, driven by the test "the comparator is positive on
    [(a, b)]", that is, [a] must come after [b].  Every stable sort
    returns the same list when the comparator is a consistent order.
    When it is not - a comparator that is [NaN] on some pairs and
    orders others - the language leaves the resulting order to the
    host: of such a list only what holds of every rearrangement (its
    elements, their number) carries over from this model to the host. *)

Section ArraySort.

Context {A : Type}.
Variable after : A -> A -> bool.

(** [x] is an element that stood before all of [l]. *)
Fixpoint insertSorted (x : A) (l : list A) : list A :=
  match l with
  | [] => [x]
  | y :: l' => if after x y then y :: insertSorted x l' else x :: l
  end.

Definition Array_sort (l : list A) : list A := fold_right insertSorted [] l.

End ArraySort.

(** *** Sorting by a numeric key that may be [NaN]

    The comparator [(a, b) => key(a) - key(b)] is positive when both
    keys are numbers and the first is the larger. *)

Definition positiveDifference (x y : option Z) : bool :=
  match x, y with
  | Some a, Some b => 0 <? a - b
  | _, _ => false
  end.

Section ByKey.

Context {A : Type}.
Variable key : A -> option Z.

Definition afterByKey (a b : A) : bool := positiveDifference (key a) (key b).

Definition hasKey (t : Z) (a : A) : bool :=
  match key a with
  | Some x => x =? t
  | None => false
  end.

(** Both keys are numbers and the first is not the larger. *)
Definition keyLe (a b : A) : Prop :=
  exists x y, key a = Some x /\ key b = Some y /\ x <= y.

End ByKey.

(** ** The pipeline, parametric in the host *)

Section Host.

(** [new Date(s).getTime()] for a string [s]; [None] is [NaN]. *)
Variable Date_parse : string -> option Z.

(** [XLSX.utils.sheet_to_json(sheet, { range: i, defval: "" })] on the
    sheet whose raw rows are the grid. *)
Variable sheet_to_json : list (list value) -> nat -> list record.

(** *** [parseDate] *)

(** The spreadsheet-serial branch: [Some] of the returned string when
    [val] is a number whose date is valid. *)
Definition serialDate (val : value) : option string :=
  match val with
  | VNum n =>
      let ms := b64_mul (b64_mul (b64_sub n (ofZ 25569)) (ofZ 86400)) (ofZ 1000) in
      match timeClip (Math_round ms) with
      | Some t => Some (toISODate t)
      | None => None
      end
  | _ => None
  end.

(** [now] is the clock reading behind [new Date()]. *)
Definition parseDate (now : Z) (val : value) : string :=
  if negb (truthy val) then toISODate now
  else
    match serialDate val with
    | Some iso => iso
    | None =>
        let str := trim (String_of val) in
        match matchDMY str with
        | Some (day, month, year) =>
            year ++ "-" ++ padStart2 month ++ "-" ++ padStart2 day
        | None =>
            match timeClip (Date_parse str) with
            | Some t => toISODate t
            | None => toISODate now
            end
        end
    end.

(** *** The transaction builder of [processFile] *)

Definition customerNameKeys : list string :=
  ["Customer Name"; "Customer"; "Client"; "Account Name";
   "Party Name"; "Bill To"; "Payer"; "Account Description";
   "Cust Name"; "Customer #"; "English Name"; "Arabic Name"].

Definition amountKeys : list string :=
  ["Total"; "Original"; "Amount"; "Value"; "Debit"; "Credit"; "Balance"; "Net"].

Definition typeKeys : list string :=
  ["Trx Type"; "Type"; "Transaction Type"; "Doc Type"; "Category"; "Description"].

Definition dateKeys : list string :=
  ["Trx Date"; "Date"; "Transaction Date"; "Invoice Date"; "Gl Date"].

Definition numberKeys : list string :=
  ["Number"; "Invoice No"; "Ref"; "Reference"; "Doc Num";
   "Transaction Number"; "Document Number"].

Definition regionKeys : list string := ["Region"; "Area"; "Territory"; "Zone"].

Definition siteKeys : list string :=
  ["Site Location"; "Location"; "Site"; "Branch"; "Store"].

Definition agencyKeys : list string := ["Gl Agency"; "Agency"; "GL"; "Account"].

Definition noteKeys : list string :=
  ["Note"; "Description"; "Memo"; "Remarks"; "Details"; "Narration"].

Definition minusOne : float64 := ofZ (-1).

Definition isPaymentType (typeString : string) : bool :=
  includes (toLowerCase typeString) "payment".

(** The amount of a row from the resolved amount cell [rawVal] and the
    type text, in the order of the source: parse, default to [0], negate
    a positive payment, then the parenthesis rule. *)
Definition rowAmount (rawVal : value) (typeString : string) : float64 :=
  let rawAmount := removeChars isComma (String_of (orElse rawVal (VStr "0"))) in
  let amount := parseFloat rawAmount in
  let amount := if isNaN amount then zero else amount in
  let amount := if isPaymentType typeString && b64_gt amount zero
                then b64_neg amount else amount in
  match rawVal with
  | VStr s =>
      if includes s "(" && includes s ")"
      then b64_mul minusOne (parseFloat (removeChars isParenOrComma s))
      else amount
  | _ => amount
  end.

(** The body of the [forEach] callback: [None] when the row is skipped. *)
Definition buildTransaction (now : Z) (index : nat) (row : record)
  : option Transaction :=
  let custNameRaw := findValue row customerNameKeys in
  if negb (truthy custNameRaw) || (trim (String_of custNameRaw) =? "")%string
  then None
  else
    let name := cleanCustomerName custNameRaw in
    if includes (toLowerCase name) "total" then None
    else
      let rawVal := findValue row amountKeys in
      let typeString := String_of (orElse (findValue row typeKeys) (VStr "INV")) in
      Some {|
        id := FileId index now;
        trxDate := parseDate now (findValue row dateKeys);
        number := String_of (orElse (findValue row numberKeys) (VStr ""));
        region := orElse (findValue row regionKeys) (VStr "");
        siteLocation := orElse (findValue row siteKeys) (VStr "");
        trxType := if isPaymentType typeString then Payment else INV;
        originalAmount := rowAmount rawVal typeString;
        glAgency := Some (orElse (findValue row agencyKeys) (VStr ""));
        note := Some (orElse (findValue row noteKeys) (VStr ""));
        customerName := name
      |}.

Fixpoint buildTransactions (now : Z) (index : nat) (rows : list record)
  : list Transaction :=
  match rows with
  | [] => []
  | row :: rest =>
      match buildTransaction now index row with
      | Some t => t :: buildTransactions now (S index) rest
      | None => buildTransactions now (S index) rest
      end
  end.

(** [Set.add] in insertion order *)
Definition setAdd (seen : list string) (name : string) : list string :=
  if existsb (String.eqb name) seen then seen else (seen ++ [name])%list.

(** *** [processFile], from the raw rows on *)

Inductive ParseError : Type :=
| FileAppearsEmpty
| HeaderNotFound
| EmptyData.

Definition errorMessage (e : ParseError) : string :=
  match e with
  | FileAppearsEmpty => "File appears empty"
  | HeaderNotFound =>
      "Could not find a 'Customer' column. Please check file headers."
  | EmptyData => "No data found below the header row."
  end.

(** What the upload ends with: a thrown error, the error status set when
    every row was skipped, or the call of [onDataLoaded]. *)
Inductive UploadResult : Type :=
| Thrown (e : ParseError)
| NoValidTransactions
| Loaded (transactions : list Transaction) (seenCustomers : list string).

Definition processFile (now : Z) (rawRows : list (list value)) : UploadResult :=
  match rawRows with
  | [] => Thrown FileAppearsEmpty
  | _ =>
      match findHeaderRow rawRows with
      | None => Thrown HeaderNotFound
      | Some headerRowIndex =>
          match sheet_to_json rawRows headerRowIndex with
          | [] => Thrown EmptyData
          | jsonData =>
              match buildTransactions now 0 jsonData with
              | [] => NoValidTransactions
              | transactions =>
                  Loaded transactions
                         (fold_left setAdd (map customerName transactions) [])
              end
          end
      end
  end.

(** *** [handleSubmit] of the manual-entry form *)

Record FormData : Type := mkFormData {
  form_trxDate : string;
  form_number : string;
  form_region : string;
  form_siteLocation : string;
  form_originalAmount : string
}.

Definition orDefault (s d : string) : string :=
  match s with EmptyString => d | _ => s end.

(** [None] when no customer is selected (the alert branch); otherwise
    the transaction handed to [onAddTransaction]. *)
Definition handleSubmit (now : Z) (selectedCustomer : string) (formData : FormData)
  : option Transaction :=
  match selectedCustomer with
  | EmptyString => None
  | _ =>
      let amount := Number_ofString (form_originalAmount formData) in
      let finalAmount := b64_neg (Math_abs amount) in
      Some {|
        id := ManualId now;
        trxDate := orDefault (form_trxDate formData) (toISODate now);
        number := orDefault (form_number formData) "";
        region := VStr (orDefault (form_region formData) "");
        siteLocation := VStr (orDefault (form_siteLocation formData) "");
        trxType := PAYMENT;
        originalAmount := finalAmount;
        customerName := selectedCustomer;
        glAgency := None;
        note := None
      |}
  end.

(** [setManualTransactions(prev => [...prev, trx])] after a submit *)
Definition submitManual (now : Z) (selectedCustomer : string) (formData : FormData)
  (manualTransactions : list Transaction) : list Transaction :=
  match handleSubmit now selectedCustomer formData with
  | Some trx => (manualTransactions ++ [trx])%list
  | None => manualTransactions
  end.

(** *** [generateStatementPDF]: filter, merge, sort, running balance *)

(** A transaction spread into a ledger entry with its rendering amount *)
Record LedgerEntry : Type := mkLedgerEntry {
  entry : Transaction;
  calculatedAmount : float64
}.

Definition forCustomer (selectedCustomer : string) (t : Transaction) : bool :=
  (customerName t =? selectedCustomer)%string.

(** [t.customerName === selectedCustomer && t.trxDate >= config.startDate
    && t.trxDate <= config.endDate], the dates compared as strings *)
Definition inStatement (selectedCustomer : string) (config : StatementConfig)
  (t : Transaction) : bool :=
  forCustomer selectedCustomer t
  && (startDate config <=? trxDate t)%string
  && (trxDate t <=? endDate config)%string.

Definition toInvoice (refTrx : option Transaction) (t : Transaction) : LedgerEntry :=
  {| entry := {|
       id := id t;
       trxDate := trxDate t;
       number := number t;
       region := match refTrx with Some r => region r | None => region t end;
       siteLocation := match refTrx with
                       | Some r => siteLocation r
                       | None => siteLocation t
                       end;
       trxType := INVOICE;
       originalAmount := originalAmount t;
       customerName := customerName t;
       glAgency := glAgency t;
       note := note t
     |};
     calculatedAmount := Math_abs (originalAmount t) |}.

Definition toPayment (t : Transaction) : LedgerEntry :=
  {| entry := {|
       id := id t;
       trxDate := trxDate t;
       number := number t;
       region := region t;
       siteLocation := siteLocation t;
       trxType := PAYMENT;
       originalAmount := originalAmount t;
       customerName := customerName t;
       glAgency := glAgency t;
       note := note t
     |};
     calculatedAmount := b64_neg (Math_abs (originalAmount t)) |}.

Definition getTime (e : LedgerEntry) : option Z :=
  timeClip (Date_parse (trxDate (entry e))).

(** The comparator [(a, b) => getTime(a) - getTime(b)].  Two time values
    differ by less than 2^55, so the sign of the rounded difference is
    the sign of the exact one; [None] is [NaN]. *)
Definition compareFn (a b : LedgerEntry) : option Z :=
  match getTime a, getTime b with
  | Some x, Some y => Some (x - y)
  | _, _ => None
  end.

(** [a] must come after [b]: the comparator is positive.  A [NaN]
    comparison counts as [+0]. *)
Definition sortsAfter (a b : LedgerEntry) : bool :=
  match compareFn a b with
  | Some v => 0 <? v
  | None => false
  end.

Definition sortByDate (l : list LedgerEntry) : list LedgerEntry :=
  Array_sort sortsAfter l.

Definition refTrxOf (manualTransactions : list Transaction) (selectedCustomer : string)
  : option Transaction :=
  hd_error (filter (forCustomer selectedCustomer) manualTransactions).

Definition invoiceTrxs (fileTransactions manualTransactions : list Transaction)
  (selectedCustomer : string) (config : StatementConfig) : list LedgerEntry :=
  map (toInvoice (refTrxOf manualTransactions selectedCustomer))
      (filter (inStatement selectedCustomer config) fileTransactions).

Definition paymentTrxs (manualTransactions : list Transaction)
  (selectedCustomer : string) (config : StatementConfig) : list LedgerEntry :=
  map toPayment (filter (inStatement selectedCustomer config) manualTransactions).

Definition allTrxs (fileTransactions manualTransactions : list Transaction)
  (selectedCustomer : string) (config : StatementConfig) : list LedgerEntry :=
  sortByDate (invoiceTrxs fileTransactions manualTransactions selectedCustomer config
              ++ paymentTrxs manualTransactions selectedCustomer config)%list.

(** A body row of the table, before formatting: the date, the amount
    shown ([Math.abs] of the rendering amount, with a minus sign for a
    payment) and the balance are kept as the values that are formatted. *)
Record TableRow : Type := mkTableRow {
  rowDate : string;
  rowNumber : string;
  rowRegion : value;
  rowSiteLocation : value;
  rowType : TrxType;
  rowAmountShown : float64;
  rowMinusSign : bool;
  rowBalance : float64
}.

Definition isPAYMENT (t : TrxType) : bool :=
  match t with PAYMENT => true | _ => false end.

Definition tableRow (t : LedgerEntry) (runningBalance : float64) : TableRow :=
  {| rowDate := trxDate (entry t);
     rowNumber := number (entry t);
     rowRegion := region (entry t);
     rowSiteLocation := siteLocation (entry t);
     rowType := trxType (entry t);
     rowAmountShown := Math_abs (calculatedAmount t);
     rowMinusSign := isPAYMENT (trxType (entry t));
     rowBalance := runningBalance |}.

(** [allTrxs.map(t => { runningBalance += t.calculatedAmount; ... })]:
    the rows and the value of [runningBalance] after the last one *)
Fixpoint tableBody (runningBalance : float64) (l : list LedgerEntry)
  : list TableRow * float64 :=
  match l with
  | [] => ([], runningBalance)
  | t :: rest =>
      let runningBalance' := b64_add runningBalance (calculatedAmount t) in
      let '(rows, final) := tableBody runningBalance' rest in
      (tableRow t runningBalance' :: rows, final)
  end.

Record Statement : Type := mkStatement {
  body : list TableRow;
  finalBalance : float64;
  fileName : string
}.

Definition generateStatementPDF (fileTransactions manualTransactions : list Transaction)
  (selectedCustomer : string) (config : StatementConfig) : Statement :=
  let '(rows, final) :=
    tableBody (openingBalance config)
              (allTrxs fileTransactions manualTransactions selectedCustomer config) in
  {| body := rows;
     finalBalance := final;
     fileName := "SOA_" ++ selectedCustomer ++ "_" ++ endDate config ++ ".pdf" |}.


End Host.

(** ** Sample data *)

(** End-to-end scenario 1: opening balance 1000.00, one invoice of
    500.00 on 2024-01-05 in the file, one payment of 200.00 on
    2024-01-10 entered in the form. *)
Definition scenarioFile : list Transaction :=
  [{| id := FileId 0 1704412800000; trxDate := "2024-01-05";
      number := "INV-1"; region := VStr "West"; siteLocation := VStr "Jeddah";
      trxType := INV; originalAmount := parseFloat "500.00";
      customerName := "ACME"; glAgency := None; note := None |}].

Definition scenarioManual : list Transaction :=
  submitManual 1704844800000 "ACME"
    (mkFormData "2024-01-10" "P-17" "Center" "Riyadh" "200.00") [].

Definition scenarioConfig : StatementConfig :=
  {| operatingUnit := "FMCG"; startDate := "2024-01-01";
     endDate := "2024-01-31"; openingBalance := parseFloat "1000.00";
     logoUrl := None |}.

(** A statement configuration for January 2024 with opening balance 0 *)
Definition januaryConfig : StatementConfig :=
  {| operatingUnit := "FMCG"; startDate := "2024-01-01";
     endDate := "2024-01-31"; openingBalance := zero; logoUrl := None |}.

(** Three invoices of one customer on the same day, as built from three
    spreadsheet rows *)
Definition sameDayInvoices : list Transaction :=
  buildTransactions Date_parse_canonical 1706745600000 0
    [[("Customer Name", VStr "ACME"); ("Total", VStr "0.10");
      ("Trx Date", VStr "05/01/2024")];
     [("Customer Name", VStr "ACME"); ("Total", VStr "0.20");
      ("Trx Date", VStr "05/01/2024")];
     [("Customer Name", VStr "ACME"); ("Total", VStr "0.30");
      ("Trx Date", VStr "05/01/2024")]].

(** ** Names in normal form *)

(** Every white-space character of [s] is a space, followed by a
    character that is not white space or, when [atEnd] holds, by the end
    of the string. *)
Fixpoint spaced (atEnd : bool) (s : string) : bool :=
  match s with
  | EmptyString => true
  | String c s' =>
      (if isWhiteSpace c
       then Ascii.eqb c " "
            && match s' with
               | String c' _ => negb (isWhiteSpace c')
               | EmptyString => atEnd
               end
       else true)
      && spaced atEnd s'
  end.

(** A name in normal form: it neither starts nor ends with white space,
    and its words are separated by single spaces. *)
Definition isNormalName (s : string) : bool :=
  match s with
  | EmptyString => true
  | String c _ => negb (isWhiteSpace c)
  end && spaced false s.

(** ** Currency text ([utils/formatters.ts]) *)

Definition parseCurrency (input : string) : float64 :=
  let clean := removeChars isComma input in
  parseFloat clean.

(** ** The application state ([App.tsx]) *)

(** [a === b] on transaction ids *)
Definition TrxId_eqb (a b : TrxId) : bool :=
  match a, b with
  | FileId i n, FileId j m => (i =? j)%nat && (n =? m)
  | ManualId n, ManualId m => n =? m
  | _, _ => false
  end.

(** The default comparator of [Array.prototype.sort] on strings is
    positive when the second string is smaller, by code units. *)
Definition stringAfter (a b : string) : bool := (b <? a)%string.

(** [Array.from(new Set(fileTransactions.map(t => t.customerName)
    .filter(Boolean))).sort()] *)
Definition customers (fileTransactions : list Transaction) : list string :=
  let names :=
    fold_left setAdd
      (filter (fun n => truthy (VStr n)) (map customerName fileTransactions)) [] in
  Array_sort stringAfter names.

(** [setFileTransactions(prev => [...prev, ...data])] *)
Definition handleDataLoaded (prev data : list Transaction) : list Transaction :=
  (prev ++ data)%list.

(** [setManualTransactions(prev => [...prev, trx])] *)
Definition handleManualAdd (prev : list Transaction) (trx : Transaction)
  : list Transaction :=
  (prev ++ [trx])%list.

(** [handleManualDelete(id)]; [confirmed] is the answer to the
    confirmation dialog. *)
Definition handleManualDelete (confirmed : bool) (id0 : TrxId)
  (prev : list Transaction) : list Transaction :=
  if confirmed then filter (fun t => negb (TrxId_eqb (id t) id0)) prev else prev.

(** [openingBalance: parseFloat(e.target.value) || 0] *)
Definition openingBalanceOf (text : string) : float64 :=
  let v := parseFloat text in
  if truthy (VNum v) then v else zero.
(** *** The state of [App] and the events that change it

    The state variables of [App] that feed the generator.  [logoData] is
    the logo in use; [storedLogo] is the [companyLogo] entry of the
    local storage.  The configuration is kept without its logo, which
    is added when a statement is generated. *)
Record AppState : Type := mkAppState {
  app_fileTransactions : list Transaction;
  app_manualTransactions : list Transaction;
  app_selectedCustomer : string;
  app_config : StatementConfig;
  app_logoData : option string;
  app_storedLogo : option string;
  app_configSaved : bool
}.

(** The events handled by [App] and by the form it renders; each
    carries what the host supplies (the clock reading, the answer to a
    confirmation dialog, the text typed into a field). *)
Inductive Action : Type :=
| DataLoaded (data : list Transaction)
| SelectCustomer (customer : string)
| SubmitPayment (now : Z) (formData : FormData)
| DeletePayment (id0 : TrxId) (confirmed : bool)
| ClearData (confirmed : bool)
| LogoUploaded (result : string)
| ResetLogo
| SetStartDate (text : string)
| SetEndDate (text : string)
| SetOpeningBalance (text : string)
| SetOperatingUnit (text : string)
| SaveConfig
| SaveConfigExpired.

Definition withConfig (s : AppState) (config : StatementConfig) : AppState :=
  {| app_fileTransactions := app_fileTransactions s;
     app_manualTransactions := app_manualTransactions s;
     app_selectedCustomer := app_selectedCustomer s;
     app_config := config;
     app_logoData := app_logoData s;
     app_storedLogo := app_storedLogo s;
     app_configSaved := app_configSaved s |}.

Section App.

(** The built-in logo, a constant of the application. *)
Variable COMPANY_LOGO_BASE64 : string.

(** The state after the first render and its effects: no data, no
    customer selected, the stored logo if there is one, and the default
    period, which the host computes from the clock. *)
Definition initialState (startDate0 endDate0 : string) (savedLogo : option string)
  : AppState :=
  {| app_fileTransactions := [];
     app_manualTransactions := [];
     app_selectedCustomer := "";
     app_config := {| operatingUnit := "FMCG"; startDate := startDate0;
                      endDate := endDate0; openingBalance := zero;
                      logoUrl := None |};
     app_logoData := match savedLogo with
                     | Some l => if truthy (VStr l) then Some l
                                 else Some COMPANY_LOGO_BASE64
                     | None => Some COMPANY_LOGO_BASE64
                     end;
     app_storedLogo := savedLogo;
     app_configSaved := false |}.

Definition dispatch (s : AppState) (a : Action) : AppState :=
  match a with
  | DataLoaded data =>
      {| app_fileTransactions := handleDataLoaded (app_fileTransactions s) data;
         app_manualTransactions := app_manualTransactions s;
         app_selectedCustomer := app_selectedCustomer s;
         app_config := app_config s;
         app_logoData := app_logoData s;
         app_storedLogo := app_storedLogo s;
         app_configSaved := app_configSaved s |}
  | SelectCustomer customer =>
      {| app_fileTransactions := app_fileTransactions s;
         app_manualTransactions := app_manualTransactions s;
         app_selectedCustomer := customer;
         app_config := app_config s;
         app_logoData := app_logoData s;
         app_storedLogo := app_storedLogo s;
         app_configSaved := app_configSaved s |}
  | SubmitPayment now formData =>
      {| app_fileTransactions := app_fileTransactions s;
         app_manualTransactions :=
           match handleSubmit now (app_selectedCustomer s) formData with
           | Some newTrx => handleManualAdd (app_manualTransactions s) newTrx
           | None => app_manualTransactions s
           end;
         app_selectedCustomer := app_selectedCustomer s;
         app_config := app_config s;
         app_logoData := app_logoData s;
         app_storedLogo := app_storedLogo s;
         app_configSaved := app_configSaved s |}
  | DeletePayment id0 confirmed =>
      {| app_fileTransactions := app_fileTransactions s;
         app_manualTransactions :=
           handleManualDelete confirmed id0 (app_manualTransactions s);
         app_selectedCustomer := app_selectedCustomer s;
         app_config := app_config s;
         app_logoData := app_logoData s;
         app_storedLogo := app_storedLogo s;
         app_configSaved := app_configSaved s |}
  | ClearData confirmed =>
      if confirmed then
        {| app_fileTransactions := [];
           app_manualTransactions := [];
           app_selectedCustomer := "";
           app_config := app_config s;
           app_logoData := Some COMPANY_LOGO_BASE64;
           app_storedLogo := None;
           app_configSaved := false |}
      else s
  | LogoUploaded result =>
      {| app_fileTransactions := app_fileTransactions s;
         app_manualTransactions := app_manualTransactions s;
         app_selectedCustomer := app_selectedCustomer s;
         app_config := app_config s;
         app_logoData := Some result;
         app_storedLogo := Some result;
         app_configSaved := app_configSaved s |}
  | ResetLogo =>
      {| app_fileTransactions := app_fileTransactions s;
         app_manualTransactions := app_manualTransactions s;
         app_selectedCustomer := app_selectedCustomer s;
         app_config := app_config s;
         app_logoData := Some COMPANY_LOGO_BASE64;
         app_storedLogo := None;
         app_configSaved := app_configSaved s |}
  | SetStartDate text =>
      withConfig s {| operatingUnit := operatingUnit (app_config s);
                      startDate := text;
                      endDate := endDate (app_config s);
                      openingBalance := openingBalance (app_config s);
                      logoUrl := logoUrl (app_config s) |}
  | SetEndDate text =>
      withConfig s {| operatingUnit := operatingUnit (app_config s);
                      startDate := startDate (app_config s);
                      endDate := text;
                      openingBalance := openingBalance (app_config s);
                      logoUrl := logoUrl (app_config s) |}
  | SetOpeningBalance text =>
      withConfig s {| operatingUnit := operatingUnit (app_config s);
                      startDate := startDate (app_config s);
                      endDate := endDate (app_config s);
                      openingBalance := openingBalanceOf text;
                      logoUrl := logoUrl (app_config s) |}
  | SetOperatingUnit text =>
      withConfig s {| operatingUnit := text;
                      startDate := startDate (app_config s);
                      endDate := endDate (app_config s);
                      openingBalance := openingBalance (app_config s);
                      logoUrl := logoUrl (app_config s) |}
  | SaveConfig =>
      {| app_fileTransactions := app_fileTransactions s;
         app_manualTransactions := app_manualTransactions s;
         app_selectedCustomer := app_selectedCustomer s;
         app_config := app_config s;
         app_logoData := app_logoData s;
         app_storedLogo := app_storedLogo s;
         app_configSaved := true |}
  | SaveConfigExpired =>
      {| app_fileTransactions := app_fileTransactions s;
         app_manualTransactions := app_manualTransactions s;
         app_selectedCustomer := app_selectedCustomer s;
         app_config := app_config s;
         app_logoData := app_logoData s;
         app_storedLogo := app_storedLogo s;
         app_configSaved := false |}
  end.

Variable Date_parse : string -> option Z.
Variable sheet_to_json : list (list value) -> nat -> list record.

(** What the page can deliver in a state: transactions come from a
    successful upload, and the customer select offers the names of
    [customers] only; every other event can occur at any time. *)
Definition offered (s : AppState) (a : Action) : Prop :=
  match a with
  | DataLoaded data =>
      exists now rawRows seenCustomers,
        processFile Date_parse sheet_to_json now rawRows = Loaded data seenCustomers
  | SelectCustomer customer => In customer (customers (app_fileTransactions s))
  | _ => True
  end.

Inductive reachable : AppState -> Prop :=
| reachable_initial (startDate0 endDate0 : string) (savedLogo : option string) :
    reachable (initialState startDate0 endDate0 savedLogo)
| reachable_step (s : AppState) (a : Action) :
    reachable s -> offered s a -> reachable (dispatch s a).

(** [handleGeneratePDF] up to the call of the generator: [None] stands
    for the two alerts, [user] tells whether somebody is signed in. *)
Definition handleGeneratePDF (user : bool) (s : AppState) : option Statement :=
  if negb (truthy (VStr (app_selectedCustomer s))) then None
  else if negb user then None
  else Some (generateStatementPDF Date_parse
               (app_fileTransactions s) (app_manualTransactions s)
               (app_selectedCustomer s)
               {| operatingUnit := operatingUnit (app_config s);
                  startDate := startDate (app_config s);
                  endDate := endDate (app_config s);
                  openingBalance := openingBalance (app_config s);
                  logoUrl := app_logoData s |}).

End App.

(** ** Calendar dates *)

(** [y-m-d] is a day of the proleptic Gregorian calendar. *)
Definition validDate (y m d : Z) : bool :=
  (1 <=? m) && (m <=? 12) && (1 <=? d) && (d <=? daysInMonth y m).

(** The earlier of two dates, field by field. *)
Definition dateBefore (a b : Z * Z * Z) : bool :=
  let '(y1, m1, d1) := a in
  let '(y2, m2, d2) := b in
  (y1 <? y2) || ((y1 =? y2) && ((m1 <? m2) || ((m1 =? m2) && (d1 <? d2)))).

(** A time value whose year has four digits: from 0000-01-01T00:00 to
    9999-12-31T23:59:59.999. *)
Definition fourDigitYear (t : Z) : bool :=
  (-62167219200000 <=? t) && (t <=? 253402300799999).

(** [f] holds for every integer from [0] to [n - 1]. *)
Definition allBelow (f : Z -> bool) (n : Z) : bool :=
  snd (Z.iter n (fun st => (fst st + 1, snd st && f (fst st))) (0, true)).

(** The decimal numeral of [n], zero-padded to [width] digits, has
    [width] digits and reads back as [n]. *)
Definition numeralOk (width : nat) (n : Z) : bool :=
  let s := padZeros width (decimalString n) in
  (String.length s =? width)%nat && allDigits s && (digitsValue 0 s =? n).

(** ** Amount cells *)

(** [typeof rawVal === 'string' && rawVal.includes('(') &&
    rawVal.includes(')')] *)
Definition parenthesised (rawVal : value) : bool :=
  match rawVal with
  | VStr s => includes s "(" && includes s ")"
  | _ => false
  end.
(** ** More sample data *)

(** A file with one plain invoice and one whose amount cell is a remark
    in parentheses *)
Definition remarkFile : list Transaction :=
  buildTransactions Date_parse_canonical 1706745600000 0
    [[("Customer Name", VStr "ACME"); ("Total", VStr "750.00");
      ("Trx Date", VStr "20/01/2024")];
     [("Customer Name", VStr "ACME"); ("Total", VStr "(see note)");
      ("Trx Date", VStr "21/01/2024")]].
(** A sheet with two title rows above the header, three invoices of two
    customers and a totals row *)
Definition sampleGrid : list (list value) :=
  [[VStr "Receivables ledger"];
   [VStr "Period"; VStr "January 2024"];
   [VStr "Customer Name"; VStr "Trx Date"; VStr "Total"];
   [VStr "Beta Corp"; VStr "07/01/2024"; VStr "90.00"];
   [VStr "ACME"; VStr "05/01/2024"; VStr "500.00"];
   [VStr "ACME"; VStr "20/01/2024"; VStr "750.00"];
   [VStr "Grand Total"; VStr ""; VStr "1,340.00"]].
(** The transactions handed over by the upload of [sampleGrid] *)
Definition sampleUpload : list Transaction :=
  match processFile Date_parse_canonical recordsBelow 1706745600000 sampleGrid with
  | Loaded transactions _ => transactions
  | _ => []
  end.

(** A session: the sheet is uploaded, "ACME" is selected, a payment of
    200.00 is entered. *)
Definition sampleSession : AppState :=
  dispatch "data:image/png;base64,iVBORw0KGgo="
    (dispatch "data:image/png;base64,iVBORw0KGgo="
       (dispatch "data:image/png;base64,iVBORw0KGgo="
          (initialState "data:image/png;base64,iVBORw0KGgo="
                        "2024-01-01" "2024-01-31" None)
          (DataLoaded sampleUpload))
       (SelectCustomer "ACME"))
    (SubmitPayment 1706745600000
       (mkFormData "2024-01-25" "P-17" "Center" "Riyadh" "200.00")).
(** ** Ledger order *)

(** [a] is not dated after [b]: both dates have the shape YYYY-MM-DD,
    and year, month and day of [b] are not before those of [a]. *)
Definition notDatedAfter (a b : LedgerEntry) : Prop :=
  exists ymd1 ymd2,
    splitCanonical (trxDate (entry a)) = Some ymd1
    /\ splitCanonical (trxDate (entry b)) = Some ymd2
    /\ dateBefore ymd2 ymd1 = false.

(** Three invoices of two customers, uploaded out of date order, and a
    payment of 200.00 entered for ACME on 10 January 2024 *)
Definition unorderedFile : list Transaction :=
  buildTransactions Date_parse_canonical 1706745600000 0
    [[("Customer Name", VStr "ACME"); ("Total", VStr "750.00");
      ("Trx Date", VStr "20/01/2024")];
     [("Customer Name", VStr "Beta Corp"); ("Total", VStr "90.00");
      ("Trx Date", VStr "07/01/2024")];
     [("Customer Name", VStr "ACME"); ("Total", VStr "500.00");
      ("Trx Date", VStr "05/01/2024")]].

Definition januaryPayment : list Transaction :=
  submitManual 1706745600000 "ACME"
    (mkFormData "2024-01-10" "P-17" "Center" "Riyadh" "200.00") [].

(** Two invoices of ACME as uploaded from the date cells "12/25/2024"
    (read day-month-year and stored as "2024-25-12", which is no date)
    and "05/01/2024" (5 January 2024), and a statement period that
    holds both date strings *)
Definition misdatedFile : list Transaction :=
  buildTransactions Date_parse_canonical 1706745600000 0
    [[("Customer Name", VStr "ACME"); ("Total", VStr "750.00");
      ("Trx Date", VStr "12/25/2024")];
     [("Customer Name", VStr "ACME"); ("Total", VStr "500.00");
      ("Trx Date", VStr "05/01/2024")]].

Definition twoYearConfig : StatementConfig :=
  {| operatingUnit := "FMCG"; startDate := "2024-01-01";
     endDate := "2025-12-31"; openingBalance := zero; logoUrl := None |}.

(** * Properties *)

(** ** Numbers *)

Lemma neg_abs_not_positive (x : float64) :
  b64_gt (b64_neg (Math_abs x)) zero = false.
Proof. destruct x as [s | s | | s m e]; reflexivity. Qed.

(** ** The running balance *)

Lemma tableBody_final (l : list LedgerEntry) (b : float64) :
  snd (tableBody b l) = fold_left b64_add (map calculatedAmount l) b.
Proof.
  revert b. induction l as [| t rest IH]; intro b; simpl.
  - reflexivity.
  - specialize (IH (b64_add b (calculatedAmount t))).
    destruct (tableBody (b64_add b (calculatedAmount t)) rest) as [rows final].
    exact IH.
Qed.

Lemma tableBody_cons (t : LedgerEntry) (rest : list LedgerEntry) (b : float64) :
  fst (tableBody b (t :: rest))
  = tableRow t (b64_add b (calculatedAmount t))
    :: fst (tableBody (b64_add b (calculatedAmount t)) rest).
Proof.
  simpl. destruct (tableBody (b64_add b (calculatedAmount t)) rest); reflexivity.
Qed.

(** The balances of the rows are the successive partial sums. *)
Lemma tableBody_balances (l : list LedgerEntry) (b : float64) :
  map rowBalance (fst (tableBody b l))
  = map (fun n => fold_left b64_add (map calculatedAmount (firstn (S n) l)) b)
        (seq 0 (List.length l)).
Proof.
  revert b. induction l as [| t rest IH]; intro b.
  - reflexivity.
  - rewrite tableBody_cons. cbn [map List.length seq]. f_equal.
    rewrite IH, <- seq_shift, map_map. reflexivity.
Qed.

Lemma tableBody_rows (l : list LedgerEntry) (b : float64) :
  List.length (fst (tableBody b l)) = List.length l.
Proof.
  revert b. induction l as [| t rest IH]; intro b.
  - reflexivity.
  - rewrite tableBody_cons. simpl. f_equal. apply IH.
Qed.

Lemma last_nonempty_default {A : Type} (l : list A) (x d d' : A) :
  last (x :: l) d = last (x :: l) d'.
Proof.
  revert x. induction l as [| y l IH]; intro x.
  - reflexivity.
  - cbn [last]. cbn [last] in IH. apply IH.
Qed.

Lemma tableBody_last (l : list LedgerEntry) (b : float64) :
  snd (tableBody b l) = last (map rowBalance (fst (tableBody b l))) b.
Proof.
  revert b. induction l as [| t rest IH]; intro b.
  - reflexivity.
  - rewrite tableBody_cons. cbn [map].
    assert (Hs : snd (tableBody b (t :: rest))
                 = snd (tableBody (b64_add b (calculatedAmount t)) rest)).
    { simpl. destruct (tableBody (b64_add b (calculatedAmount t)) rest); reflexivity. }
    rewrite Hs, IH.
    destruct (fst (tableBody (b64_add b (calculatedAmount t)) rest)) as [| r rows].
    + reflexivity.
    + cbn [map]. change (last (?a :: ?b :: ?c) ?d) with (last (b :: c) d).
      apply last_nonempty_default.
Qed.

Lemma exactSums_value (l : list float64) (b : float64) :
  exactSums b l = true ->
  scaledValue (fold_left b64_add l b)
  = Some (scaledOrZero b + fold_right Z.add 0 (map scaledOrZero l)).
Proof.
  revert b. induction l as [| a l IH]; intro b; cbn [exactSums fold_left map fold_right].
  - unfold scaledOrZero. destruct (scaledValue b); [| discriminate].
    intros _. f_equal. lia.
  - intro H. apply andb_true_iff in H. destruct H as [Ha Hl].
    rewrite (IH _ Hl). f_equal.
    unfold exactAdd in Ha. unfold scaledOrZero.
    destruct (scaledValue b) as [vb |]; [| discriminate].
    destruct (scaledValue a) as [va |]; [| discriminate].
    destruct (scaledValue (b64_add b a)) as [vs |]; [| discriminate].
    apply Z.eqb_eq in Ha. lia.
Qed.

Lemma exactSums_firstn (l : list float64) (b : float64) (n : nat) :
  exactSums b l = true -> exactSums b (firstn n l) = true.
Proof.
  revert b n. induction l as [| a l IH]; intros b n H.
  - rewrite firstn_nil. exact H.
  - destruct n as [| n]; cbn [firstn exactSums] in *.
    + apply andb_true_iff in H. destruct H as [Ha _].
      unfold exactAdd in Ha. destruct (scaledValue b); [reflexivity | discriminate].
    + apply andb_true_iff in H. destruct H as [Ha Hl].
      rewrite Ha. cbn [andb]. apply IH, Hl.
Qed.

(** Without rounding, the balances are the exact partial sums. *)
Lemma tableBody_exact_balances (l : list LedgerEntry) (b : float64) :
  exactSums b (map calculatedAmount l) = true ->
  map scaledValue (map rowBalance (fst (tableBody b l)))
  = map (fun n => Some (scaledOrZero b
                        + fold_right Z.add 0
                            (map scaledOrZero
                                 (map calculatedAmount (firstn (S n) l)))))
        (seq 0 (List.length l)).
Proof.
  intro H. rewrite tableBody_balances, map_map. apply map_ext. intro n.
  apply exactSums_value. rewrite <- firstn_map. apply exactSums_firstn, H.
Qed.

Lemma generateStatementPDF_body Date_parse f m c cfg :
  body (generateStatementPDF Date_parse f m c cfg)
  = fst (tableBody (openingBalance cfg) (allTrxs Date_parse f m c cfg)).
Proof.
  unfold generateStatementPDF.
  destruct (tableBody (openingBalance cfg) (allTrxs Date_parse f m c cfg)); reflexivity.
Qed.

Lemma generateStatementPDF_final Date_parse f m c cfg :
  finalBalance (generateStatementPDF Date_parse f m c cfg)
  = snd (tableBody (openingBalance cfg) (allTrxs Date_parse f m c cfg)).
Proof.
  unfold generateStatementPDF.
  destruct (tableBody (openingBalance cfg) (allTrxs Date_parse f m c cfg)); reflexivity.
Qed.

(** ** Manual entries *)

(** C10. A submit of the manual-entry form with a customer selected
    stores exactly one new transaction; it is tagged [PAYMENT], its
    [originalAmount] is the negated absolute value of the number read
    from the amount field, and that amount is never positive, whatever
    was typed. *)
Theorem manual_entry_is_negated_payment :
  forall (now : Z) (selectedCustomer : string) (formData : FormData)
         (manualTransactions : list Transaction),
    selectedCustomer <> "" ->
    exists trx,
      handleSubmit now selectedCustomer formData = Some trx
      /\ submitManual now selectedCustomer formData manualTransactions
         = (manualTransactions ++ [trx])%list
      /\ trxType trx = PAYMENT
      /\ originalAmount trx
         = b64_neg (Math_abs (Number_ofString (form_originalAmount formData)))
      /\ b64_gt (originalAmount trx) zero = false.
Proof.
  intros now cust fd prev Hsel.
  unfold submitManual, handleSubmit.
  destruct cust as [| c cust']; [congruence |].
  eexists. split; [reflexivity |]. cbn [trxType originalAmount].
  repeat split. apply neg_abs_not_positive.
Qed.

Lemma manual_entry_is_negated_payment_witness :
  exists trx,
    handleSubmit 1704844800000 "ACME"
      (mkFormData "2024-01-10" "P-17" "Center" "Riyadh" "200.00") = Some trx
    /\ submitManual 1704844800000 "ACME"
         (mkFormData "2024-01-10" "P-17" "Center" "Riyadh" "200.00") []
       = ([] ++ [trx])%list
    /\ trxType trx = PAYMENT
    /\ originalAmount trx = b64_neg (Math_abs (Number_ofString "200.00"))
    /\ b64_gt (originalAmount trx) zero = false.
Proof.
  apply (manual_entry_is_negated_payment 1704844800000 "ACME"
           (mkFormData "2024-01-10" "P-17" "Center" "Riyadh" "200.00") []).
  discriminate.
Defined.

(** ** Running balance and closing figure *)

(** C1. For every ledger sequence and opening balance the table has one
    row per entry, the balance shown on row [n] is the opening balance
    plus the rendering amounts of rows [1..n] added from left to right,
    and the closing "Total Balance Due" figure is the balance after the
    last row; the statement applies this to the merged, date-sorted
    ledger.  When no addition rounds, the balance of row [n] has
    exactly the value of the opening balance plus the sum of the values
    of the amounts of rows [1..n].  With opening balance 1000.00, an
    invoice of 500.00 on 2024-01-05 and a manual payment of 200.00 on
    2024-01-10 the rows show 1500 and 1300 and the closing figure is
    1300. *)
Theorem running_balance_and_total_due :
  (forall (ledger : list LedgerEntry) (opening : float64),
      List.length (fst (tableBody opening ledger)) = List.length ledger
      /\ map rowBalance (fst (tableBody opening ledger))
         = map (fun n => fold_left b64_add
                           (map calculatedAmount (firstn (S n) ledger)) opening)
               (seq 0 (List.length ledger))
      /\ snd (tableBody opening ledger)
         = fold_left b64_add (map calculatedAmount ledger) opening
      /\ snd (tableBody opening ledger)
         = last (map rowBalance (fst (tableBody opening ledger))) opening
      /\ (exactSums opening (map calculatedAmount ledger) = true ->
          map scaledValue (map rowBalance (fst (tableBody opening ledger)))
          = map (fun n => Some (scaledOrZero opening
                                + fold_right Z.add 0
                                    (map scaledOrZero
                                       (map calculatedAmount (firstn (S n) ledger)))))
                (seq 0 (List.length ledger))))
  /\ (forall Date_parse fileTransactions manualTransactions selectedCustomer config,
        let ledger := allTrxs Date_parse fileTransactions manualTransactions
                              selectedCustomer config in
        let statement := generateStatementPDF Date_parse fileTransactions
                           manualTransactions selectedCustomer config in
        body statement = fst (tableBody (openingBalance config) ledger)
        /\ finalBalance statement = snd (tableBody (openingBalance config) ledger))
  /\ (let statement :=
        generateStatementPDF Date_parse_canonical scenarioFile scenarioManual
                             "ACME" scenarioConfig in
      map rowType (body statement) = [INVOICE; PAYMENT]
      /\ map rowBalance (body statement) = [parseFloat "1500.00"; parseFloat "1300.00"]
      /\ finalBalance statement = parseFloat "1300.00").
Proof.
  split; [| split].
  - intros ledger opening.
    repeat split.
    + apply tableBody_rows.
    + apply tableBody_balances.
    + apply tableBody_final.
    + apply tableBody_last.
    + apply tableBody_exact_balances.
  - intros. split.
    + apply generateStatementPDF_body.
    + apply generateStatementPDF_final.
  - vm_compute. repeat split.
Qed.

Lemma running_balance_and_total_due_witness :
  map scaledValue
      (map rowBalance
           (fst (tableBody (openingBalance scenarioConfig)
                   (allTrxs Date_parse_canonical scenarioFile scenarioManual
                            "ACME" scenarioConfig))))
  = map (fun n =>
           Some (scaledOrZero (openingBalance scenarioConfig)
                 + fold_right Z.add 0
                     (map scaledOrZero
                        (map calculatedAmount
                           (firstn (S n)
                              (allTrxs Date_parse_canonical scenarioFile
                                       scenarioManual "ACME" scenarioConfig))))))
        (seq 0 (List.length (allTrxs Date_parse_canonical scenarioFile
                                     scenarioManual "ACME" scenarioConfig))).
Proof.
  apply running_balance_and_total_due.
  vm_compute. reflexivity.
Defined.

(** ** Strings *)

Lemma digit_not_white (c : ascii) : isDigit c = true -> isWhiteSpace c = false.
Proof. unfold isDigit, isWhiteSpace. lia. Qed.


Lemma separator_not_digit (c : ascii) :
  isDateSeparator c = true -> isDigit c = false.
Proof.
  unfold isDateSeparator. intro H. apply orb_true_iff in H.
  destruct H as [H | H]; apply Ascii.eqb_eq in H; subst c; reflexivity.
Qed.

Lemma trimEnd_keeps (c : ascii) (s : string) :
  isWhiteSpace c = false -> trimEnd (String c s) = String c (trimEnd s).
Proof.
  intro H. cbn [trimEnd]. rewrite H. destruct (trimEnd s); reflexivity.
Qed.

Lemma trimStart_keeps (c : ascii) (s : string) :
  isWhiteSpace c = false -> trimStart (String c s) = String c s.
Proof. intro H. cbn [trimStart]. rewrite H. reflexivity. Qed.


(** ** Date normalisation *)

Lemma allDigits_cons (c : ascii) (s : string) :
  allDigits (String c s) = isDigit c && allDigits s.
Proof.
  unfold allDigits. cbn [takeDigits].
  destruct (isDigit c); [| reflexivity].
  destruct (takeDigits s) as [d r]. reflexivity.
Qed.

Lemma digitGroup_1_2 (s : string) :
  digitGroup 1 2 s = true ->
  (exists a, s = String a "" /\ isDigit a = true)
  \/ (exists a b, s = String a (String b "") /\ isDigit a = true /\ isDigit b = true).
Proof.
  unfold digitGroup. intro H.
  destruct s as [| a [| b [| c s]]]; cbn in H; try discriminate.
  - left. exists a. rewrite allDigits_cons in H.
    apply andb_true_iff in H. intuition.
  - right. exists a, b. rewrite !allDigits_cons in H.
    apply andb_true_iff in H. destruct H as [Ha H].
    apply andb_true_iff in H. intuition.
Qed.



Lemma oneOrTwoDigits_two (a b : ascii) (r : string) :
  isDigit a = true -> isDigit b = true ->
  oneOrTwoDigits (String a (String b r)) = Some (String a (String b ""), r).
Proof. intros Ha Hb. cbn [oneOrTwoDigits]. rewrite Ha, Hb. reflexivity. Qed.




Lemma parseDate_string (Date_parse : string -> option Z) (now : Z) (s : string) :
  s <> "" ->
  parseDate Date_parse now (VStr s)
  = match matchDMY (trim s) with
    | Some (day, month, year) =>
        year ++ "-" ++ padStart2 month ++ "-" ++ padStart2 day
    | None =>
        match timeClip (Date_parse (trim s)) with
        | Some t => toISODate t
        | None => toISODate now
        end
    end.
Proof.
  intro Hs. unfold parseDate. cbn [truthy serialDate String_of].
  destruct s; [congruence | reflexivity].
Qed.




(** What the other two branches do with a string they cannot read:
    they fall back to the current date. *)
Lemma parseDate_fallback (Date_parse : string -> option Z) (now : Z) (s : string) :
  s <> "" ->
  matchDMY (trim s) = None ->
  timeClip (Date_parse (trim s)) = None ->
  parseDate Date_parse now (VStr s) = toISODate now.
Proof.
  intros Hs Hm Hd. rewrite (parseDate_string _ _ _ Hs), Hm, Hd. reflexivity.
Qed.

(** C5 (failing inputs). The day-month-year branch returns its groups
    without checking them: a string such as ["45/13/2024"] or
    ["31/02/2024"] is neither rejected nor replaced by the current date,
    and the result is not a calendar date. *)
Theorem parseDate_returns_invalid_date :
  forall (Date_parse : string -> option Z) (now : Z),
    parseDate Date_parse now (VStr "45/13/2024") = "2024-13-45"
    /\ isCanonicalDate "2024-13-45" = false
    /\ parseDate Date_parse now (VStr "31/02/2024") = "2024-02-31"
    /\ isCanonicalDate "2024-02-31" = false.
Proof. intros DP now. repeat split. Qed.

(** ** Trimming and blank strings *)

Lemma trimStart_empty (s : string) : trimStart s = "" <-> allWhite s = true.
Proof.
  induction s as [| c s IH]; cbn [trimStart allWhite].
  - tauto.
  - destruct (isWhiteSpace c); cbn [andb]; [exact IH |].
    split; discriminate.
Qed.

Lemma trimEnd_empty (s : string) : trimEnd s = "" <-> allWhite s = true.
Proof.
  induction s as [| c s IH]; cbn [trimEnd allWhite].
  - tauto.
  - destruct (trimEnd s) as [| c' t].
    + assert (Hs : allWhite s = true) by (apply IH; reflexivity).
      rewrite Hs, andb_true_r. destruct (isWhiteSpace c); split; congruence.
    + assert (Hs : allWhite s = false).
      { destruct (allWhite s); [| reflexivity].
        assert (H : String c' t = "") by (apply IH; reflexivity). discriminate. }
      rewrite Hs, andb_false_r. split; discriminate.
Qed.

Lemma allWhite_trimStart (s : string) : allWhite (trimStart s) = allWhite s.
Proof.
  induction s as [| c s IH]; cbn [trimStart allWhite].
  - reflexivity.
  - destruct (isWhiteSpace c) eqn:Hc; cbn [andb allWhite].
    + exact IH.
    + rewrite Hc. reflexivity.
Qed.

Lemma trim_empty (s : string) : trim s = "" <-> allWhite s = true.
Proof. unfold trim. rewrite trimEnd_empty, allWhite_trimStart. tauto. Qed.

Lemma allWhite_collapseRuns (p : ascii -> bool) (s : string) :
  (forall c, p c = true -> isWhiteSpace c = true) ->
  allWhite (collapseRuns p s) = allWhite s.
Proof.
  intro Hp. induction s as [| c s IH]; [reflexivity |].
  cbn [collapseRuns allWhite].
  destruct (p c) eqn:Hc.
  - rewrite (Hp _ Hc). cbn [andb].
    destruct s as [| c' s']; [reflexivity |].
    destruct (p c') eqn:Hc'.
    + exact IH.
    + cbn [allWhite]. rewrite IH. reflexivity.
  - cbn [allWhite]. rewrite IH. reflexivity.
Qed.

Lemma lineBreak_is_white (c : ascii) : isLineBreak c = true -> isWhiteSpace c = true.
Proof. unfold isLineBreak, isWhiteSpace. lia. Qed.

(** ** Customer names and the skip rules *)

Lemma cleanCustomerName_not_empty (raw : value) :
  truthy raw = true -> trim (String_of raw) <> "" -> cleanCustomerName raw <> "".
Proof.
  intros Ht Hn Hc. unfold cleanCustomerName in Hc. rewrite Ht in Hc.
  apply trim_empty in Hc.
  rewrite allWhite_collapseRuns in Hc by auto.
  rewrite allWhite_collapseRuns in Hc by apply lineBreak_is_white.
  apply Hn, trim_empty, Hc.
Qed.

Lemma buildTransaction_cases (Date_parse : string -> option Z) (now : Z)
      (index : nat) (row : record) :
  match buildTransaction Date_parse now index row with
  | None =>
      truthy (findValue row customerNameKeys) = false
      \/ trim (String_of (findValue row customerNameKeys)) = ""
      \/ includes (toLowerCase (cleanCustomerName (findValue row customerNameKeys)))
                  "total" = true
  | Some t =>
      truthy (findValue row customerNameKeys) = true
      /\ trim (String_of (findValue row customerNameKeys)) <> ""
      /\ customerName t = cleanCustomerName (findValue row customerNameKeys)
      /\ customerName t <> ""
      /\ includes (toLowerCase (customerName t)) "total" = false
  end.
Proof.
  unfold buildTransaction.
  destruct (truthy (findValue row customerNameKeys)) eqn:Ht; cbn [negb orb].
  2: { left. reflexivity. }
  destruct (String.eqb_spec (trim (String_of (findValue row customerNameKeys))) "")
    as [Hb | Hb].
  { right. left. exact Hb. }
  destruct (includes (toLowerCase (cleanCustomerName (findValue row customerNameKeys)))
                     "total") eqn:Htot.
  { right. right. reflexivity. }
  cbn [customerName]. repeat split; auto.
  apply cleanCustomerName_not_empty; assumption.
Qed.

Lemma buildTransactions_names (Date_parse : string -> option Z) (now : Z)
      (rows : list record) (index : nat) :
  Forall (fun t => customerName t <> ""
                   /\ includes (toLowerCase (customerName t)) "total" = false)
         (buildTransactions Date_parse now index rows).
Proof.
  revert index. induction rows as [| row rest IH]; intro index; cbn [buildTransactions].
  - constructor.
  - pose proof (buildTransaction_cases Date_parse now index row) as H.
    destruct (buildTransaction Date_parse now index row) as [t |].
    + constructor; [| apply IH]. tauto.
    + apply IH.
Qed.

(** C9. The transaction builder emits no transaction for a row whose
    resolved customer name is absent or blank, nor for one whose cleaned
    name contains "total" in any letter case, and emits one otherwise; a
    skipped row is passed over without an error, the rest of the rows
    being processed as before; every emitted transaction has a non-empty
    customer name without "total"; a row whose name resolves to "Total"
    yields no transaction. *)
Theorem customer_name_skip_rules :
  forall (Date_parse : string -> option Z) (now : Z) (index : nat) (row : record),
    let raw := findValue row customerNameKeys in
    match buildTransaction Date_parse now index row with
    | None =>
        (truthy raw = false
         \/ trim (String_of raw) = ""
         \/ includes (toLowerCase (cleanCustomerName raw)) "total" = true)
        /\ forall rest,
            buildTransactions Date_parse now index (row :: rest)
            = buildTransactions Date_parse now (S index) rest
    | Some t =>
        truthy raw = true
        /\ trim (String_of raw) <> ""
        /\ includes (toLowerCase (cleanCustomerName raw)) "total" = false
        /\ customerName t = cleanCustomerName raw
        /\ forall rest,
            buildTransactions Date_parse now index (row :: rest)
            = t :: buildTransactions Date_parse now (S index) rest
    end
    /\ (forall rows,
           Forall (fun t => customerName t <> ""
                            /\ includes (toLowerCase (customerName t)) "total" = false)
                  (buildTransactions Date_parse now index rows))
    /\ (raw = VStr "Total" -> buildTransaction Date_parse now index row = None).
Proof.
  intros DP now index row raw. subst raw.
  pose proof (buildTransaction_cases DP now index row) as H.
  split; [| split].
  - cbn [buildTransactions].
    destruct (buildTransaction DP now index row) as [t |].
    + destruct H as (H1 & H2 & H3 & H4 & H5). rewrite H3 in H5. auto.
    + auto.
  - intro rows. apply buildTransactions_names.
  - intro Hraw. rewrite Hraw in H.
    destruct (buildTransaction DP now index row) as [t |]; [| reflexivity].
    destruct H as (_ & _ & H3 & _ & H5). rewrite H3 in H5. discriminate H5.
Qed.

Lemma customer_name_skip_rules_witness :
  buildTransaction Date_parse_canonical 1704412800000 3
    [("Customer Name", VStr "Total"); ("Total", VStr "1,750.00");
     ("Trx Date", VStr ""); ("Type", VStr "")] = None.
Proof.
  apply (customer_name_skip_rules Date_parse_canonical 1704412800000 3
           [("Customer Name", VStr "Total"); ("Total", VStr "1,750.00");
            ("Trx Date", VStr ""); ("Type", VStr "")]).
  reflexivity.
Defined.

(** ** Field resolution *)

Lemma firstHit_None (hit : string -> option value) (keys : list string) :
  firstHit hit keys = None <-> Forall (fun k => hit k = None) keys.
Proof.
  induction keys as [| k keys IH]; cbn [firstHit].
  - split; [constructor | reflexivity].
  - destruct (hit k) eqn:Hk.
    + split; [discriminate |]. intro H. inversion H; congruence.
    + rewrite IH. split.
      * intro H. constructor; assumption.
      * intro H. inversion H; assumption.
Qed.

Lemma firstHit_Some (hit : string -> option value) (keys : list string) (v : value) :
  firstHit hit keys = Some v <->
  exists before key after,
    keys = (before ++ key :: after)%list
    /\ Forall (fun k => hit k = None) before
    /\ hit key = Some v.
Proof.
  induction keys as [| k keys IH]; cbn [firstHit].
  - split; [discriminate |].
    intros (before & key & after & H & _). destruct before; discriminate.
  - destruct (hit k) eqn:Hk.
    + split.
      * intro H. exists [], k, keys. repeat split; [constructor | congruence].
      * intros ([| k' before] & key & after & Heq & Hb & Hh); cbn in Heq.
        -- injection Heq as -> ->. congruence.
        -- injection Heq as -> ->. inversion Hb; congruence.
    + rewrite IH. split.
      * intros (before & key & after & -> & Hb & Hh).
        exists (k :: before), key, after. repeat split; [constructor |]; assumption.
      * intros ([| k' before] & key & after & Heq & Hb & Hh); cbn in Heq.
        -- injection Heq as -> ->. congruence.
        -- injection Heq as -> ->. inversion Hb; subst.
           exists before, key, after. repeat split; assumption.
Qed.

Lemma hitAt_hasValue (row : record) (found : option string) (v : value) :
  hitAt row found = Some v -> hasValue v = true.
Proof.
  unfold hitAt. destruct found as [k |]; [| discriminate].
  destruct (negb (k =? "")%string); cbn [andb]; [| discriminate].
  destruct (hasValue (getProp row k)) eqn:H; [| discriminate].
  intro E. injection E as <-. exact H.
Qed.

Lemma tierHit_hasValue (tier : MatchTier) (row : record) (key : string) (v : value) :
  tierHit tier row key = Some v -> hasValue v = true.
Proof.
  destruct tier; cbn [tierHit].
  - unfold exactHit. destruct (hasValue (getProp row key)) eqn:H; [| discriminate].
    intro E. injection E as <-. exact H.
  - apply hitAt_hasValue.
  - apply hitAt_hasValue.
Qed.

Lemma resolves_findValue (row : record) (keys : list string) (v : value) :
  resolves row keys v -> findValue row keys = v.
Proof.
  intros (tier & before & key & after & Hk & Hhit & Hbefore & Hstronger).
  assert (Hfirst : firstHit (tierHit tier row) keys = Some v).
  { apply firstHit_Some. exists before, key, after. auto. }
  clear Hk Hhit Hbefore.
  unfold findValue. destruct tier; cbn [strongerTiers tierHit] in *.
  - change (firstHit (exactHit row) keys = Some v) in Hfirst. rewrite Hfirst. reflexivity.
  - inversion Hstronger as [| ? ? H1 _]; subst.
    apply firstHit_None in H1. cbn [tierHit] in H1.
    change (firstHit (exactHit row) keys = None) in H1. rewrite H1.
    change (firstHit (caseInsensitiveHit row) keys = Some v) in Hfirst.
    rewrite Hfirst. reflexivity.
  - inversion Hstronger as [| ? ? H1 Hs']; subst.
    inversion Hs' as [| ? ? H2 _]; subst.
    apply firstHit_None in H1. apply firstHit_None in H2.
    change (firstHit (exactHit row) keys = None) in H1.
    change (firstHit (caseInsensitiveHit row) keys = None) in H2.
    change (firstHit (partialHit row) keys = Some v) in Hfirst.
    rewrite H1, H2, Hfirst. reflexivity.
Qed.

Lemma findValue_resolves (row : record) (keys : list string) :
  (findValue row keys = VUndefined
   /\ forall tier, Forall (fun k => tierHit tier row k = None) keys)
  \/ resolves row keys (findValue row keys).
Proof.
  unfold findValue.
  destruct (firstHit (exactHit row) keys) as [v |] eqn:H1.
  { right. apply firstHit_Some in H1. destruct H1 as (b & k & a & Hk & Hb & Hh).
    exists ExactKey, b, k, a. cbn [strongerTiers tierHit]. auto. }
  destruct (firstHit (caseInsensitiveHit row) keys) as [v |] eqn:H2.
  { right. apply firstHit_Some in H2. destruct H2 as (b & k & a & Hk & Hb & Hh).
    exists SameKeyAnyCase, b, k, a. cbn [strongerTiers tierHit].
    repeat split; auto. constructor; [| constructor].
    apply firstHit_None. exact H1. }
  destruct (firstHit (partialHit row) keys) as [v |] eqn:H3.
  { right. apply firstHit_Some in H3. destruct H3 as (b & k & a & Hk & Hb & Hh).
    exists KeyContainsName, b, k, a. cbn [strongerTiers tierHit].
    repeat split; auto.
    constructor; [| constructor; [| constructor]]; apply firstHit_None; assumption. }
  left. split; [reflexivity |].
  intros [| |]; apply firstHit_None; assumption.
Qed.

(** The keys that [processFile] looks up are column names: none is the
    name of an inherited member. *)
Lemma processFile_keys_are_column_names :
  Forall (fun key => inherited key = false)
         (customerNameKeys ++ amountKeys ++ typeKeys ++ dateKeys ++ numberKeys
          ++ regionKeys ++ siteKeys ++ agencyKeys ++ noteKeys)%list.
Proof. repeat constructor. Qed.

(** The passes of the code find what the record shows. *)
Lemma hasValue_filled (v : value) : hasValue v = true <-> filled v.
Proof.
  unfold filled. destruct v as [| | b | n | s]; cbn [hasValue].
  - split; [discriminate | intros (H & _); congruence].
  - split; [discriminate | intros (_ & H & _); congruence].
  - split; [intros _; repeat split; discriminate | reflexivity].
  - split; [intros _; repeat split; discriminate | reflexivity].
  - destruct (s =? "")%string eqn:E; cbn [negb].
    + apply String.eqb_eq in E. subst s.
      split; [discriminate | intros (_ & _ & H); congruence].
    + apply String.eqb_neq in E.
      split; [intros _; repeat split; congruence | reflexivity].
Qed.

Lemma find_first (p : string -> bool) (keys : list string) (k : string) :
  find p keys = Some k <->
  exists before after,
    keys = (before ++ k :: after)%list
    /\ Forall (fun k' => p k' = false) before
    /\ p k = true.
Proof.
  induction keys as [| k0 keys IH]; cbn [find].
  - split; [discriminate |]. intros ([| ? ?] & ? & H & _); discriminate H.
  - destruct (p k0) eqn:E0.
    + split.
      * intro H. injection H as <-. exists [], keys. repeat split; [constructor | exact E0].
      * intros ([| k1 before] & after & Heq & Hb & Hk); cbn in Heq.
        -- injection Heq as -> _. reflexivity.
        -- injection Heq as -> _. inversion Hb; congruence.
    + rewrite IH. split.
      * intros (before & after & -> & Hb & Hk). exists (k0 :: before), after.
        repeat split; [constructor; assumption | exact Hk].
      * intros ([| k1 before] & after & Heq & Hb & Hk); cbn in Heq.
        -- injection Heq as -> _. congruence.
        -- injection Heq as -> ->. inversion Hb; subst.
           exists before, after. repeat split; assumption.
Qed.

Lemma firstKey_unique (p : string -> bool) (row : record) (k1 k2 : string) :
  firstKey p row k1 -> firstKey p row k2 -> k1 = k2.
Proof.
  intros H1 H2. apply find_first in H1, H2. congruence.
Qed.

Lemma hitAt_find (p : string -> bool) (row : record) (v : value) :
  hitAt row (find p (Object_keys row)) = Some v <->
  exists k, firstKey p row k /\ k <> "" /\ getProp row k = v /\ filled v.
Proof.
  unfold hitAt. split.
  - destruct (find p (Object_keys row)) as [k |] eqn:Hf; [| discriminate].
    destruct (k =? "")%string eqn:Ek; cbn [negb andb]; [discriminate |].
    destruct (hasValue (getProp row k)) eqn:Hv; [| discriminate].
    intro H. injection H as <-. exists k.
    split; [apply find_first, Hf |]. split; [apply String.eqb_neq, Ek |].
    split; [reflexivity | apply hasValue_filled, Hv].
  - intros (k & Hk & Hne & Hg & Hv). apply find_first in Hk. rewrite Hk.
    apply String.eqb_neq in Hne. rewrite Hne. cbn [negb andb].
    apply hasValue_filled in Hv. rewrite Hg, Hv. reflexivity.
Qed.

Lemma tierHit_yields (tier : MatchTier) (row : record) (key : string) (v : value) :
  tierHit tier row key = Some v <-> yields row key v tier.
Proof.
  destruct tier; cbn [tierHit].
  - unfold exactHit. split.
    + destruct (hasValue (getProp row key)) eqn:Hv; [| discriminate].
      intro H. injection H as <-.
      constructor; [reflexivity | apply hasValue_filled, Hv].
    + intro H. inversion H as [Hg Hv | |]; subst.
      apply hasValue_filled in Hv. rewrite Hv. reflexivity.
  - unfold caseInsensitiveHit, sameKeyIgnoringCase. rewrite hitAt_find. split.
    + intros (k & Hk & Hne & Hg & Hv). exact (yields_anyCase row key v k Hk Hne Hg Hv).
    + intro H. inversion H as [| k Hk Hne Hg Hv |]; subst. exists k. auto.
  - unfold partialHit, keyContains. rewrite hitAt_find. split.
    + intros (k & Hk & Hne & Hg & Hv). exact (yields_contains row key v k Hk Hne Hg Hv).
    + intro H. inversion H as [| | k Hk Hne Hg Hv]; subst. exists k. auto.
Qed.

Lemma tierHit_yields_nothing (tier : MatchTier) (row : record) (key : string) :
  tierHit tier row key = None <-> forall v, ~ yields row key v tier.
Proof.
  split.
  - intros H v Hy. apply tierHit_yields in Hy. congruence.
  - intro H. destruct (tierHit tier row key) as [v |] eqn:E; [| reflexivity].
    apply tierHit_yields in E. destruct (H v E).
Qed.

Lemma resolves_yields (row : record) (keys : list string) (v : value) :
  resolves row keys v <->
  exists tier before key after,
    keys = (before ++ key :: after)%list
    /\ yields row key v tier
    /\ (forall key' v', In key' before -> ~ yields row key' v' tier)
    /\ (forall tier' key' v',
           In tier' (strongerTiers tier) -> In key' keys ->
           ~ yields row key' v' tier').
Proof.
  unfold resolves. split.
  - intros (tier & before & key & after & Hk & Hhit & Hb & Hs).
    exists tier, before, key, after. split; [exact Hk |].
    split; [apply tierHit_yields, Hhit |]. split.
    + intros key' v' Hin. rewrite Forall_forall in Hb.
      apply tierHit_yields_nothing, Hb, Hin.
    + intros tier' key' v' Ht Hin. rewrite Forall_forall in Hs.
      specialize (Hs tier' Ht). rewrite Forall_forall in Hs.
      apply tierHit_yields_nothing, Hs, Hin.
  - intros (tier & before & key & after & Hk & Hhit & Hb & Hs).
    exists tier, before, key, after. split; [exact Hk |].
    split; [apply tierHit_yields, Hhit |]. split.
    + apply Forall_forall. intros key' Hin. apply tierHit_yields_nothing.
      intros v'. apply Hb, Hin.
    + apply Forall_forall. intros tier' Ht. apply Forall_forall. intros key' Hin.
      apply tierHit_yields_nothing. intros v'. apply (Hs tier' key' v' Ht Hin).
Qed.

(** C6 (as amended). Field resolution runs three passes - the
    candidate as a key of the record; the first record key equal to
    the candidate once both are trimmed and lower-cased; the first
    record key that contains the candidate once both are lower-cased -
    each over the whole candidate list in order before the next begins.
    A pass finds a value for a candidate when the value under that one
    key is neither [undefined] nor [null] nor the empty string.  The
    result is the value found for the first candidate, in list order,
    of the first pass in which any candidate finds one, and [undefined]
    exactly when no pass finds a value for any candidate.  Hence for
    candidates ["Total"; "Amount"] a record whose "Total" key has such
    a value resolves to it, whatever other keys (such as "Net Amount")
    the record has.  Candidates are column names, not names of members
    that every object inherits. *)
Theorem findValue_three_passes :
  forall (row : record) (possibleKeys : list string),
    Forall (fun key => inherited key = false) possibleKeys ->
    (forall v,
        (findValue row possibleKeys = v /\ v <> VUndefined) <->
        exists tier before key after,
          possibleKeys = (before ++ key :: after)%list
          /\ yields row key v tier
          /\ (forall key' v', In key' before -> ~ yields row key' v' tier)
          /\ (forall tier' key' v',
                 In tier' (strongerTiers tier) -> In key' possibleKeys ->
                 ~ yields row key' v' tier'))
    /\ (findValue row possibleKeys = VUndefined <->
        forall tier key v, In key possibleKeys -> ~ yields row key v tier)
    /\ (forall v, getProp row "Total" = v -> filled v ->
                  findValue row ["Total"; "Amount"] = v).
Proof.
  intros row keys _. split; [| split].
  - intro v. rewrite <- resolves_yields. split.
    + intros [Hf Hv].
      destruct (findValue_resolves row keys) as [[H _] | H]; [congruence |].
      rewrite Hf in H. exact H.
    + intro H. split; [apply resolves_findValue, H |].
      destruct H as (tier & _ & key & _ & _ & Hhit & _).
      apply tierHit_hasValue in Hhit. intros ->. discriminate Hhit.
  - split.
    + intros Hu tier key v Hin Hy.
      destruct (findValue_resolves row keys) as [[_ H] | H].
      * specialize (H tier). rewrite Forall_forall in H.
        apply tierHit_yields in Hy. rewrite (H key Hin) in Hy. discriminate Hy.
      * rewrite Hu in H. destruct H as (t & _ & k & _ & _ & Hhit & _).
        apply tierHit_hasValue in Hhit. discriminate Hhit.
    + intro Hnone.
      destruct (findValue_resolves row keys) as [[H _] | H]; [exact H |].
      destruct H as (t & b & k & a & Hk & Hhit & _).
      apply tierHit_yields in Hhit. exfalso.
      apply (Hnone t k _ ltac:(rewrite Hk; apply in_elt) Hhit).
  - intros v Hg Hv. apply hasValue_filled in Hv. unfold findValue. cbn [firstHit].
    unfold exactHit at 1. rewrite Hg, Hv. reflexivity.
Qed.

Lemma findValue_three_passes_witness :
  findValue [("Net Amount", VStr "480.00"); ("Total", VStr "500.00")]
            ["Total"; "Amount"] = VStr "500.00"
  /\ findValue [("Net Amount", VStr "480.00"); (" TOTAL ", VStr "500.00")]
               ["Total"; "Amount"] = VStr "500.00"
  /\ findValue [("Net Amount", VStr "480.00"); ("Sub Total", VStr "")]
               ["Total"; "Amount"] = VStr "480.00".
Proof.
  assert (Hown : Forall (fun key => inherited key = false) ["Total"; "Amount"])
    by (repeat constructor).
  assert (Hnot : forall row tier key v,
             tierHit tier row key = None -> ~ yields row key v tier).
  { intros row tier key v H. apply tierHit_yields_nothing, H. }
  split; [| split].
  - destruct (findValue_three_passes
                [("Net Amount", VStr "480.00"); ("Total", VStr "500.00")]
                ["Total"; "Amount"] Hown) as (_ & _ & H).
    apply H; [reflexivity | repeat split; discriminate].
  - destruct (findValue_three_passes
                [("Net Amount", VStr "480.00"); (" TOTAL ", VStr "500.00")]
                ["Total"; "Amount"] Hown) as (H & _).
    apply (H (VStr "500.00")).
    exists SameKeyAnyCase, [], "Total", ["Amount"].
    split; [reflexivity |]. split.
    + apply (yields_anyCase _ _ _ " TOTAL ").
      * exists ["Net Amount"], []. repeat split. repeat constructor.
      * discriminate.
      * reflexivity.
      * repeat split; discriminate.
    + split; [intros key' v' [] |].
      intros tier' key' v' [<- | []] [<- | [<- | []]]; apply Hnot; reflexivity.
  - destruct (findValue_three_passes
                [("Net Amount", VStr "480.00"); ("Sub Total", VStr "")]
                ["Total"; "Amount"] Hown) as (H & _).
    apply (H (VStr "480.00")).
    exists KeyContainsName, ["Total"], "Amount", [].
    split; [reflexivity |]. split.
    + apply (yields_contains _ _ _ "Net Amount").
      * exists [], ["Sub Total"]. repeat split. constructor.
      * discriminate.
      * reflexivity.
      * repeat split; discriminate.
    + split.
      * intros key' v' [<- | []]. apply Hnot. reflexivity.
      * intros tier' key' v' [<- | [<- | []]] [<- | [<- | []]]; apply Hnot; reflexivity.
Defined.

(** C6 (as stated) fails.  A record with the keys "Net Amount" and
    "Total" whose "Total" cell is empty resolves to the "Net Amount"
    value: an empty value is no hit.  And a later pass tries one record
    key per candidate: when the first key that contains the candidate
    has an empty value, a further key that contains it is not looked
    at. *)
Lemma empty_Total_is_passed_over :
  findValue [("Net Amount", VStr "480.00"); ("Total", VStr "")]
            ["Total"; "Amount"] = VStr "480.00"
  /\ findValue [("Net Amount", VStr ""); ("Amount Due", VStr "480.00")]
               ["Amount"] = VUndefined
  /\ ~ (forall row : record,
          In "Net Amount" (Object_keys row) -> In "Total" (Object_keys row) ->
          findValue row ["Total"; "Amount"] = getProp row "Total").
Proof.
  split; [reflexivity |]. split; [reflexivity |].
  intro H.
  specialize (H [("Net Amount", VStr "480.00"); ("Total", VStr "")]).
  cbn in H. discriminate H; auto.
Qed.

(** ** Header location *)

(** The truthiness guard of the cell test changes nothing: the text of a
    falsy cell contains no keyword. *)
Lemma isCustomerCell_text (cell : value) :
  isCustomerCell cell
  = existsb (fun k => includes (toLowerCase (String_of cell)) k) customerKeywords.
Proof.
  unfold isCustomerCell.
  destruct cell as [| | [|] | [s | s | | s m e] | [| c s]]; reflexivity.
Qed.

Lemma isHeaderRow_spec (row : list value) :
  isHeaderRow row = true <->
  exists cell keyword,
    In cell row /\ In keyword customerKeywords
    /\ includes (toLowerCase (String_of cell)) keyword = true.
Proof.
  unfold isHeaderRow. rewrite existsb_exists. split.
  - intros (cell & Hin & Hc). rewrite isCustomerCell_text in Hc.
    apply existsb_exists in Hc. destruct Hc as (k & Hk & Hi).
    exists cell, k. auto.
  - intros (cell & k & Hin & Hk & Hi). exists cell. split; [exact Hin |].
    rewrite isCustomerCell_text. apply existsb_exists. exists k. auto.
Qed.

Lemma scanHeader_None (limit i : nat) (rows : list (list value)) :
  scanHeader limit i rows = None <->
  Forall (fun r => isHeaderRow r = false) (firstn limit rows).
Proof.
  revert i rows. induction limit as [| limit IH]; intros i rows.
  - cbn. split; [constructor | reflexivity].
  - destruct rows as [| row rest]; cbn [scanHeader firstn].
    + split; [constructor | reflexivity].
    + destruct (isHeaderRow row) eqn:Hr.
      * split; [discriminate |]. intro H. inversion H; congruence.
      * rewrite IH. split.
        -- intro H. constructor; assumption.
        -- intro H. inversion H; assumption.
Qed.

Lemma scanHeader_Some (limit i j : nat) (rows : list (list value)) :
  scanHeader limit i rows = Some j <->
  exists before row after,
    rows = (before ++ row :: after)%list
    /\ j = (i + List.length before)%nat
    /\ (List.length before < limit)%nat
    /\ Forall (fun r => isHeaderRow r = false) before
    /\ isHeaderRow row = true.
Proof.
  revert i rows. induction limit as [| limit IH]; intros i rows.
  - cbn. split; [discriminate |]. intros (b & r & a & _ & _ & H & _). lia.
  - destruct rows as [| row rest]; cbn [scanHeader].
    + split; [discriminate |].
      intros (b & r & a & H & _). destruct b; discriminate.
    + destruct (isHeaderRow row) eqn:Hr.
      * split.
        -- intro H. injection H as <-. exists [], row, rest.
           cbn. repeat split; auto; lia.
        -- intros ([| r0 b] & r & a & Heq & Hj & Hlt & Hb & Hh); cbn in Heq, Hj.
           ++ f_equal. lia.
           ++ injection Heq as -> ->. inversion Hb; congruence.
      * rewrite IH. split.
        -- intros (b & r & a & -> & Hj & Hlt & Hb & Hh).
           exists (row :: b), r, a. cbn. repeat split; auto; try lia.
        -- intros ([| r0 b] & r & a & Heq & Hj & Hlt & Hb & Hh); cbn in Heq, Hj, Hlt.
           ++ injection Heq as -> ->. congruence.
           ++ injection Heq as -> ->. inversion Hb; subst.
              exists b, r, a. repeat split; auto; lia.
Qed.

(** C7 (as amended). The header locator looks at the first 50 rows at
    most and returns the lowest index of a row in which the lower-cased
    text of some cell contains one of the keywords; a header that first
    appears in row 12 is located; a grid that is not empty and has no
    such row among its first 50 fails with [HeaderNotFound]; a located
    header below which the sheet reader returns no record fails with
    [EmptyData]; both failures are thrown errors that carry no data.
    An empty grid fails before the scan, with "File appears empty". *)
Theorem header_location :
  forall (Date_parse : string -> option Z)
         (sheet_to_json : list (list value) -> nat -> list record)
         (now : Z) (rawRows : list (list value)),
    (forall row, isHeaderRow row = true <->
                 exists cell keyword,
                   In cell row /\ In keyword customerKeywords
                   /\ includes (toLowerCase (String_of cell)) keyword = true)
    /\ (forall i, findHeaderRow rawRows = Some i <->
                  exists before row after,
                    rawRows = (before ++ row :: after)%list
                    /\ i = List.length before
                    /\ (i < 50)%nat
                    /\ Forall (fun r => isHeaderRow r = false) before
                    /\ isHeaderRow row = true)
    /\ (findHeaderRow rawRows = None <->
        Forall (fun r => isHeaderRow r = false) (firstn 50 rawRows))
    /\ (forall titles header rest,
           List.length titles = 12%nat ->
           Forall (fun r => isHeaderRow r = false) titles ->
           isHeaderRow header = true ->
           findHeaderRow (titles ++ header :: rest)%list = Some 12%nat)
    /\ (rawRows <> [] ->
        findHeaderRow rawRows = None ->
        processFile Date_parse sheet_to_json now rawRows = Thrown HeaderNotFound)
    /\ (forall i,
           findHeaderRow rawRows = Some i ->
           sheet_to_json rawRows i = [] ->
           processFile Date_parse sheet_to_json now rawRows = Thrown EmptyData)
    /\ (rawRows = [] ->
        processFile Date_parse sheet_to_json now rawRows = Thrown FileAppearsEmpty).
Proof.
  intros DP SJ now rawRows.
  split; [| split; [| split; [| split; [| split; [| split]]]]].
  - apply isHeaderRow_spec.
  - intro i. unfold findHeaderRow. rewrite scanHeader_Some. split.
    + intros (b & r & a & H1 & H2 & H3 & H4 & H5). exists b, r, a.
      cbn in H2. subst i. auto.
    + intros (b & r & a & H1 & H2 & H3 & H4 & H5). exists b, r, a.
      subst i. auto.
  - apply scanHeader_None.
  - intros titles header rest Hlen Ht Hh. unfold findHeaderRow.
    apply scanHeader_Some. exists titles, header, rest.
    rewrite Hlen. repeat split; auto. lia.
  - intros Hne Hnone. unfold processFile. rewrite Hnone.
    destruct rawRows; [congruence | reflexivity].
  - intros i Hi Hempty. unfold processFile. rewrite Hi, Hempty.
    destruct rawRows; [discriminate Hi | reflexivity].
  - intros ->. reflexivity.
Qed.

Lemma header_location_witness :
  findHeaderRow
    (repeat [VStr "Quarterly report"; VStr ""] 12
     ++ [VStr "Trx Date"; VStr "Customer Name"; VStr "Total"]
     :: [[VStr "05/01/2024"; VStr "ACME"; VStr "500.00"]])%list = Some 12%nat
  /\ processFile Date_parse_canonical recordsBelow 0 [[VStr "Ledger"]; [VNum (ofZ 7)]]
     = Thrown HeaderNotFound
  /\ processFile Date_parse_canonical recordsBelow 0
       [[VStr "Ledger"]; [VStr "Customer"; VStr "Total"]; []]
     = Thrown EmptyData
  /\ processFile Date_parse_canonical recordsBelow 0 [] = Thrown FileAppearsEmpty.
Proof.
  split; [| split; [| split]].
  - destruct (header_location Date_parse_canonical recordsBelow 0 [])
      as (_ & _ & _ & H & _).
    apply H.
    + reflexivity.
    + repeat constructor.
    + reflexivity.
  - destruct (header_location Date_parse_canonical recordsBelow 0
                [[VStr "Ledger"]; [VNum (ofZ 7)]])
      as (_ & _ & _ & _ & H & _).
    apply H.
    + discriminate.
    + reflexivity.
  - destruct (header_location Date_parse_canonical recordsBelow 0
                [[VStr "Ledger"]; [VStr "Customer"; VStr "Total"]; []])
      as (_ & _ & _ & _ & _ & H & _).
    apply (H 1%nat).
    + reflexivity.
    + reflexivity.
  - destruct (header_location Date_parse_canonical recordsBelow 0 [])
      as (_ & _ & _ & _ & _ & _ & H).
    apply H. reflexivity.
Defined.

(** C7 (as stated) fails on the empty grid: no row of it contains a
    keyword, and the upload fails with "File appears empty", not with
    [HeaderNotFound]. *)
Lemma empty_grid_is_not_HeaderNotFound :
  findHeaderRow [] = None
  /\ processFile Date_parse_canonical recordsBelow 0 [] = Thrown FileAppearsEmpty
  /\ ~ (forall rawRows : list (list value),
          Forall (fun r => isHeaderRow r = false) (firstn 50 rawRows) ->
          processFile Date_parse_canonical recordsBelow 0 rawRows
          = Thrown HeaderNotFound).
Proof.
  split; [reflexivity |]. split; [reflexivity |].
  intro H. specialize (H [] (Forall_nil _)). discriminate H.
Qed.

(** ** Every computed number is a binary64 number

    Rounding returns a mantissa and an exponent in the canonical range
    of the format; in particular whatever [parseFloat] returns is a
    binary64 number. *)

Lemma digits2_size (p : positive) : digits2_pos p = Pos.size p.
Proof. induction p; cbn; congruence. Qed.

Lemma Zdigits2_log2 (p : positive) : Zdigits2 (Z.pos p) = Z.log2 (Z.pos p) + 1.
Proof.
  cbn [Zdigits2]. rewrite digits2_size.
  destruct p; cbn [Z.log2 Pos.size]; lia.
Qed.

Lemma Zdigits2_bounds (m : Z) :
  0 < m -> 2 ^ (Zdigits2 m - 1) <= m < 2 ^ Zdigits2 m.
Proof.
  intro H. destruct m as [| p | p]; try lia.
  rewrite Zdigits2_log2.
  replace (Z.log2 (Z.pos p) + 1 - 1) with (Z.log2 (Z.pos p)) by lia.
  pose proof (Z.log2_spec (Z.pos p) H). lia.
Qed.

Lemma Zdigits2_unique (m d : Z) :
  0 < m -> 2 ^ (d - 1) <= m < 2 ^ d -> Zdigits2 m = d.
Proof.
  intros H Hd. destruct m as [| p | p]; try lia.
  rewrite Zdigits2_log2.
  assert (0 < d).
  { destruct (Z.le_gt_cases d 0) as [Hle | Hgt]; [| exact Hgt].
    assert (Hp : 2 ^ d <= 2 ^ 0) by (apply Z.pow_le_mono_r; lia).
    rewrite Z.pow_0_r in Hp. lia. }
  rewrite (Z.log2_unique (Z.pos p) (d - 1)); [lia | lia |].
  replace (Z.succ (d - 1)) with d by lia. exact Hd.
Qed.

Lemma Zdigits2_nonneg (m : Z) : 0 <= Zdigits2 m.
Proof. destruct m; cbn; lia. Qed.

Lemma Zdigits2_div2 (m : Z) : 0 <= m -> Zdigits2 (Z.div2 m) = Z.max 0 (Zdigits2 m - 1).
Proof.
  intro H. destruct m as [| p | p]; try lia; [reflexivity |].
  destruct p; cbn [Z.div2 Pos.div2 Zdigits2 digits2_pos]; lia.
Qed.

Lemma shr_1_m (mrs : shr_record) :
  0 <= shr_m mrs -> shr_m (shr_1 mrs) = Z.div2 (shr_m mrs).
Proof.
  destruct mrs as [m r s]. cbn [shr_m]. intro H.
  destruct m as [| p | p]; try lia; [reflexivity |].
  destruct p; reflexivity.
Qed.

Lemma iter_pos_nat {A : Type} (f : A -> A) (p : positive) (x : A) :
  iter_pos f p x = Nat.iter (Pos.to_nat p) f x.
Proof.
  revert x. induction p as [p IH | p IH |]; intro x; cbn [iter_pos].
  - rewrite !IH. rewrite Pos2Nat.inj_xI.
    rewrite <- Nat.iter_add. rewrite <- Nat.iter_succ_r.
    replace (S (Pos.to_nat p + Pos.to_nat p)) with (S (2 * Pos.to_nat p)) by lia.
    reflexivity.
  - rewrite !IH. rewrite Pos2Nat.inj_xO. rewrite <- Nat.iter_add.
    replace (Pos.to_nat p + Pos.to_nat p)%nat with (2 * Pos.to_nat p)%nat by lia.
    reflexivity.
  - reflexivity.
Qed.

Lemma iter_shr_digits (n : nat) (mrs : shr_record) :
  0 <= shr_m mrs ->
  0 <= shr_m (Nat.iter n shr_1 mrs)
  /\ Zdigits2 (shr_m (Nat.iter n shr_1 mrs)) = Z.max 0 (Zdigits2 (shr_m mrs) - Z.of_nat n).
Proof.
  intro H. induction n as [| n [IH1 IH2]].
  - change (Nat.iter 0 shr_1 mrs) with mrs.
    pose proof (Zdigits2_nonneg (shr_m mrs)). split; [exact H | lia].
  - rewrite Nat.iter_succ, shr_1_m by exact IH1. split.
    + apply Z.div2_nonneg. exact IH1.
    + rewrite Zdigits2_div2 by exact IH1. rewrite IH2. lia.
Qed.

(** The head of the rounding function *)
Lemma shr_fexp_spec (m e : Z) (l : location) :
  0 <= m ->
  let '(mrs, e') := shr_fexp prec emax m e l in
  0 <= shr_m mrs
  /\ ((fexp prec emax (Zdigits2 m + e) <= e /\ shr_m mrs = m /\ e' = e)
      \/ (e < fexp prec emax (Zdigits2 m + e)
          /\ e' = fexp prec emax (Zdigits2 m + e)
          /\ Zdigits2 (shr_m mrs) = Z.max 0 (Zdigits2 m - (e' - e)))).
Proof.
  intro Hm. unfold shr_fexp, shr.
  destruct (fexp prec emax (Zdigits2 m + e) - e) as [| n | n] eqn:En.
  - split; [destruct l as [| []]; exact Hm |]. left.
    repeat split; [lia | destruct l as [| []]; reflexivity].
  - rewrite iter_pos_nat.
    assert (H0 : 0 <= shr_m (shr_record_of_loc m l)) by (destruct l as [| []]; exact Hm).
    destruct (iter_shr_digits (Pos.to_nat n) _ H0) as [H1 H2].
    split; [exact H1 |]. right.
    repeat split; [lia | lia |].
    rewrite H2. replace (shr_m (shr_record_of_loc m l)) with m by (destruct l as [| []]; reflexivity).
    rewrite positive_nat_Z. lia.
  - split; [destruct l as [| []]; exact Hm |]. left.
    repeat split; [lia | destruct l as [| []]; reflexivity].
Qed.

Lemma round_nearest_even_step (m : Z) (l : location) :
  round_nearest_even m l = m \/ round_nearest_even m l = m + 1.
Proof.
  destruct l as [| []]; cbn [round_nearest_even]; auto.
  destruct (Z.even m); auto.
Qed.

Lemma Zdigits2_succ (m : Z) :
  0 <= m -> Zdigits2 m <= Zdigits2 (m + 1) <= Zdigits2 m + 1.
Proof.
  intro H. destruct (Z.eq_dec m 0) as [-> | Hne]; [cbn; lia |].
  assert (Hpos : 0 < m) by lia.
  pose proof (Zdigits2_bounds m Hpos) as Hb.
  pose proof (Zdigits2_bounds (m + 1) ltac:(lia)) as Hb1.
  pose proof (Zdigits2_nonneg m). pose proof (Zdigits2_nonneg (m + 1)).
  split.
  - destruct (Z.le_gt_cases (Zdigits2 m) (Zdigits2 (m + 1))) as [|Hgt]; [assumption |].
    assert (2 ^ Zdigits2 (m + 1) <= 2 ^ (Zdigits2 m - 1)) by (apply Z.pow_le_mono_r; lia).
    lia.
  - destruct (Z.le_gt_cases (Zdigits2 (m + 1)) (Zdigits2 m + 1)) as [|Hgt]; [assumption |].
    assert (2 ^ (Zdigits2 m + 1) <= 2 ^ (Zdigits2 (m + 1) - 1)) by (apply Z.pow_le_mono_r; lia).
    rewrite Z.pow_add_r in * by lia. lia.
Qed.

Lemma Zdigits2_zero_iff (m : Z) :
  0 <= m -> (m = 0 -> Zdigits2 m = 0) /\ (0 < m -> 1 <= Zdigits2 m).
Proof.
  intro H. split.
  - intros ->. reflexivity.
  - intro Hp. destruct m as [| p | p]; try lia. cbn [Zdigits2]. lia.
Qed.

Lemma binary_round_aux_valid (sx : bool) (mx ex : Z) (lx : location) :
  0 <= mx ->
  ex <= fexp prec emax (Zdigits2 mx + ex) ->
  valid_binary prec emax (binary_round_aux prec emax sx mx ex lx) = true.
Proof.
  intros Hm He. unfold binary_round_aux.
  pose proof (shr_fexp_spec mx ex lx Hm) as S1.
  destruct (shr_fexp prec emax mx ex lx) as [mrs' e'].
  destruct S1 as [Hm1 S1].
  set (m1 := shr_m mrs') in *.
  set (m2 := round_nearest_even m1 (loc_of_shr_record mrs')).
  assert (Hstep : m2 = m1 \/ m2 = m1 + 1) by apply round_nearest_even_step.
  assert (Hm2 : 0 <= m2) by lia.
  pose proof (shr_fexp_spec m2 e' loc_Exact Hm2) as S2.
  destruct (shr_fexp prec emax m2 e' loc_Exact) as [mrs'' e''].
  destruct S2 as [Hm3 S2].
  destruct (shr_m mrs'') as [| m | m] eqn:E3; [reflexivity | | lia].
  destruct (e'' <=? emax - prec) eqn:Hle; [| reflexivity].
  cbn [valid_binary]. unfold bounded, canonical_mantissa.
  rewrite Hle, andb_true_r. apply Z.eqb_eq.
  change (Z.pos (digits2_pos m)) with (Zdigits2 (Z.pos m)).
  pose proof (Zdigits2_zero_iff mx Hm) as [Z0x Zpx].
  pose proof (Zdigits2_zero_iff m1 Hm1) as [Z01 Zp1].
  pose proof (Zdigits2_zero_iff m2 Hm2) as [Z02 Zp2].
  pose proof (Zdigits2_zero_iff (Z.pos m) ltac:(lia)) as [_ Zp3].
  pose proof (Zdigits2_succ m1 Hm1) as Hsucc.
  assert (HD2 : Zdigits2 m1 <= Zdigits2 m2 <= Zdigits2 m1 + 1).
  { destruct Hstep as [-> | ->]; lia. }
  clearbody m2. clear Hstep Hsucc.
  unfold fexp, emin, prec, emax in *.
  destruct S1 as [(A1 & A2 & A3) | (B1 & B2 & B3)];
    destruct S2 as [(A1' & A2' & A3') | (B1' & B2' & B3')];
    try rewrite A2' in *; subst; lia.
Qed.

Lemma digits2_shift (mx d : positive) :
  digits2_pos (Pos.iter xO mx d) = (digits2_pos mx + d)%positive.
Proof.
  induction d as [| d IH] using Pos.peano_ind.
  - cbn. lia.
  - rewrite Pos.iter_succ. cbn [digits2_pos]. rewrite IH. lia.
Qed.

Lemma binary_round_valid (sx : bool) (mx : positive) (ex : Z) :
  valid_binary prec emax (binary_round prec emax sx mx ex) = true.
Proof.
  unfold binary_round, shl_align.
  destruct (fexp prec emax (Z.pos (digits2_pos mx) + ex) - ex) as [| d | d] eqn:Ed;
    apply binary_round_aux_valid; try lia.
  - cbn [Zdigits2]. lia.
  - cbn [Zdigits2]. lia.
  - cbn [Zdigits2]. rewrite digits2_shift.
    replace (Z.pos (digits2_pos mx + d) + fexp prec emax (Z.pos (digits2_pos mx) + ex))
      with (Z.pos (digits2_pos mx) + ex) by lia.
    lia.
Qed.

Lemma binary_normalize_valid (m e : Z) (szero : bool) :
  valid_binary prec emax (binary_normalize prec emax m e szero) = true.
Proof.
  destruct m; cbn [binary_normalize]; [reflexivity | |]; apply binary_round_valid.
Qed.

Lemma ofDecimal_valid (neg : bool) (m e10 : Z) :
  valid_binary prec emax (ofDecimal neg m e10) = true.
Proof.
  unfold ofDecimal. destruct m; try reflexivity.
  destruct (310 <? _); [reflexivity |].
  destruct (_ <? -324); [reflexivity |].
  unfold roundRatio. destruct (Z.div_eucl _ _) as [q r].
  apply binary_normalize_valid.
Qed.

Lemma parseFloat_valid (s : string) : valid_binary prec emax (parseFloat s) = true.
Proof.
  unfold parseFloat, readDecimalLiteral.
  destruct (readSign (trimStart s)) as [neg s'].
  destruct (startsWith s' "Infinity"); [reflexivity |].
  destruct (takeDigits s') as [ip r1].
  destruct (match r1 with String "." r => takeDigits r | _ => (EmptyString, r1) end)
    as [fp r2].
  destruct (ip ++ fp)%string; [reflexivity |].
  destruct (readExponent r2) as [ex r3]. apply ofDecimal_valid.
Qed.


(** ** Amounts in parenthesis notation *)

(** Multiplying by [-1] flips the sign and is exact. *)
Lemma shift_product (m : positive) (e : Z) :
  Z.max (Z.pos (digits2_pos m) + e - 53) (3 - 1024 - 53) = e ->
  shr_fexp prec emax (Z.pos (4503599627370496 * m)) (-52 + e) loc_Exact
  = ({| shr_m := Z.pos m; shr_r := false; shr_s := false |}, e).
Proof.
  intro Hc. unfold shr_fexp.
  assert (Hd : Zdigits2 (Z.pos (4503599627370496 * m)) = Z.pos (digits2_pos m) + 52).
  { cbn [Pos.mul Zdigits2 digits2_pos]. lia. }
  rewrite Hd.
  replace (fexp prec emax (Z.pos (digits2_pos m) + 52 + (-52 + e)) - (-52 + e))
    with 52 by (unfold fexp, emin, prec, emax; lia).
  cbn [Pos.mul shr_record_of_loc]. unfold shr.
  f_equal. lia.
Qed.

Lemma mul_minusOne_finite (s : bool) (m : positive) (e : Z) :
  bounded prec emax m e = true ->
  b64_mul minusOne (S754_finite s m e) = S754_finite (negb s) m e.
Proof.
  intro Hb. unfold bounded, canonical_mantissa in Hb.
  apply andb_true_iff in Hb. destruct Hb as [Hc He].
  apply Z.eqb_eq in Hc.
  change minusOne with (S754_finite true 4503599627370496 (-52)).
  unfold b64_mul, SFmul. cbn [xorb].
  unfold binary_round_aux.
  rewrite shift_product by exact Hc.
  cbn [shr_m loc_of_shr_record round_nearest_even].
  unfold shr_fexp. cbn [Zdigits2]. rewrite Hc, Z.sub_diag.
  cbn [shr shr_record_of_loc shr_m]. rewrite He. destruct s; reflexivity.
Qed.

Lemma removeChars_app (p : ascii -> bool) (a b : string) :
  removeChars p (a ++ b) = removeChars p a ++ removeChars p b.
Proof.
  induction a as [| c a IH]; cbn [append removeChars].
  - reflexivity.
  - destruct (p c); cbn [append]; rewrite IH; reflexivity.
Qed.

Lemma append_empty_r (s : string) : s ++ "" = s.
Proof. induction s as [| c s IH]; cbn [append]; [| rewrite IH]; reflexivity. Qed.

Lemma buildTransaction_amount (Date_parse : string -> option Z) (now : Z)
      (index : nat) (row : record) (t : Transaction) :
  buildTransaction Date_parse now index row = Some t ->
  originalAmount t
  = rowAmount (findValue row amountKeys)
              (String_of (orElse (findValue row typeKeys) (VStr "INV"))).
Proof.
  unfold buildTransaction.
  destruct (negb (truthy (findValue row customerNameKeys))
            || (trim (String_of (findValue row customerNameKeys)) =? "")%string);
    [discriminate |].
  destruct (includes (toLowerCase (cleanCustomerName (findValue row customerNameKeys)))
                     "total"); [discriminate |].
  intro H. injection H as <-. reflexivity.
Qed.

Lemma mul_minusOne (x : float64) :
  valid_binary prec emax x = true -> b64_mul minusOne x = b64_neg x.
Proof.
  destruct x as [[|] | [|] | | s m e]; cbn [valid_binary]; intro Hv; try reflexivity.
  rewrite (mul_minusOne_finite _ _ _ Hv). reflexivity.
Qed.

Lemma neg_below_zero (x : float64) :
  b64_lt (b64_neg x) zero = b64_gt x zero
  /\ b64_gt (b64_neg x) zero = b64_lt x zero.
Proof. destruct x as [[|] | [|] | | [|] m e]; split; reflexivity. Qed.

(** The amount of a text cell that contains both parentheses, whatever
    the type text. *)
Lemma rowAmount_with_parentheses (s typeString : string) :
  includes s "(" = true -> includes s ")" = true ->
  rowAmount (VStr s) typeString
  = b64_neg (parseFloat (removeChars isParenOrComma s)).
Proof.
  intros H1 H2. unfold rowAmount. rewrite H1, H2. cbn [andb].
  apply mul_minusOne, parseFloat_valid.
Qed.

(** C3 (as amended). When the amount cell of a row is text that
    contains both an opening and a closing parenthesis, the
    [originalAmount] stored for the row is the negation of the number
    read from the text with its parentheses and thousands separators
    removed, whatever the type text of the row says (the type-based
    rule has no say).  It is below zero exactly when that number is
    above zero, and above zero exactly when that number is below zero;
    the cell ["(1,250.50)"] is stored as -1250.50 under every type
    text. *)
Theorem parenthesis_amount_is_negated :
  forall (Date_parse : string -> option Z) (now : Z) (index : nat)
         (row : record) (t : Transaction) (s : string),
    buildTransaction Date_parse now index row = Some t ->
    findValue row amountKeys = VStr s ->
    includes s "(" = true ->
    includes s ")" = true ->
    originalAmount t = b64_neg (parseFloat (removeChars isParenOrComma s))
    /\ (forall typeString, rowAmount (VStr s) typeString = originalAmount t)
    /\ b64_lt (originalAmount t) zero
       = b64_gt (parseFloat (removeChars isParenOrComma s)) zero
    /\ b64_gt (originalAmount t) zero
       = b64_lt (parseFloat (removeChars isParenOrComma s)) zero
    /\ (forall typeString,
           rowAmount (VStr "(1,250.50)") typeString = parseFloat "-1250.50")
    /\ b64_lt (parseFloat "-1250.50") zero = true.
Proof.
  intros DP now index row t s Ht Hraw Hopen Hclose.
  pose proof (buildTransaction_amount _ _ _ _ _ Ht) as Hamount.
  rewrite Hraw, (rowAmount_with_parentheses _ _ Hopen Hclose) in Hamount.
  destruct (neg_below_zero (parseFloat (removeChars isParenOrComma s))) as [Hlt Hgt].
  split; [exact Hamount |]. split; [| split; [| split; [| split]]].
  - intro ts. rewrite (rowAmount_with_parentheses _ _ Hopen Hclose), Hamount. reflexivity.
  - rewrite Hamount. exact Hlt.
  - rewrite Hamount. exact Hgt.
  - intro ts. rewrite (rowAmount_with_parentheses "(1,250.50)" ts) by reflexivity.
    reflexivity.
  - reflexivity.
Qed.

Lemma parenthesis_amount_is_negated_witness :
  match buildTransaction Date_parse_canonical 1704412800000 0
          [("Customer Name", VStr "ACME"); ("Total", VStr "(1,250.50)");
           ("Trx Date", VStr "05/01/2024"); ("Type", VStr "Payment")] with
  | Some t =>
      originalAmount t = b64_neg (parseFloat "1250.50")
      /\ b64_lt (originalAmount t) zero = b64_gt (parseFloat "1250.50") zero
  | None => False
  end.
Proof.
  destruct (buildTransaction Date_parse_canonical 1704412800000 0
              [("Customer Name", VStr "ACME"); ("Total", VStr "(1,250.50)");
               ("Trx Date", VStr "05/01/2024"); ("Type", VStr "Payment")])
    as [t |] eqn:Ht.
  - destruct (parenthesis_amount_is_negated Date_parse_canonical 1704412800000 0
                [("Customer Name", VStr "ACME"); ("Total", VStr "(1,250.50)");
                 ("Trx Date", VStr "05/01/2024"); ("Type", VStr "Payment")]
                t "(1,250.50)" Ht)
      as (H1 & _ & H3 & _).
    + reflexivity.
    + reflexivity.
    + reflexivity.
    + split; [exact H1 | exact H3].
  - vm_compute in Ht. discriminate Ht.
Defined.

(** C3 (as stated) fails.  The number between the parentheses is
    negated whatever its own sign: the cell ["(-100)"] is stored as
    100, above zero; and the cell ["(0.00)"] is stored as negative
    zero, which is not below zero. *)
Lemma parenthesised_amount_not_negative :
  match buildTransaction Date_parse_canonical 1704412800000 0
          [("Customer Name", VStr "ACME"); ("Total", VStr "(-100)");
           ("Trx Date", VStr "05/01/2024")] with
  | Some t =>
      originalAmount t = parseFloat "100"
      /\ b64_gt (originalAmount t) zero = true
      /\ b64_lt (originalAmount t) zero = false
  | None => False
  end
  /\ match buildTransaction Date_parse_canonical 1704412800000 0
             [("Customer Name", VStr "ACME"); ("Total", VStr "(0.00)");
              ("Trx Date", VStr "05/01/2024")] with
     | Some t =>
         originalAmount t = S754_zero true
         /\ b64_lt (originalAmount t) zero = false
     | None => False
     end.
Proof. vm_compute. repeat split. Qed.

(** ** The stable sort *)

Section ArraySortFacts.

Context {A : Type}.
Variable after : A -> A -> bool.

Lemma insertSorted_Permutation (x : A) (l : list A) :
  Permutation (x :: l) (insertSorted after x l).
Proof.
  induction l as [| y l IH]; cbn [insertSorted].
  - apply Permutation_refl.
  - destruct (after x y).
    + apply perm_trans with (y :: x :: l); [apply perm_swap |].
      apply perm_skip, IH.
    + apply Permutation_refl.
Qed.

Lemma Array_sort_Permutation (l : list A) : Permutation l (Array_sort after l).
Proof.
  induction l as [| x l IH]; cbn [Array_sort fold_right].
  - apply perm_nil.
  - apply perm_trans with (x :: Array_sort after l).
    + apply perm_skip, IH.
    + apply insertSorted_Permutation.
Qed.

(** Elements that are never ordered one after the other keep their
    relative order. *)
Lemma insertSorted_filter (p : A -> bool) (x : A) (l : list A) :
  (forall a b, p a = true -> p b = true -> after a b = false) ->
  filter p (insertSorted after x l) = filter p (x :: l).
Proof.
  intro Hp. induction l as [| y l IH]; cbn [insertSorted].
  - reflexivity.
  - destruct (after x y) eqn:Hxy; [| reflexivity].
    change (filter p (y :: insertSorted after x l))
      with (if p y then y :: filter p (insertSorted after x l)
            else filter p (insertSorted after x l)).
    rewrite IH. cbn [filter].
    destruct (p x) eqn:Hx, (p y) eqn:Hy; try reflexivity.
    rewrite (Hp x y Hx Hy) in Hxy. discriminate.
Qed.

Lemma Array_sort_stable (p : A -> bool) (l : list A) :
  (forall a b, p a = true -> p b = true -> after a b = false) ->
  filter p (Array_sort after l) = filter p l.
Proof.
  intro Hp. induction l as [| x l IH]; cbn [Array_sort fold_right].
  - reflexivity.
  - change (fold_right (insertSorted after) [] l) with (Array_sort after l).
    rewrite (insertSorted_filter p x _ Hp). cbn [filter]. rewrite IH. reflexivity.
Qed.

End ArraySortFacts.

Lemma Array_sort_ext {A : Type} (after1 after2 : A -> A -> bool) (l : list A) :
  (forall a b, after1 a b = after2 a b) ->
  Array_sort after1 l = Array_sort after2 l.
Proof.
  intro H. induction l as [| x l IH]; cbn [Array_sort fold_right]; [reflexivity |].
  change (fold_right (insertSorted after1) [] l) with (Array_sort after1 l).
  change (fold_right (insertSorted after2) [] l) with (Array_sort after2 l).
  rewrite IH. generalize (Array_sort after2 l) as s. intro s.
  induction s as [| y s IHs]; cbn [insertSorted]; [reflexivity |].
  rewrite H, IHs. reflexivity.
Qed.

(** Sorting commutes with a projection that the comparator factors
    through. *)
Lemma Array_sort_map {A B : Type} (f : A -> B)
      (afterA : A -> A -> bool) (afterB : B -> B -> bool) (l : list A) :
  (forall a b, afterA a b = afterB (f a) (f b)) ->
  map f (Array_sort afterA l) = Array_sort afterB (map f l).
Proof.
  intro H. induction l as [| x l IH]; cbn [Array_sort fold_right map]; [reflexivity |].
  change (fold_right (insertSorted afterA) [] l) with (Array_sort afterA l).
  change (fold_right (insertSorted afterB) [] (map f l)) with (Array_sort afterB (map f l)).
  rewrite <- IH. generalize (Array_sort afterA l) as s. intro s.
  induction s as [| y s IHs]; cbn [insertSorted map]; [reflexivity |].
  rewrite H. destruct (afterB (f x) (f y)); cbn [map]; [rewrite IHs |]; reflexivity.
Qed.

Section ByKeyFacts.

Context {A : Type}.
Variable key : A -> option Z.

Lemma hasKey_not_after (t : Z) (a b : A) :
  hasKey key t a = true -> hasKey key t b = true -> afterByKey key a b = false.
Proof.
  unfold hasKey, afterByKey, positiveDifference.
  destruct (key a) as [x |]; [| discriminate].
  destruct (key b) as [y |]; [| discriminate].
  intros Hx Hy. apply Z.eqb_eq in Hx, Hy. subst. apply Z.ltb_ge. lia.
Qed.

Lemma keyLe_trans (a b c : A) : keyLe key a b -> keyLe key b c -> keyLe key a c.
Proof.
  intros (x & y & Hx & Hy & Hxy) (y' & z & Hy' & Hz & Hyz).
  exists x, z. repeat split; auto.
  rewrite Hy in Hy'. injection Hy' as <-. lia.
Qed.

Lemma insertSorted_sorted (x : A) (l : list A) :
  key x <> None ->
  Forall (fun a => key a <> None) l ->
  StronglySorted (keyLe key) l ->
  StronglySorted (keyLe key) (insertSorted (afterByKey key) x l).
Proof.
  intros Hx Hl Hs. induction l as [| y l IH]; cbn [insertSorted].
  - constructor; constructor.
  - inversion Hl as [| ? ? Hy Hl']; subst.
    inversion Hs as [| ? ? Hs' Hall]; subst.
    destruct (key x) as [kx |] eqn:Ex; [| congruence].
    destruct (key y) as [ky |] eqn:Ey; [| congruence].
    unfold afterByKey, positiveDifference. rewrite Ex, Ey.
    destruct (0 <? kx - ky) eqn:Hcmp.
    + apply Z.ltb_lt in Hcmp. constructor.
      * apply IH; assumption.
      * assert (Hyx : keyLe key y x) by (exists ky, kx; repeat split; auto; lia).
        apply Forall_forall. intros z Hz.
        apply (Permutation_in _ (Permutation_sym (insertSorted_Permutation (afterByKey key) x l))) in Hz.
        destruct Hz as [<- | Hz]; [exact Hyx |].
        rewrite Forall_forall in Hall. apply Hall, Hz.
    + apply Z.ltb_ge in Hcmp.
      assert (Hxy : keyLe key x y) by (exists kx, ky; repeat split; auto; lia).
      constructor; [exact Hs |].
      constructor; [exact Hxy |].
      apply Forall_forall. intros z Hz. rewrite Forall_forall in Hall.
      apply keyLe_trans with y; [exact Hxy | apply Hall, Hz].
Qed.

Lemma Array_sort_sorted (l : list A) :
  Forall (fun a => key a <> None) l ->
  StronglySorted (keyLe key) (Array_sort (afterByKey key) l).
Proof.
  induction l as [| x l IH]; intro Hl; cbn [Array_sort fold_right].
  - constructor.
  - inversion Hl as [| ? ? Hx Hl']; subst.
    change (fold_right (insertSorted (afterByKey key)) [] l)
      with (Array_sort (afterByKey key) l).
    apply insertSorted_sorted.
    + exact Hx.
    + apply Forall_forall. intros a Ha. rewrite Forall_forall in Hl'.
      apply Hl'. apply (Permutation_in _ (Permutation_sym (Array_sort_Permutation (afterByKey key) l))).
      exact Ha.
    + apply IH, Hl'.
Qed.

(** Two sorted lists with the same elements and pairwise distinct keys
    are the same list. *)
Lemma sorted_distinct_unique (l1 l2 : list A) :
  StronglySorted (keyLe key) l1 ->
  StronglySorted (keyLe key) l2 ->
  Permutation l1 l2 ->
  NoDup (map key l1) ->
  l1 = l2.
Proof.
  revert l2. induction l1 as [| a l1 IH]; intros l2 H1 H2 Hp Hnd.
  - apply Permutation_nil in Hp. congruence.
  - destruct l2 as [| b l2].
    { apply Permutation_sym, Permutation_nil in Hp. discriminate. }
    inversion H1 as [| ? ? H1' Ha]; subst.
    inversion H2 as [| ? ? H2' Hb]; subst.
    inversion Hnd as [| ? ? Hnotin Hnd']; subst.
    assert (Hab : a = b).
    { assert (Hin_a : In a (b :: l2)) by (apply (Permutation_in _ Hp); left; reflexivity).
      assert (Hin_b : In b (a :: l1))
        by (apply (Permutation_in _ (Permutation_sym Hp)); left; reflexivity).
      destruct Hin_a as [E | Hin_a]; [congruence |].
      destruct Hin_b as [E | Hin_b]; [congruence |].
      rewrite Forall_forall in Ha, Hb.
      destruct (Ha b Hin_b) as (x & y & Ex & Ey & Hxy).
      destruct (Hb a Hin_a) as (y' & x' & Ey' & Ex' & Hyx).
      rewrite Ex in Ex'. injection Ex' as <-.
      rewrite Ey in Ey'. injection Ey' as <-.
      assert (x = y) by lia. subst y.
      exfalso. apply Hnotin. rewrite Ex, <- Ey. apply in_map, Hin_b. }
    subst b. f_equal. apply IH; auto.
    apply Permutation_cons_inv with a. exact Hp.
Qed.

Lemma Array_sort_unique (l1 l2 : list A) :
  Permutation l1 l2 ->
  Forall (fun a => key a <> None) l1 ->
  NoDup (map key l1) ->
  Array_sort (afterByKey key) l1 = Array_sort (afterByKey key) l2.
Proof.
  intros Hp Hv Hnd.
  assert (Hv2 : Forall (fun a => key a <> None) l2).
  { apply Forall_forall. intros a Ha. rewrite Forall_forall in Hv.
    apply Hv. apply (Permutation_in _ (Permutation_sym Hp)), Ha. }
  apply sorted_distinct_unique.
  - apply Array_sort_sorted, Hv.
  - apply Array_sort_sorted, Hv2.
  - apply perm_trans with l1; [apply Permutation_sym, Array_sort_Permutation |].
    apply perm_trans with l2; [exact Hp | apply Array_sort_Permutation].
  - apply (Permutation_NoDup (l := map key l1)); [| exact Hnd].
    apply Permutation_map, Array_sort_Permutation.
Qed.

End ByKeyFacts.

Lemma filter_Permutation {A : Type} (p : A -> bool) (l1 l2 : list A) :
  Permutation l1 l2 -> Permutation (filter p l1) (filter p l2).
Proof.
  induction 1 as [| x l1 l2 _ IH | x y l | l1 l2 l3 _ IH1 _ IH2]; cbn [filter].
  - apply perm_nil.
  - destruct (p x); [apply perm_skip |]; exact IH.
  - destruct (p x), (p y); try apply Permutation_refl. apply perm_swap.
  - apply perm_trans with (filter p l2); assumption.
Qed.

(** ** The merge stage *)

Lemma inStatement_spec (selectedCustomer : string) (config : StatementConfig)
      (t : Transaction) :
  inStatement selectedCustomer config t = true <->
  customerName t = selectedCustomer
  /\ (startDate config <=? trxDate t)%string = true
  /\ (trxDate t <=? endDate config)%string = true.
Proof.
  unfold inStatement, forCustomer.
  rewrite !andb_true_iff, String.eqb_eq. tauto.
Qed.

(** The date and the rendering amount of an entry: all that the sort
    and the running balance look at. *)
Lemma toInvoice_date_amount (r1 r2 : option Transaction) (l : list Transaction) :
  map (fun e => (trxDate (entry e), calculatedAmount e)) (map (toInvoice r1) l)
  = map (fun e => (trxDate (entry e), calculatedAmount e)) (map (toInvoice r2) l).
Proof. rewrite !map_map. reflexivity. Qed.

Lemma tableBody_balances_of_amounts (l1 l2 : list LedgerEntry) (b : float64) :
  map calculatedAmount l1 = map calculatedAmount l2 ->
  map rowBalance (fst (tableBody b l1)) = map rowBalance (fst (tableBody b l2))
  /\ snd (tableBody b l1) = snd (tableBody b l2).
Proof.
  intro H. rewrite !tableBody_balances, !tableBody_final.
  assert (Hlen : List.length l1 = List.length l2).
  { rewrite <- (length_map calculatedAmount l1), H. apply length_map. }
  rewrite Hlen, H. split; [| reflexivity].
  apply map_ext. intro n.
  rewrite <- !firstn_map, H. reflexivity.
Qed.

Section MergeFacts.

Variable Date_parse : string -> option Z.

Lemma sortsAfter_byKey (a b : LedgerEntry) :
  sortsAfter Date_parse a b = afterByKey (getTime Date_parse) a b.
Proof.
  unfold sortsAfter, compareFn, afterByKey, positiveDifference.
  destruct (getTime Date_parse a), (getTime Date_parse b); reflexivity.
Qed.

Lemma sortByDate_byKey (l : list LedgerEntry) :
  sortByDate Date_parse l = Array_sort (afterByKey (getTime Date_parse)) l.
Proof. apply Array_sort_ext, sortsAfter_byKey. Qed.

Lemma sortByDate_Permutation (l : list LedgerEntry) :
  Permutation l (sortByDate Date_parse l).
Proof. apply Array_sort_Permutation. Qed.

Lemma sortByDate_stable (t : Z) (l : list LedgerEntry) :
  filter (hasKey (getTime Date_parse) t) (sortByDate Date_parse l)
  = filter (hasKey (getTime Date_parse) t) l.
Proof.
  rewrite sortByDate_byKey. apply Array_sort_stable.
  intros a b. apply hasKey_not_after.
Qed.

Lemma sortByDate_sorted (l : list LedgerEntry) :
  Forall (fun e => getTime Date_parse e <> None) l ->
  StronglySorted (keyLe (getTime Date_parse)) (sortByDate Date_parse l).
Proof. rewrite sortByDate_byKey. apply Array_sort_sorted. Qed.

Lemma allTrxs_In (fileTransactions manualTransactions : list Transaction)
      (selectedCustomer : string) (config : StatementConfig) (e : LedgerEntry) :
  In e (allTrxs Date_parse fileTransactions manualTransactions selectedCustomer config)
  <->
  (exists t, In t fileTransactions
             /\ inStatement selectedCustomer config t = true
             /\ e = toInvoice (refTrxOf manualTransactions selectedCustomer) t)
  \/ (exists t, In t manualTransactions
                /\ inStatement selectedCustomer config t = true
                /\ e = toPayment t).
Proof.
  unfold allTrxs, invoiceTrxs, paymentTrxs. split.
  - intro H.
    apply (Permutation_in _ (Permutation_sym (sortByDate_Permutation _))) in H.
    apply in_app_or in H. destruct H as [H | H]; apply in_map_iff in H;
      destruct H as (t & <- & Hin); apply filter_In in Hin; [left | right];
      exists t; tauto.
  - intro H. apply (Permutation_in _ (sortByDate_Permutation _)).
    apply in_or_app.
    destruct H as [(t & Hin & Hsel & ->) | (t & Hin & Hsel & ->)]; [left | right];
      apply in_map, filter_In; auto.
Qed.

Lemma dates_checked (l : list LedgerEntry) :
  forallb (fun e => match getTime Date_parse e with Some _ => true | None => false end) l
  = true ->
  Forall (fun e => getTime Date_parse e <> None) l.
Proof.
  intro H. apply Forall_forall. intros e He.
  rewrite forallb_forall in H. specialize (H e He).
  destruct (getTime Date_parse e); [discriminate | discriminate H].
Qed.

End MergeFacts.

(** ** Reordering the input collections *)

Lemma sum_Permutation (l1 l2 : list Z) :
  Permutation l1 l2 -> fold_right Z.add 0 l1 = fold_right Z.add 0 l2.
Proof.
  induction 1 as [| x l1 l2 _ IH | x y l | l1 l2 l3 _ IH1 _ IH2]; cbn [fold_right]; lia.
Qed.

(** C8 (as amended). When the two transaction collections are reordered,
    the ledger carries the same rendering amounts, possibly in another
    order.  When moreover the entries of the ledger have dates that are
    dates for the host and pairwise distinct, the rendering amounts come
    in the same order, so every row balance and the closing balance are
    identical.  When dates tie but no addition of either running
    balance rounds, the two closing balances have the same value. *)
Theorem closing_balance_under_reordering :
  forall (Date_parse : string -> option Z)
         (file1 file2 manual1 manual2 : list Transaction)
         (selectedCustomer : string) (config : StatementConfig),
    Permutation file1 file2 ->
    Permutation manual1 manual2 ->
    let ledger1 := allTrxs Date_parse file1 manual1 selectedCustomer config in
    let ledger2 := allTrxs Date_parse file2 manual2 selectedCustomer config in
    let statement1 :=
      generateStatementPDF Date_parse file1 manual1 selectedCustomer config in
    let statement2 :=
      generateStatementPDF Date_parse file2 manual2 selectedCustomer config in
    Permutation (map calculatedAmount ledger1) (map calculatedAmount ledger2)
    /\ (Forall (fun e => getTime Date_parse e <> None) ledger1 ->
        NoDup (map (getTime Date_parse) ledger1) ->
        map calculatedAmount ledger1 = map calculatedAmount ledger2
        /\ map rowBalance (body statement1) = map rowBalance (body statement2)
        /\ finalBalance statement1 = finalBalance statement2)
    /\ (exactSums (openingBalance config) (map calculatedAmount ledger1) = true ->
        exactSums (openingBalance config) (map calculatedAmount ledger2) = true ->
        scaledValue (finalBalance statement1) = scaledValue (finalBalance statement2)
        /\ scaledValue (finalBalance statement1) <> None).
Proof.
  intros DP file1 file2 manual1 manual2 cust cfg Hfile Hmanual
         ledger1 ledger2 statement1 statement2.
  set (f := fun e : LedgerEntry => (trxDate (entry e), calculatedAmount e)).
  set (keyB := fun p : string * float64 => timeClip (DP (fst p))).
  set (pre1 := (invoiceTrxs file1 manual1 cust cfg ++ paymentTrxs manual1 cust cfg)%list).
  set (pre2 := (invoiceTrxs file2 manual2 cust cfg ++ paymentTrxs manual2 cust cfg)%list).
  assert (Hpre : Permutation (map f pre1) (map f pre2)).
  { unfold pre1, pre2, invoiceTrxs, paymentTrxs. rewrite !map_app.
    apply Permutation_app.
    - unfold f. rewrite (toInvoice_date_amount _ (refTrxOf manual2 cust)).
      apply Permutation_map, Permutation_map, filter_Permutation, Hfile.
    - apply Permutation_map, Permutation_map, filter_Permutation, Hmanual. }
  assert (Hl1 : Permutation pre1 ledger1) by apply sortByDate_Permutation.
  assert (Hl2 : Permutation pre2 ledger2) by apply sortByDate_Permutation.
  assert (Hamt : forall l, map calculatedAmount l = map snd (map f l)).
  { intro l. rewrite map_map. reflexivity. }
  assert (Hperm : Permutation (map calculatedAmount ledger1)
                              (map calculatedAmount ledger2)).
  { rewrite !Hamt. apply Permutation_map.
    apply perm_trans with (map f pre1);
      [apply Permutation_map, Permutation_sym, Hl1 |].
    apply perm_trans with (map f pre2); [exact Hpre |].
    apply Permutation_map, Hl2. }
  split; [exact Hperm |]. split.
  2: { intros He1 He2. unfold statement1, statement2.
       rewrite !generateStatementPDF_final, !tableBody_final.
       fold ledger1 ledger2.
       rewrite (exactSums_value _ _ He1), (exactSums_value _ _ He2).
       split; [| discriminate].
       f_equal. f_equal. apply sum_Permutation, Permutation_map, Hperm. }
  - intros Hvalid Hdistinct.
    assert (Hsort : forall l, map f (sortByDate DP l)
                              = Array_sort (afterByKey keyB) (map f l)).
    { intro l. rewrite sortByDate_byKey. apply Array_sort_map. reflexivity. }
    assert (Heq : map f ledger1 = map f ledger2).
    { unfold ledger1, ledger2, allTrxs. fold pre1 pre2. rewrite !Hsort.
      apply Array_sort_unique; [exact Hpre | |].
      - apply Forall_forall. intros p Hp. apply in_map_iff in Hp.
        destruct Hp as (e & <- & He). rewrite Forall_forall in Hvalid.
        apply (Hvalid e). apply (Permutation_in _ Hl1), He.
      - rewrite map_map.
        apply (Permutation_NoDup (l := map (getTime DP) ledger1)); [| exact Hdistinct].
        apply Permutation_map, Permutation_sym, Hl1. }
    assert (Hsame : map calculatedAmount ledger1 = map calculatedAmount ledger2).
    { rewrite !Hamt, Heq. reflexivity. }
    split; [exact Hsame |].
    unfold statement1, statement2.
    rewrite !generateStatementPDF_body, !generateStatementPDF_final.
    apply tableBody_balances_of_amounts, Hsame.
Qed.

Lemma closing_balance_under_reordering_witness :
  finalBalance
    (generateStatementPDF Date_parse_canonical
       (buildTransactions Date_parse_canonical 1706745600000 0
          [[("Customer Name", VStr "ACME"); ("Total", VStr "0.10");
            ("Trx Date", VStr "20/01/2024")];
           [("Customer Name", VStr "ACME"); ("Total", VStr "0.20");
            ("Trx Date", VStr "05/01/2024")];
           [("Customer Name", VStr "ACME"); ("Total", VStr "0.30");
            ("Trx Date", VStr "12/01/2024")]])
       [] "ACME"
       {| operatingUnit := "FMCG"; startDate := "2024-01-01";
          endDate := "2024-01-31"; openingBalance := zero; logoUrl := None |})
  = finalBalance
      (generateStatementPDF Date_parse_canonical
         (rev (buildTransactions Date_parse_canonical 1706745600000 0
          [[("Customer Name", VStr "ACME"); ("Total", VStr "0.10");
            ("Trx Date", VStr "20/01/2024")];
           [("Customer Name", VStr "ACME"); ("Total", VStr "0.20");
            ("Trx Date", VStr "05/01/2024")];
           [("Customer Name", VStr "ACME"); ("Total", VStr "0.30");
            ("Trx Date", VStr "12/01/2024")]]))
         [] "ACME"
       {| operatingUnit := "FMCG"; startDate := "2024-01-01";
          endDate := "2024-01-31"; openingBalance := zero; logoUrl := None |})
  /\ scaledValue
       (finalBalance
          (generateStatementPDF Date_parse_canonical
             (buildTransactions Date_parse_canonical 1706745600000 0
          [[("Customer Name", VStr "ACME"); ("Total", VStr "100");
            ("Trx Date", VStr "05/01/2024")];
           [("Customer Name", VStr "ACME"); ("Total", VStr "250.50");
            ("Trx Date", VStr "05/01/2024")];
           [("Customer Name", VStr "ACME"); ("Total", VStr "75.25");
            ("Trx Date", VStr "05/01/2024")]])
             [] "ACME"
       {| operatingUnit := "FMCG"; startDate := "2024-01-01";
          endDate := "2024-01-31"; openingBalance := zero; logoUrl := None |}))
     = scaledValue
         (finalBalance
            (generateStatementPDF Date_parse_canonical
               (rev (buildTransactions Date_parse_canonical 1706745600000 0
          [[("Customer Name", VStr "ACME"); ("Total", VStr "100");
            ("Trx Date", VStr "05/01/2024")];
           [("Customer Name", VStr "ACME"); ("Total", VStr "250.50");
            ("Trx Date", VStr "05/01/2024")];
           [("Customer Name", VStr "ACME"); ("Total", VStr "75.25");
            ("Trx Date", VStr "05/01/2024")]]))
               [] "ACME"
       {| operatingUnit := "FMCG"; startDate := "2024-01-01";
          endDate := "2024-01-31"; openingBalance := zero; logoUrl := None |})).
Proof.
  split.
  - apply (closing_balance_under_reordering Date_parse_canonical).
    + apply Permutation_rev.
    + apply perm_nil.
    + apply dates_checked. vm_compute. reflexivity.
    + vm_compute. repeat constructor; cbn; intuition discriminate.
  - apply (closing_balance_under_reordering Date_parse_canonical).
    + apply Permutation_rev.
    + apply perm_nil.
    + vm_compute. reflexivity.
    + vm_compute. reflexivity.
Defined.

(** C8 (as stated) fails when dates tie: three invoices of 0.10, 0.20
    and 0.30 on the same day add up to 0.6000000000000001 in that order
    and to 0.6 in the reverse order. *)
Lemma closing_balance_depends_on_order :
  Permutation sameDayInvoices (rev sameDayInvoices)
  /\ finalBalance (generateStatementPDF Date_parse_canonical
                     sameDayInvoices [] "ACME" januaryConfig)
     = parseFloat "0.6000000000000001"
  /\ finalBalance (generateStatementPDF Date_parse_canonical
                     (rev sameDayInvoices) [] "ACME" januaryConfig)
     = parseFloat "0.6"
  /\ ~ (forall (file1 file2 manual : list Transaction)
               (selectedCustomer : string) (config : StatementConfig),
          Permutation file1 file2 ->
          finalBalance (generateStatementPDF Date_parse_canonical
                          file1 manual selectedCustomer config)
          = finalBalance (generateStatementPDF Date_parse_canonical
                            file2 manual selectedCustomer config)).
Proof.
  split; [apply Permutation_rev |].
  split; [vm_compute; reflexivity |].
  split; [vm_compute; reflexivity |].
  intro H.
  specialize (H sameDayInvoices (rev sameDayInvoices) [] "ACME" januaryConfig
                (Permutation_rev _)).
  vm_compute in H. discriminate H.
Qed.

(** * Further properties *)

(** ** Customer names are stored in normal form *)

Lemma space_is_white : isWhiteSpace " " = true.
Proof. reflexivity. Qed.

Lemma collapseRuns_head (p : ascii -> bool) (c : ascii) (s : string) :
  p c = false ->
  collapseRuns p (String c s) = String c (collapseRuns p s).
Proof. intro H. cbn [collapseRuns]. rewrite H. reflexivity. Qed.

Lemma collapseRuns_spaced (s : string) :
  spaced true (collapseRuns isWhiteSpace s) = true.
Proof.
  induction s as [| c s IH]; [reflexivity |].
  cbn [collapseRuns].
  destruct (isWhiteSpace c) eqn:Hc.
  - destruct s as [| c' s']; [reflexivity |].
    destruct (isWhiteSpace c') eqn:Hc'; [exact IH |].
    rewrite (collapseRuns_head _ _ _ Hc') in IH |- *.
    cbn [spaced] in IH |- *. rewrite Hc' in IH |- *.
    rewrite space_is_white. cbn [negb andb] in IH |- *.
    rewrite Ascii.eqb_refl. exact IH.
  - cbn [spaced]. rewrite Hc. exact IH.
Qed.

Lemma spaced_trimStart (b : bool) (s : string) :
  spaced b s = true -> spaced b (trimStart s) = true.
Proof.
  induction s as [| c s IH]; [reflexivity |].
  cbn [trimStart]. destruct (isWhiteSpace c) eqn:Hc; [| tauto].
  cbn [spaced]. rewrite Hc. intro H.
  apply andb_true_iff in H. apply IH, H.
Qed.

Lemma trimStart_head (s : string) :
  match trimStart s with
  | String c _ => isWhiteSpace c = false
  | EmptyString => True
  end.
Proof.
  induction s as [| c s IH]; [exact I |].
  cbn [trimStart]. destruct (isWhiteSpace c) eqn:Hc; [exact IH | exact Hc].
Qed.

Lemma trimEnd_head (c : ascii) (s : string) :
  isWhiteSpace c = false ->
  exists t, trimEnd (String c s) = String c t.
Proof.
  intro Hc. cbn [trimEnd]. rewrite Hc.
  destruct (trimEnd s) as [| d t]; eauto.
Qed.

Lemma spaced_trimEnd (s : string) :
  spaced true s = true -> spaced false (trimEnd s) = true.
Proof.
  induction s as [| c s IH]; [reflexivity |].
  cbn [spaced]. intro H. apply andb_true_iff in H. destruct H as [Hc Hs].
  specialize (IH Hs). cbn [trimEnd].
  destruct (trimEnd s) as [| d t] eqn:Ht.
  - destruct (isWhiteSpace c) eqn:Hw; [reflexivity |].
    cbn [spaced]. rewrite Hw. reflexivity.
  - cbn [spaced] in IH |- *. rewrite IH, andb_true_r.
    destruct (isWhiteSpace c); [| reflexivity].
    apply andb_true_iff in Hc. destruct Hc as [Hsp Hnext].
    rewrite Hsp. cbn [andb].
    destruct s as [| c' s']; [discriminate Ht |].
    apply negb_true_iff in Hnext.
    destruct (trimEnd_head c' s' Hnext) as [t' Ht'].
    rewrite Ht' in Ht. injection Ht as <- _. rewrite Hnext. reflexivity.
Qed.

Lemma trim_normal (s : string) :
  spaced true s = true -> isNormalName (trim s) = true.
Proof.
  intro H. unfold isNormalName, trim.
  rewrite (spaced_trimEnd _ (spaced_trimStart _ _ H)), andb_true_r.
  pose proof (trimStart_head s) as Hh.
  destruct (trimStart s) as [| c r]; [reflexivity |].
  destruct (trimEnd_head c r Hh) as [t ->]. rewrite Hh. reflexivity.
Qed.

(** A name in normal form is left alone by each step of the cleaning. *)
Lemma spaced_no_lineBreak (b : bool) (s : string) :
  spaced b s = true -> collapseRuns isLineBreak s = s.
Proof.
  induction s as [| c s IH]; [reflexivity |].
  cbn [spaced]. intro H. apply andb_true_iff in H. destruct H as [Hc Hs].
  assert (Hl : isLineBreak c = false).
  { destruct (isLineBreak c) eqn:Hl; [| reflexivity].
    rewrite (lineBreak_is_white _ Hl) in Hc.
    apply andb_true_iff in Hc. destruct Hc as [Hc _].
    apply Ascii.eqb_eq in Hc. subst c. discriminate Hl. }
  rewrite (collapseRuns_head _ _ _ Hl), (IH Hs). reflexivity.
Qed.

Lemma spaced_collapse (s : string) :
  spaced true s = true -> collapseRuns isWhiteSpace s = s.
Proof.
  induction s as [| c s IH]; [reflexivity |].
  cbn [spaced]. intro H. apply andb_true_iff in H. destruct H as [Hc Hs].
  specialize (IH Hs). cbn [collapseRuns].
  destruct (isWhiteSpace c) eqn:Hw.
  - apply andb_true_iff in Hc. destruct Hc as [Hsp Hnext].
    apply Ascii.eqb_eq in Hsp. subst c.
    destruct s as [| c' s']; [reflexivity |].
    apply negb_true_iff in Hnext. rewrite Hnext, IH. reflexivity.
  - rewrite IH. reflexivity.
Qed.

Lemma spaced_weaken (s : string) : spaced false s = true -> spaced true s = true.
Proof.
  induction s as [| c s IH]; [reflexivity |].
  cbn [spaced]. intro H. apply andb_true_iff in H. destruct H as [Hc Hs].
  rewrite (IH Hs), andb_true_r.
  destruct (isWhiteSpace c); [| reflexivity].
  apply andb_true_iff in Hc. destruct Hc as [-> Hn]. cbn [andb].
  destruct s; [discriminate Hn | exact Hn].
Qed.

Lemma spaced_false_trimEnd (s : string) : spaced false s = true -> trimEnd s = s.
Proof.
  induction s as [| c s IH]; [reflexivity |].
  cbn [spaced]. intro H. apply andb_true_iff in H. destruct H as [Hc Hs].
  cbn [trimEnd]. rewrite (IH Hs).
  destruct s as [| c' s']; [| reflexivity].
  destruct (isWhiteSpace c); [| reflexivity].
  apply andb_true_iff in Hc. destruct Hc as [_ Hc]. discriminate Hc.
Qed.

Lemma normal_trim (s : string) : isNormalName s = true -> trim s = s.
Proof.
  unfold isNormalName, trim. intro H.
  apply andb_true_iff in H. destruct H as [Hh Hs].
  destruct s as [| c r]; [reflexivity |].
  apply negb_true_iff in Hh. cbn [trimStart]. rewrite Hh.
  apply spaced_false_trimEnd, Hs.
Qed.

Lemma normal_fixed (s : string) :
  isNormalName s = true ->
  trim (collapseRuns isWhiteSpace (collapseRuns isLineBreak s)) = s.
Proof.
  intro H. pose proof H as H'. unfold isNormalName in H'.
  apply andb_true_iff in H'. destruct H' as [_ Hs].
  rewrite (spaced_no_lineBreak _ _ Hs), (spaced_collapse _ (spaced_weaken _ Hs)).
  apply normal_trim, H.
Qed.

Lemma cleanCustomerName_normal (name : value) :
  isNormalName (cleanCustomerName name) = true.
Proof.
  unfold cleanCustomerName. destruct (truthy name); [| reflexivity].
  apply trim_normal, collapseRuns_spaced.
Qed.

(** X1. Whatever the raw cell holds, the cleaned customer name is in
    normal form: it has no line break or tab, it neither starts nor ends
    with white space, and its words are separated by single spaces.
    Cleaning a name that is already in normal form changes nothing, so
    cleaning twice is the same as cleaning once, except that a raw name
    made of white space only is cleaned to the empty string, and the
    empty string to ["Unknown"]. *)
Theorem cleanCustomerName_normal_form :
  forall name : value,
    isNormalName (cleanCustomerName name) = true
    /\ (forall s, isNormalName s = true -> s <> "" ->
                  cleanCustomerName (VStr s) = s)
    /\ (cleanCustomerName name <> "" ->
        cleanCustomerName (VStr (cleanCustomerName name)) = cleanCustomerName name)
    /\ (forall s, allWhite s = true -> s <> "" ->
                  cleanCustomerName (VStr s) = ""
                  /\ cleanCustomerName (VStr (cleanCustomerName (VStr s))) = "Unknown").
Proof.
  intro name.
  assert (Hfix : forall s, isNormalName s = true -> s <> "" ->
                           cleanCustomerName (VStr s) = s).
  { intros s Hs Hne. unfold cleanCustomerName. cbn [truthy String_of].
    destruct s as [| c r]; [congruence |]. cbn [String.eqb negb].
    apply normal_fixed, Hs. }
  split; [apply cleanCustomerName_normal |].
  split; [exact Hfix |].
  split.
  - intro Hne. apply Hfix; [apply cleanCustomerName_normal | exact Hne].
  - intros s Hw Hne.
    assert (H1 : cleanCustomerName (VStr s) = "").
    { unfold cleanCustomerName. cbn [truthy String_of].
      destruct s as [| c r]; [congruence |]. cbn [String.eqb negb].
      apply trim_empty.
      rewrite allWhite_collapseRuns by auto.
      rewrite allWhite_collapseRuns by apply lineBreak_is_white.
      exact Hw. }
    split; [exact H1 |]. rewrite H1. reflexivity.
Qed.
Lemma cleanCustomerName_normal_form_witness :
  cleanCustomerName (VStr "ACME Trading Co") = "ACME Trading Co".
Proof.
  destruct (cleanCustomerName_normal_form (VStr "ACME Trading Co")) as (_ & H & _).
  apply H; [reflexivity | discriminate].
Defined.

(** ** Field resolution never invents a value *)

Lemma getProp_In (row : record) (key : string) :
  getProp row key = VUndefined \/ In (key, getProp row key) row.
Proof.
  induction row as [| [k v] row IH]; cbn [getProp]; [left; reflexivity |].
  destruct (k =? key)%string eqn:Hk.
  - apply String.eqb_eq in Hk. subst k. right. left. reflexivity.
  - destruct IH as [IH | IH]; [left; exact IH | right; right; exact IH].
Qed.

Lemma tierHit_stored (tier : MatchTier) (row : record) (key : string) (v : value) :
  tierHit tier row key = Some v -> exists k, In (k, v) row.
Proof.
  assert (Hat : forall found, hitAt row found = Some v -> exists k, In (k, v) row).
  { intros [k |]; cbn [hitAt]; [| discriminate].
    destruct (negb (k =? "")%string && hasValue (getProp row k)) eqn:H; [| discriminate].
    intro E. injection E as <-.
    apply andb_true_iff in H. destruct H as [_ H].
    destruct (getProp_In row k) as [Hu | Hin]; [| eauto].
    rewrite Hu in H. discriminate H. }
  destruct tier; cbn [tierHit]; [| apply Hat | apply Hat].
  unfold exactHit. destruct (hasValue (getProp row key)) eqn:H; [| discriminate].
  intro E. injection E as <-.
  destruct (getProp_In row key) as [Hu | Hin]; [| eauto].
  rewrite Hu in H. discriminate H.
Qed.

Lemma getProp_blank (row : record) (key : string) :
  Forall (fun kv => hasValue (snd kv) = false) row ->
  hasValue (getProp row key) = false.
Proof.
  induction 1 as [| [k v] row Hv _ IH]; cbn [getProp]; [reflexivity |].
  destruct (k =? key)%string; [exact Hv | exact IH].
Qed.

Lemma tierHit_blank (tier : MatchTier) (row : record) (key : string) :
  Forall (fun kv => hasValue (snd kv) = false) row ->
  tierHit tier row key = None.
Proof.
  intro Hb.
  assert (Hat : forall found, hitAt row found = None).
  { intros [k |]; cbn [hitAt]; [| reflexivity].
    rewrite (getProp_blank row k Hb), andb_false_r. reflexivity. }
  destruct tier; cbn [tierHit]; [| apply Hat | apply Hat].
  unfold exactHit. rewrite (getProp_blank row key Hb). reflexivity.
Qed.

(** X2. [findValue] never invents a value: for candidates that are
    column names - not names of members that every object inherits,
    such as "constructor", which the first pass would find on any row -
    what it returns is either [undefined] or a value that the row
    stores under one of its keys.  On a row whose cells are all blank
    ([undefined], [null] or the empty string), in particular on a row
    without keys, it returns [undefined]. *)
Theorem findValue_returns_stored_value :
  forall (row : record) (possibleKeys : list string),
    Forall (fun key => inherited key = false) possibleKeys ->
    (findValue row possibleKeys = VUndefined
     \/ exists k, In (k, findValue row possibleKeys) row)
    /\ (Forall (fun kv => hasValue (snd kv) = false) row ->
        findValue row possibleKeys = VUndefined)
    /\ findValue [] possibleKeys = VUndefined.
Proof.
  intros row keys _.
  assert (Hblank : forall r ks, Forall (fun kv => hasValue (snd kv) = false) r ->
                                findValue r ks = VUndefined).
  { intros r ks Hb.
    destruct (findValue_resolves r ks) as [[H _] | H]; [exact H |].
    destruct H as (tier & _ & key & _ & _ & Hhit & _).
    rewrite (tierHit_blank tier r key Hb) in Hhit. discriminate Hhit. }
  split; [| split].
  - destruct (findValue_resolves row keys) as [[H _] | H]; [left; exact H | right].
    destruct H as (tier & _ & key & _ & _ & Hhit & _).
    exact (tierHit_stored _ _ _ _ Hhit).
  - apply Hblank.
  - apply Hblank. constructor.
Qed.

Lemma findValue_returns_stored_value_witness :
  findValue [("Customer Name", VStr ""); ("Total", VNull); ("Trx Date", VUndefined)]
            amountKeys = VUndefined
  /\ exists k,
       In (k, findValue [("Customer Name", VStr "ACME"); ("Net Amount", VStr "480.00")]
                        amountKeys)
          [("Customer Name", VStr "ACME"); ("Net Amount", VStr "480.00")].
Proof.
  assert (Hown : Forall (fun key => inherited key = false) amountKeys).
  { pose proof processFile_keys_are_column_names as H.
    apply Forall_app in H. destruct H as [_ H].
    apply Forall_app in H. destruct H as [H _]. exact H. }
  split.
  - destruct (findValue_returns_stored_value
                [("Customer Name", VStr ""); ("Total", VNull); ("Trx Date", VUndefined)]
                amountKeys Hown) as (_ & H & _).
    apply H. repeat constructor.
  - destruct (findValue_returns_stored_value
                [("Customer Name", VStr "ACME"); ("Net Amount", VStr "480.00")]
                amountKeys Hown) as ([H | H] & _).
    + vm_compute in H. discriminate H.
    + exact H.
Defined.

(** ** Amounts that are not numbers *)

Lemma isNaN_neg (x : float64) : isNaN (b64_neg x) = isNaN x.
Proof. destruct x; reflexivity. Qed.

Lemma isNaN_abs (x : float64) : isNaN (Math_abs x) = isNaN x.
Proof. destruct x; reflexivity. Qed.

Lemma isNaN_mul_minusOne (x : float64) :
  valid_binary prec emax x = true -> isNaN (b64_mul minusOne x) = isNaN x.
Proof.
  destruct x as [s | s | | s m e]; cbn [valid_binary]; intro Hv; try reflexivity.
  rewrite (mul_minusOne_finite _ _ _ Hv). reflexivity.
Qed.

Lemma rowAmount_plain (rawVal : value) (typeString : string) :
  parenthesised rawVal = false ->
  rowAmount rawVal typeString
  = let amount := parseFloat (removeChars isComma (String_of (orElse rawVal (VStr "0")))) in
    let amount := if isNaN amount then zero else amount in
    if isPaymentType typeString && b64_gt amount zero then b64_neg amount else amount.
Proof.
  unfold rowAmount, parenthesised. destruct rawVal as [| | b | n | s]; try reflexivity.
  intros ->. reflexivity.
Qed.

Lemma rowAmount_in_parentheses (rawVal : value) (typeString : string) :
  parenthesised rawVal = true ->
  exists s, rawVal = VStr s
            /\ rowAmount rawVal typeString
               = b64_mul minusOne (parseFloat (removeChars isParenOrComma s)).
Proof.
  unfold rowAmount, parenthesised. destruct rawVal as [| | b | n | s]; try discriminate.
  intros ->. exists s. split; reflexivity.
Qed.

Lemma positive_neg_not_positive (x : float64) :
  b64_gt x zero = true -> b64_gt (b64_neg x) zero = false.
Proof. destruct x as [s | [|] | | [|] m e]; try discriminate; reflexivity. Qed.

Lemma rowAmount_plain_number (rawVal : value) (typeString : string) :
  parenthesised rawVal = false -> isNaN (rowAmount rawVal typeString) = false.
Proof.
  intro Hp. rewrite (rowAmount_plain _ _ Hp). cbv zeta.
  set (a := parseFloat _).
  assert (Hn : isNaN (if isNaN a then zero else a) = false).
  { destruct (isNaN a) eqn:Ha; [reflexivity | exact Ha]. }
  destruct (isPaymentType typeString && b64_gt (if isNaN a then zero else a) zero).
  - rewrite isNaN_neg. exact Hn.
  - exact Hn.
Qed.

Lemma rowAmount_plain_payment (rawVal : value) (typeString : string) :
  parenthesised rawVal = false -> isPaymentType typeString = true ->
  b64_gt (rowAmount rawVal typeString) zero = false.
Proof.
  intros Hp Ht. rewrite (rowAmount_plain _ _ Hp). cbv zeta.
  set (a := if isNaN _ then zero else _).
  rewrite Ht. cbn [andb].
  destruct (b64_gt a zero) eqn:Hg; [apply positive_neg_not_positive, Hg | exact Hg].
Qed.

Lemma buildTransaction_type (Date_parse : string -> option Z) (now : Z)
      (index : nat) (row : record) (t : Transaction) :
  buildTransaction Date_parse now index row = Some t ->
  trxType t
  = if isPaymentType (String_of (orElse (findValue row typeKeys) (VStr "INV")))
    then Payment else INV.
Proof.
  unfold buildTransaction.
  destruct (negb (truthy (findValue row customerNameKeys))
            || (trim (String_of (findValue row customerNameKeys)) =? "")%string);
    [discriminate |].
  destruct (includes (toLowerCase (cleanCustomerName (findValue row customerNameKeys)))
                     "total"); [discriminate |].
  intro H. injection H as <-. reflexivity.
Qed.

(** X3. The amount stored for a file row is [NaN] in one case only: the
    amount cell is text that contains both an opening and a closing
    parenthesis and whose content, parentheses and commas removed, does
    not start with a number.  Every other cell that cannot be read as a
    number (missing, blank, or any other text) is stored as the number
    it reads as, or as 0. *)
Theorem file_amount_is_NaN_only_in_parentheses :
  forall (Date_parse : string -> option Z) (now : Z) (index : nat)
         (row : record) (t : Transaction),
    buildTransaction Date_parse now index row = Some t ->
    (isNaN (originalAmount t) = true <->
     exists s, findValue row amountKeys = VStr s
               /\ includes s "(" = true /\ includes s ")" = true
               /\ isNaN (parseFloat (removeChars isParenOrComma s)) = true).
Proof.
  intros DP now index row t Ht.
  rewrite (buildTransaction_amount _ _ _ _ _ Ht).
  set (ts := String_of _). set (rawVal := findValue row amountKeys).
  destruct (parenthesised rawVal) eqn:Hp.
  - destruct (rowAmount_in_parentheses rawVal ts Hp) as (s & Hs & ->).
    rewrite isNaN_mul_minusOne by apply parseFloat_valid.
    rewrite Hs in Hp. cbn [parenthesised] in Hp.
    apply andb_true_iff in Hp. destruct Hp as [H1 H2].
    split.
    + intro H. exists s. auto.
    + intros (s' & Hs' & _ & _ & H). rewrite Hs in Hs'. injection Hs' as <-. exact H.
  - rewrite (rowAmount_plain_number rawVal ts Hp). split; [discriminate |].
    intros (s & Hs & H1 & H2 & _). rewrite Hs in Hp. cbn [parenthesised] in Hp.
    rewrite H1, H2 in Hp. discriminate Hp.
Qed.

Lemma file_amount_is_NaN_only_in_parentheses_witness :
  match buildTransaction Date_parse_canonical 1704412800000 0
          [("Customer Name", VStr "ACME"); ("Total", VStr "(see note)");
           ("Trx Date", VStr "05/01/2024")] with
  | Some t => isNaN (originalAmount t) = true
  | None => False
  end.
Proof.
  destruct (buildTransaction Date_parse_canonical 1704412800000 0
              [("Customer Name", VStr "ACME"); ("Total", VStr "(see note)");
               ("Trx Date", VStr "05/01/2024")]) as [t |] eqn:Ht.
  - apply (file_amount_is_NaN_only_in_parentheses _ _ _ _ _ Ht).
    exists "(see note)". repeat split.
  - vm_compute in Ht. discriminate Ht.
Defined.

(** X4. A file row whose type text contains "payment" (in any letter
    case) is tagged [Payment], and unless its amount cell is written
    with parentheses its stored amount is never positive; any other row
    is tagged [INV]. *)
Theorem payment_rows_are_not_positive :
  forall (Date_parse : string -> option Z) (now : Z) (index : nat)
         (row : record) (t : Transaction),
    buildTransaction Date_parse now index row = Some t ->
    let typeString := String_of (orElse (findValue row typeKeys) (VStr "INV")) in
    (includes (toLowerCase typeString) "payment" = true ->
     trxType t = Payment
     /\ (parenthesised (findValue row amountKeys) = false ->
         b64_gt (originalAmount t) zero = false))
    /\ (includes (toLowerCase typeString) "payment" = false -> trxType t = INV).
Proof.
  intros DP now index row t Ht typeString.
  pose proof (buildTransaction_type _ _ _ _ _ Ht) as Hty.
  pose proof (buildTransaction_amount _ _ _ _ _ Ht) as Ham.
  fold typeString in Hty, Ham. unfold isPaymentType in Hty.
  split.
  - intro Hp. rewrite Hp in Hty. split; [exact Hty |].
    intro Hpar. rewrite Ham. apply rowAmount_plain_payment; assumption.
  - intro Hp. rewrite Hp in Hty. exact Hty.
Qed.

Lemma payment_rows_are_not_positive_witness :
  match buildTransaction Date_parse_canonical 1704412800000 0
          [("Customer Name", VStr "ACME"); ("Total", VStr "1,200.00");
           ("Trx Date", VStr "05/01/2024"); ("Type", VStr "Customer PAYMENT")] with
  | Some t => trxType t = Payment /\ b64_gt (originalAmount t) zero = false
  | None => False
  end.
Proof.
  destruct (buildTransaction Date_parse_canonical 1704412800000 0
              [("Customer Name", VStr "ACME"); ("Total", VStr "1,200.00");
               ("Trx Date", VStr "05/01/2024"); ("Type", VStr "Customer PAYMENT")])
    as [t |] eqn:Ht.
  - destruct (payment_rows_are_not_positive _ _ _ _ _ Ht) as [H _].
    destruct (H eq_refl) as [H1 H2]. split; [exact H1 | apply H2; reflexivity].
  - vm_compute in Ht. discriminate Ht.
Defined.

(** ** A balance that is not a number stays so *)

Lemma b64_add_NaN_l (y : float64) : b64_add S754_nan y = S754_nan.
Proof. reflexivity. Qed.

Lemma b64_add_NaN (x y : float64) :
  isNaN x = true \/ isNaN y = true -> isNaN (b64_add x y) = true.
Proof.
  destruct x as [sx | sx | | sx mx ex]; destruct y as [sy | sy | | sy my ey];
    intros [H | H]; try discriminate H; reflexivity.
Qed.

Lemma fold_add_NaN (l : list float64) (b : float64) :
  isNaN b = true -> isNaN (fold_left b64_add l b) = true.
Proof.
  revert b. induction l as [| a l IH]; intros b Hb; cbn [fold_left]; [exact Hb |].
  apply IH, b64_add_NaN. left. exact Hb.
Qed.

Lemma fold_add_NaN_amount (l : list float64) (b : float64) :
  Exists (fun a => isNaN a = true) l -> isNaN (fold_left b64_add l b) = true.
Proof.
  intro H. revert b. induction H as [a l Ha | a l _ IH]; intro b; cbn [fold_left].
  - apply fold_add_NaN, b64_add_NaN. right. exact Ha.
  - apply IH.
Qed.

Lemma tableBody_NaN_rows (l : list LedgerEntry) (b : float64) :
  isNaN b = true ->
  Forall (fun r => isNaN (rowBalance r) = true) (fst (tableBody b l)).
Proof.
  revert b. induction l as [| t rest IH]; intros b Hb.
  - constructor.
  - rewrite tableBody_cons. cbn [fst].
    assert (H : isNaN (b64_add b (calculatedAmount t)) = true)
      by (apply b64_add_NaN; left; exact Hb).
    constructor; [exact H | apply IH, H].
Qed.

Lemma tableBody_app (l1 l2 : list LedgerEntry) (b : float64) :
  fst (tableBody b (l1 ++ l2))
  = (fst (tableBody b l1) ++ fst (tableBody (snd (tableBody b l1)) l2))%list.
Proof.
  revert b. induction l1 as [| t rest IH]; intro b.
  - reflexivity.
  - cbn [app]. rewrite !tableBody_cons. cbn [fst app]. f_equal.
    rewrite IH. f_equal. f_equal.
    rewrite !tableBody_final. reflexivity.
Qed.

Lemma ledger_amount_NaN (refTrx : option Transaction) (t : Transaction) :
  isNaN (calculatedAmount (toInvoice refTrx t)) = isNaN (originalAmount t)
  /\ isNaN (calculatedAmount (toPayment t)) = isNaN (originalAmount t).
Proof.
  cbn [toInvoice toPayment calculatedAmount].
  rewrite isNaN_neg, isNaN_abs. split; reflexivity.
Qed.

(** X5. A balance that is not a number never recovers.  If the amount
    of a ledger entry is [NaN], the balance shown on its row and on
    every later row is [NaN], and so is the closing balance.  Hence, if
    any transaction selected for the statement - an invoice of the file
    or a manual payment - carries a [NaN] amount, the total balance due
    of the statement is [NaN]. *)
Theorem NaN_amount_spoils_the_balance :
  forall (Date_parse : string -> option Z)
         (fileTransactions manualTransactions : list Transaction)
         (selectedCustomer : string) (config : StatementConfig),
    (forall (before after : list LedgerEntry) (e : LedgerEntry) (b : float64),
        isNaN (calculatedAmount e) = true ->
        Forall (fun r => isNaN (rowBalance r) = true)
               (skipn (List.length before) (fst (tableBody b (before ++ e :: after))))
        /\ isNaN (snd (tableBody b (before ++ e :: after))) = true)
    /\ (forall t,
           (In t fileTransactions \/ In t manualTransactions) ->
           inStatement selectedCustomer config t = true ->
           isNaN (originalAmount t) = true ->
           isNaN (finalBalance (generateStatementPDF Date_parse fileTransactions
                                  manualTransactions selectedCustomer config)) = true).
Proof.
  intros DP file manual cust cfg. split.
  - intros before after e b He. split.
    + rewrite tableBody_app.
      rewrite <- (tableBody_rows before b) at 1.
      rewrite skipn_app, skipn_all, Nat.sub_diag. cbn [app skipn].
      rewrite tableBody_cons. cbn [fst].
      assert (H : isNaN (b64_add (snd (tableBody b before)) (calculatedAmount e)) = true)
        by (apply b64_add_NaN; right; exact He).
      constructor; [exact H | apply tableBody_NaN_rows, H].
    + rewrite tableBody_final. apply fold_add_NaN_amount.
      rewrite map_app. apply Exists_app. right. left. exact He.
  - intros t Hin Hsel Hnan.
    rewrite generateStatementPDF_final, tableBody_final.
    apply fold_add_NaN_amount. apply Exists_exists.
    destruct Hin as [Hin | Hin].
    + exists (calculatedAmount (toInvoice (refTrxOf manual cust) t)). split.
      * apply in_map. apply (allTrxs_In DP). left. exists t. auto.
      * rewrite (proj1 (ledger_amount_NaN _ t)). exact Hnan.
    + exists (calculatedAmount (toPayment t)). split.
      * apply in_map. apply (allTrxs_In DP). right. exists t. auto.
      * rewrite (proj2 (ledger_amount_NaN None t)). exact Hnan.
Qed.
Lemma NaN_amount_spoils_the_balance_witness :
  isNaN (finalBalance (generateStatementPDF Date_parse_canonical remarkFile []
                         "ACME" januaryConfig)) = true.
Proof.
  destruct (NaN_amount_spoils_the_balance Date_parse_canonical remarkFile []
              "ACME" januaryConfig) as [_ H].
  apply (H (nth 1 remarkFile (mkTransaction (ManualId 0) "" "" VNull VNull INV zero
                                            "" None None))).
  - left. vm_compute. right. left. reflexivity.
  - reflexivity.
  - reflexivity.
Defined.

(** ** The order of strings *)

Lemma string_compare_refl (s : string) : (s ?= s)%string = Eq.
Proof.
  induction s as [| c s IH]; [reflexivity |].
  cbn [String.compare]. unfold Ascii.compare. rewrite N.compare_refl. exact IH.
Qed.

Lemma string_compare_Lt_trans (a b c : string) :
  (a ?= b)%string = Lt -> (b ?= c)%string = Lt -> (a ?= c)%string = Lt.
Proof.
  revert b c. induction a as [| x a IH]; intros [| y b] [| z c];
    cbn [String.compare]; try discriminate; try reflexivity.
  unfold Ascii.compare.
  destruct (N.compare_spec (N_of_ascii x) (N_of_ascii y)) as [Hxy | Hxy | Hxy];
    destruct (N.compare_spec (N_of_ascii y) (N_of_ascii z)) as [Hyz | Hyz | Hyz];
    try discriminate; intros H1 H2.
  - rewrite Hxy, Hyz, N.compare_refl. exact (IH _ _ H1 H2).
  - assert (H : (N_of_ascii x ?= N_of_ascii z)%N = Lt) by (apply N.compare_lt_iff; lia).
    rewrite H. reflexivity.
  - assert (H : (N_of_ascii x ?= N_of_ascii z)%N = Lt) by (apply N.compare_lt_iff; lia).
    rewrite H. reflexivity.
  - assert (H : (N_of_ascii x ?= N_of_ascii z)%N = Lt) by (apply N.compare_lt_iff; lia).
    rewrite H. reflexivity.
Qed.

Lemma string_ltb_leb (a b : string) : (a <? b)%string = negb (b <=? a)%string.
Proof.
  unfold String.ltb, String.leb. rewrite (String.compare_antisym a b).
  destruct (b ?= a)%string; reflexivity.
Qed.

Lemma string_leb_cases (a b : string) :
  (a <=? b)%string = true <-> (a ?= b)%string = Lt \/ a = b.
Proof.
  unfold String.leb. split.
  - destruct (a ?= b)%string eqn:H; [| auto | discriminate].
    right. apply String.compare_eq_iff, H.
  - intros [-> | ->]; [reflexivity |]. rewrite string_compare_refl. reflexivity.
Qed.

Lemma string_leb_trans (a b c : string) :
  (a <=? b)%string = true -> (b <=? c)%string = true -> (a <=? c)%string = true.
Proof.
  rewrite !string_leb_cases. intros [H1 | ->] [H2 | ->]; auto.
  left. exact (string_compare_Lt_trans _ _ _ H1 H2).
Qed.

Lemma string_ltb_irrefl (a : string) : (a <? a)%string = false.
Proof. unfold String.ltb. rewrite string_compare_refl. reflexivity. Qed.

Lemma string_ltb_trans (a b c : string) :
  (a <? b)%string = true -> (b <? c)%string = true -> (a <? c)%string = true.
Proof.
  unfold String.ltb.
  destruct (a ?= b)%string eqn:H1; try discriminate.
  destruct (b ?= c)%string eqn:H2; try discriminate.
  rewrite (string_compare_Lt_trans _ _ _ H1 H2). reflexivity.
Qed.

(** ** A statement without transactions *)

Lemma filter_nil_iff {A : Type} (p : A -> bool) (l : list A) :
  (forall x, In x l -> p x = false) -> filter p l = [].
Proof.
  induction l as [| x l IH]; intro H; [reflexivity |].
  cbn [filter]. rewrite (H x (or_introl eq_refl)). apply IH.
  intros y Hy. apply H. right. exact Hy.
Qed.

Lemma allTrxs_nothing_selected (Date_parse : string -> option Z)
      (file manual : list Transaction) (cust : string) (cfg : StatementConfig) :
  (forall t, In t file \/ In t manual -> inStatement cust cfg t = false) ->
  allTrxs Date_parse file manual cust cfg = [].
Proof.
  intro H. unfold allTrxs, invoiceTrxs, paymentTrxs.
  rewrite !filter_nil_iff by auto. reflexivity.
Qed.

(** X6. When no transaction of the target customer falls in the
    statement period, the statement has no rows and its total balance
    due is the opening balance.  This is the case in particular when the
    customer occurs in neither collection, and when the end date of the
    period is before its start date. *)
Theorem empty_statement :
  forall (Date_parse : string -> option Z)
         (fileTransactions manualTransactions : list Transaction)
         (selectedCustomer : string) (config : StatementConfig),
    let statement := generateStatementPDF Date_parse fileTransactions
                       manualTransactions selectedCustomer config in
    ((forall t, In t fileTransactions \/ In t manualTransactions ->
                inStatement selectedCustomer config t = false) ->
     body statement = [] /\ finalBalance statement = openingBalance config)
    /\ ((forall t, In t fileTransactions \/ In t manualTransactions ->
                   customerName t <> selectedCustomer) ->
        body statement = [] /\ finalBalance statement = openingBalance config)
    /\ ((endDate config <? startDate config)%string = true ->
        body statement = [] /\ finalBalance statement = openingBalance config).
Proof.
  intros DP file manual cust cfg statement.
  assert (H0 : (forall t, In t file \/ In t manual -> inStatement cust cfg t = false) ->
               body statement = [] /\ finalBalance statement = openingBalance cfg).
  { intro H. unfold statement.
    rewrite generateStatementPDF_body, generateStatementPDF_final.
    rewrite (allTrxs_nothing_selected DP _ _ _ _ H). split; reflexivity. }
  split; [exact H0 | split].
  - intro H. apply H0. intros t Ht. specialize (H t Ht).
    unfold inStatement, forCustomer.
    destruct (customerName t =? cust)%string eqn:E; [| reflexivity].
    apply String.eqb_eq in E. contradiction.
  - intro Hrev. apply H0. intros t _.
    destruct (inStatement cust cfg t) eqn:E; [| reflexivity].
    apply inStatement_spec in E. destruct E as (_ & H1 & H2).
    pose proof (string_leb_trans _ _ _ H1 H2) as H.
    rewrite string_ltb_leb, H in Hrev. discriminate Hrev.
Qed.

Lemma empty_statement_witness :
  let statement := generateStatementPDF Date_parse_canonical scenarioFile scenarioManual
                     "ACME"
                     {| operatingUnit := "FMCG"; startDate := "2024-02-01";
                        endDate := "2024-01-31"; openingBalance := parseFloat "1000.00";
                        logoUrl := None |} in
  body statement = [] /\ finalBalance statement = parseFloat "1000.00".
Proof.
  apply (empty_statement Date_parse_canonical scenarioFile scenarioManual "ACME"
           {| operatingUnit := "FMCG"; startDate := "2024-02-01";
              endDate := "2024-01-31"; openingBalance := parseFloat "1000.00";
              logoUrl := None |}).
  reflexivity.
Defined.

(** ** The rows of the table *)

Lemma tableBody_row_In (l : list LedgerEntry) (b : float64) (r : TableRow) :
  In r (fst (tableBody b l)) ->
  exists e balance, In e l /\ r = tableRow e balance.
Proof.
  revert b. induction l as [| t rest IH]; intros b H.
  - destruct H.
  - rewrite tableBody_cons in H. cbn [fst] in H. destruct H as [<- | H].
    + exists t, (b64_add b (calculatedAmount t)). split; [left |]; reflexivity.
    + destruct (IH _ H) as (e & bal & Hin & ->). exists e, bal. split; [right |]; auto.
Qed.

Lemma abs_not_negative (x : float64) : b64_lt (Math_abs x) zero = false.
Proof. destruct x as [s | s | | s m e]; reflexivity. Qed.

Lemma abs_neg (x : float64) : Math_abs (b64_neg x) = Math_abs x.
Proof. destruct x as [s | s | | s m e]; reflexivity. Qed.

Lemma abs_abs (x : float64) : Math_abs (Math_abs x) = Math_abs x.
Proof. destruct x as [s | s | | s m e]; reflexivity. Qed.

Lemma statement_row_origin (Date_parse : string -> option Z)
      (file manual : list Transaction) (cust : string) (cfg : StatementConfig)
      (r : TableRow) :
  In r (body (generateStatementPDF Date_parse file manual cust cfg)) ->
  exists balance,
    (exists t, In t file /\ inStatement cust cfg t = true
               /\ r = tableRow (toInvoice (refTrxOf manual cust) t) balance)
    \/ (exists t, In t manual /\ inStatement cust cfg t = true
                  /\ r = tableRow (toPayment t) balance).
Proof.
  rewrite generateStatementPDF_body. intro H.
  destruct (tableBody_row_In _ _ _ H) as (e & bal & Hin & ->).
  exists bal. apply (allTrxs_In Date_parse) in Hin.
  destruct Hin as [(t & H1 & H2 & ->) | (t & H1 & H2 & ->)]; [left | right];
    exists t; auto.
Qed.

(** X7. Every row of the statement table is typed [INVOICE] or
    [PAYMENT] - never with the type the transaction was stored under -
    and shows the magnitude of the stored amount, never a negative
    number; the minus sign is put in front exactly on the [PAYMENT]
    rows.  A row that comes from the file is an [INVOICE] row even when
    the upload tagged the transaction as a payment.  The table has one
    row for each selected file transaction and each selected manual
    transaction. *)
Theorem statement_rows :
  forall (Date_parse : string -> option Z)
         (fileTransactions manualTransactions : list Transaction)
         (selectedCustomer : string) (config : StatementConfig),
    let statement := generateStatementPDF Date_parse fileTransactions
                       manualTransactions selectedCustomer config in
    Forall (fun r =>
              (rowType r = INVOICE \/ rowType r = PAYMENT)
              /\ (rowMinusSign r = true <-> rowType r = PAYMENT)
              /\ b64_lt (rowAmountShown r) zero = false
              /\ (startDate config <=? rowDate r)%string = true
              /\ (rowDate r <=? endDate config)%string = true
              /\ ((exists t, In t fileTransactions
                             /\ inStatement selectedCustomer config t = true
                             /\ rowType r = INVOICE
                             /\ rowDate r = trxDate t /\ rowNumber r = number t
                             /\ rowAmountShown r = Math_abs (originalAmount t))
                  \/ (exists t, In t manualTransactions
                                /\ inStatement selectedCustomer config t = true
                                /\ rowType r = PAYMENT
                                /\ rowDate r = trxDate t /\ rowNumber r = number t
                                /\ rowRegion r = region t
                                /\ rowSiteLocation r = siteLocation t
                                /\ rowAmountShown r = Math_abs (originalAmount t))))
           (body statement)
    /\ List.length (body statement)
       = (List.length (filter (inStatement selectedCustomer config) fileTransactions)
          + List.length (filter (inStatement selectedCustomer config) manualTransactions))%nat.
Proof.
  intros DP file manual cust cfg statement. split.
  - apply Forall_forall. intros r Hr.
    destruct (statement_row_origin DP _ _ _ _ _ Hr)
      as (bal & [(t & H1 & H2 & ->) | (t & H1 & H2 & ->)]);
      cbn [tableRow toInvoice toPayment entry calculatedAmount rowType rowMinusSign
           rowAmountShown rowDate rowNumber rowRegion rowSiteLocation trxType trxDate
           number region siteLocation isPAYMENT];
      pose proof (proj1 (inStatement_spec _ _ _) H2) as (_ & Hs & He).
    + split; [left; reflexivity |]. split; [split; discriminate |].
      split; [apply abs_not_negative |]. split; [exact Hs |]. split; [exact He |].
      left. exists t. rewrite abs_abs. auto 10.
    + split; [right; reflexivity |]. split; [split; reflexivity |].
      split; [apply abs_not_negative |]. split; [exact Hs |]. split; [exact He |].
      right. exists t. rewrite abs_neg, abs_abs. auto 10.
  - unfold statement. rewrite generateStatementPDF_body, tableBody_rows.
    unfold allTrxs.
    rewrite <- (Permutation_length (sortByDate_Permutation DP _)).
    unfold invoiceTrxs, paymentTrxs.
    rewrite length_app, !length_map. reflexivity.
Qed.
(** ** Region and site of the invoice rows *)

Lemma hd_error_filter {A : Type} (p : A -> bool) (l : list A) :
  match hd_error (filter p l) with
  | Some x => exists before after,
                l = (before ++ x :: after)%list /\ p x = true
                /\ Forall (fun y => p y = false) before
  | None => Forall (fun y => p y = false) l
  end.
Proof.
  induction l as [| y l IH]; cbn [filter hd_error]; [constructor |].
  destruct (p y) eqn:Hy; cbn [hd_error].
  - exists [], l. repeat split; [exact Hy | constructor].
  - destruct (hd_error (filter p l)) as [x |].
    + destruct IH as (before & after & -> & Hx & Hb).
      exists (y :: before), after. repeat split; [exact Hx |].
      constructor; assumption.
    + constructor; assumption.
Qed.

(** X8. As soon as the target customer has a manual transaction, every
    invoice row of the statement shows the region and the site location
    of the first manual transaction entered for that customer - whether
    or not that transaction falls in the statement period - instead of
    the region and site read from the file.  Only when the customer has
    no manual transaction do the invoice rows show the region and site
    of their own file transaction. *)
Theorem invoice_rows_show_region_of_first_manual_entry :
  forall (Date_parse : string -> option Z)
         (fileTransactions manualTransactions : list Transaction)
         (selectedCustomer : string) (config : StatementConfig),
    let statement := generateStatementPDF Date_parse fileTransactions
                       manualTransactions selectedCustomer config in
    match refTrxOf manualTransactions selectedCustomer with
    | Some refTrx =>
        (exists before after,
            manualTransactions = (before ++ refTrx :: after)%list
            /\ customerName refTrx = selectedCustomer
            /\ Forall (fun t => customerName t <> selectedCustomer) before)
        /\ Forall (fun r => rowType r = INVOICE ->
                            rowRegion r = region refTrx
                            /\ rowSiteLocation r = siteLocation refTrx)
                  (body statement)
    | None =>
        Forall (fun t => customerName t <> selectedCustomer) manualTransactions
        /\ Forall (fun r => exists t, In t fileTransactions
                                      /\ rowType r = INVOICE
                                      /\ rowDate r = trxDate t
                                      /\ rowNumber r = number t
                                      /\ rowRegion r = region t
                                      /\ rowSiteLocation r = siteLocation t)
                  (body statement)
    end.
Proof.
  intros DP file manual cust cfg statement.
  assert (Hne : forall l, Forall (fun y => forCustomer cust y = false) l ->
                          Forall (fun t : Transaction => customerName t <> cust) l).
  { intros l H. eapply Forall_impl; [| exact H]. cbv beta. intros t Ht E.
    unfold forCustomer in Ht. rewrite E, String.eqb_refl in Ht. discriminate Ht. }
  pose proof (hd_error_filter (forCustomer cust) manual) as Href.
  unfold refTrxOf at 1.
  destruct (hd_error (filter (forCustomer cust) manual)) as [ref |] eqn:E.
  - destruct Href as (before & after & Hm & Hc & Hb). split.
    + exists before, after. split; [exact Hm |]. split; [| apply Hne, Hb].
      apply String.eqb_eq, Hc.
    + apply Forall_forall. intros r Hr.
      destruct (statement_row_origin DP _ _ _ _ _ Hr)
        as (bal & [(t & H1 & H2 & ->) | (t & H1 & H2 & ->)]).
      * unfold refTrxOf. rewrite E. intros _. split; reflexivity.
      * cbn [tableRow toPayment entry rowType trxType]. discriminate.
  - split; [apply Hne, Href |].
    apply Forall_forall. intros r Hr.
    destruct (statement_row_origin DP _ _ _ _ _ Hr)
      as (bal & [(t & H1 & H2 & ->) | (t & H1 & H2 & ->)]).
    + unfold refTrxOf. rewrite E. exists t. repeat split. exact H1.
    + exfalso. rewrite Forall_forall in Href. specialize (Href t H1).
      apply inStatement_spec in H2. destruct H2 as (H2 & _).
      unfold forCustomer in Href. rewrite H2, String.eqb_refl in Href.
      discriminate Href.
Qed.

(** ** Sorting by a total order *)

Section TotalSortFacts.

Context {A : Type}.
Variable after : A -> A -> bool.

Hypothesis after_trans :
  forall a b c, after a b = false -> after b c = false -> after a c = false.
Hypothesis after_asym : forall a b, after a b = true -> after b a = false.

Lemma insertSorted_ordered (x : A) (l : list A) :
  StronglySorted (fun a b => after a b = false) l ->
  StronglySorted (fun a b => after a b = false) (insertSorted after x l).
Proof.
  induction 1 as [| y l Hs IH Hy]; cbn [insertSorted].
  - repeat constructor.
  - destruct (after x y) eqn:Hxy.
    + constructor; [exact IH |].
      apply Forall_forall. intros z Hz.
      apply (Permutation_in _ (Permutation_sym (insertSorted_Permutation after x l))) in Hz.
      destruct Hz as [<- | Hz]; [apply after_asym, Hxy |].
      rewrite Forall_forall in Hy. apply Hy, Hz.
    + constructor; [constructor; assumption |].
      constructor; [exact Hxy |].
      eapply Forall_impl; [| exact Hy]. cbv beta. intros z Hz.
      exact (after_trans _ _ _ Hxy Hz).
Qed.

Lemma Array_sort_ordered (l : list A) :
  StronglySorted (fun a b => after a b = false) (Array_sort after l).
Proof.
  induction l as [| x l IH]; cbn [Array_sort fold_right]; [constructor |].
  apply insertSorted_ordered, IH.
Qed.

End TotalSortFacts.

Lemma StronglySorted_strict {A : Type} (le lt : A -> A -> Prop) (l : list A) :
  (forall a b, le a b -> a <> b -> lt a b) ->
  StronglySorted le l -> NoDup l -> StronglySorted lt l.
Proof.
  intro Hlt. induction 1 as [| x l Hs IH Hx]; intro Hnd; [constructor |].
  inversion Hnd as [| ? ? Hnotin Hnd']; subst.
  constructor; [apply IH, Hnd' |].
  apply Forall_forall. intros y Hy. rewrite Forall_forall in Hx.
  apply Hlt; [apply Hx, Hy |]. intros ->. contradiction.
Qed.

(** Two strictly ascending lists with the same elements are the same
    list. *)
Lemma strictly_sorted_unique {A : Type} (lt : A -> A -> Prop) (l1 l2 : list A) :
  (forall a b, lt a b -> lt b a -> False) ->
  (forall a, lt a a -> False) ->
  StronglySorted lt l1 -> StronglySorted lt l2 ->
  (forall x, In x l1 <-> In x l2) ->
  l1 = l2.
Proof.
  intros Hasym Hirr. revert l2.
  induction l1 as [| a l1 IH]; intros l2 H1 H2 Hin.
  - destruct l2 as [| b l2]; [reflexivity |].
    exfalso. apply (proj2 (Hin b)). left. reflexivity.
  - destruct l2 as [| b l2].
    { exfalso. apply (proj1 (Hin a)). left. reflexivity. }
    inversion H1 as [| ? ? H1' Ha]; subst.
    inversion H2 as [| ? ? H2' Hb]; subst.
    rewrite Forall_forall in Ha, Hb.
    assert (Hab : a = b).
    { destruct (proj1 (Hin a) (or_introl eq_refl)) as [E | Hina]; [congruence |].
      destruct (proj2 (Hin b) (or_introl eq_refl)) as [E | Hinb]; [congruence |].
      exfalso. exact (Hasym _ _ (Ha _ Hinb) (Hb _ Hina)). }
    subst b. f_equal. apply IH; auto.
    intro x. split; intro Hx.
    + destruct (proj1 (Hin x) (or_intror Hx)) as [E | Hx']; [| exact Hx'].
      subst x. exfalso. exact (Hirr _ (Ha _ Hx)).
    + destruct (proj2 (Hin x) (or_intror Hx)) as [E | Hx']; [| exact Hx'].
      subst x. exfalso. exact (Hirr _ (Hb _ Hx)).
Qed.

(** ** [Set] insertion *)

Lemma setAdd_In (seen : list string) (name n : string) :
  In n (setAdd seen name) <-> In n seen \/ n = name.
Proof.
  unfold setAdd. destruct (existsb (String.eqb name) seen) eqn:E.
  - split; [auto |]. intros [H | ->]; [exact H |].
    apply existsb_exists in E. destruct E as (x & Hx & Heq).
    apply String.eqb_eq in Heq. subst x. exact Hx.
  - rewrite in_app_iff. cbn [In]. split; intros [H | H]; auto.
    + destruct H as [<- | []]. auto.
Qed.

Lemma setAdd_NoDup (seen : list string) (name : string) :
  NoDup seen -> NoDup (setAdd seen name).
Proof.
  intro Hnd. unfold setAdd. destruct (existsb (String.eqb name) seen) eqn:E; [exact Hnd |].
  apply NoDup_app; [exact Hnd | repeat constructor; intros [] |].
  intros x Hx [E' | []]. subst x.
  assert (H : existsb (String.eqb name) seen = true).
  { apply existsb_exists. exists name. split; [exact Hx | apply String.eqb_refl]. }
  congruence.
Qed.

Lemma fold_setAdd_In (names seen : list string) (n : string) :
  In n (fold_left setAdd names seen) <-> In n seen \/ In n names.
Proof.
  revert seen. induction names as [| x names IH]; intro seen; cbn [fold_left In].
  - tauto.
  - rewrite IH, setAdd_In. split; intros [H | H]; auto.
    + destruct H as [H | ->]; auto.
    + destruct H as [<- | H]; auto.
Qed.

Lemma fold_setAdd_NoDup (names seen : list string) :
  NoDup seen -> NoDup (fold_left setAdd names seen).
Proof.
  revert seen. induction names as [| x names IH]; intros seen H; cbn [fold_left].
  - exact H.
  - apply IH, setAdd_NoDup, H.
Qed.

Lemma setAdd_length (seen : list string) (name : string) :
  (List.length (setAdd seen name) <= S (List.length seen))%nat.
Proof.
  unfold setAdd. destruct (existsb (String.eqb name) seen); [lia |].
  rewrite length_app. cbn [List.length]. lia.
Qed.

Lemma fold_setAdd_length (names seen : list string) :
  (List.length (fold_left setAdd names seen)
   <= List.length seen + List.length names)%nat.
Proof.
  revert seen. induction names as [| x names IH]; intro seen; cbn [fold_left List.length].
  - lia.
  - specialize (IH (setAdd seen x)). pose proof (setAdd_length seen x). lia.
Qed.

(** ** The customer list of the form *)

Lemma stringAfter_trans (a b c : string) :
  stringAfter a b = false -> stringAfter b c = false -> stringAfter a c = false.
Proof.
  unfold stringAfter. rewrite !string_ltb_leb, !negb_false_iff.
  apply string_leb_trans.
Qed.

Lemma stringAfter_asym (a b : string) :
  stringAfter a b = true -> stringAfter b a = false.
Proof.
  unfold stringAfter. intro H.
  destruct (a <? b)%string eqn:E; [| reflexivity].
  pose proof (string_ltb_trans _ _ _ H E) as Hc.
  rewrite string_ltb_irrefl in Hc. discriminate Hc.
Qed.

Lemma stringAfter_strict (a b : string) :
  stringAfter a b = false -> a <> b -> (a <? b)%string = true.
Proof.
  unfold stringAfter. rewrite string_ltb_leb, negb_false_iff, string_leb_cases.
  intros [H | H] Hne; [| contradiction].
  unfold String.ltb. rewrite H. reflexivity.
Qed.

Lemma customers_sorted (f : list Transaction) :
  StronglySorted (fun a b => (a <? b)%string = true) (customers f).
Proof.
  unfold customers.
  apply StronglySorted_strict with (le := fun a b => stringAfter a b = false).
  - apply stringAfter_strict.
  - apply Array_sort_ordered; [apply stringAfter_trans | apply stringAfter_asym].
  - eapply Permutation_NoDup; [apply Array_sort_Permutation |].
    apply fold_setAdd_NoDup. constructor.
Qed.

Lemma customers_In (f : list Transaction) (n : string) :
  In n (customers f) <-> n <> "" /\ exists t, In t f /\ customerName t = n.
Proof.
  unfold customers. split.
  - intro H.
    apply (Permutation_in _ (Permutation_sym (Array_sort_Permutation _ _))) in H.
    apply fold_setAdd_In in H. destruct H as [[] | H].
    apply filter_In in H. destruct H as [H Hne].
    apply in_map_iff in H. destruct H as (t & <- & Ht).
    split; [| eauto]. intro E. rewrite E in Hne. discriminate Hne.
  - intros (Hne & t & Ht & <-).
    apply (Permutation_in _ (Array_sort_Permutation _ _)).
    apply fold_setAdd_In. right. apply filter_In. split; [apply in_map, Ht |].
    cbn [truthy]. destruct (customerName t); [congruence | reflexivity].
Qed.

Lemma customers_unique (f1 f2 : list Transaction) :
  (forall n, n <> "" -> In n (map customerName f1) <-> In n (map customerName f2)) ->
  customers f1 = customers f2.
Proof.
  intro H.
  apply strictly_sorted_unique with (lt := fun a b => (a <? b)%string = true).
  - intros a b H1 H2. pose proof (string_ltb_trans _ _ _ H1 H2) as Hc.
    rewrite string_ltb_irrefl in Hc. discriminate Hc.
  - intros a Ha. rewrite string_ltb_irrefl in Ha. discriminate Ha.
  - apply customers_sorted.
  - apply customers_sorted.
  - intro n. rewrite !customers_In.
    split; intros (Hne & t & Ht & E); (split; [exact Hne |]).
    + assert (H2 : In n (map customerName f2)).
      { apply (H n Hne). rewrite <- E. apply in_map, Ht. }
      apply in_map_iff in H2. destruct H2 as (t' & E' & Ht'). eauto.
    + assert (H1 : In n (map customerName f1)).
      { apply (H n Hne). rewrite <- E. apply in_map, Ht. }
      apply in_map_iff in H1. destruct H1 as (t' & E' & Ht'). eauto.
Qed.

(** X9. The customer list offered by the form holds every non-empty
    customer name of the uploaded transactions, and nothing else, in
    strictly ascending order of code units - hence each name once. *)
Theorem customers_are_the_sorted_names :
  forall fileTransactions : list Transaction,
    StronglySorted (fun a b => (a <? b)%string = true) (customers fileTransactions)
    /\ NoDup (customers fileTransactions)
    /\ (forall n, In n (customers fileTransactions) <->
                  n <> "" /\ exists t, In t fileTransactions /\ customerName t = n).
Proof.
  intro f. split; [apply customers_sorted |]. split; [| apply customers_In].
  unfold customers.
  eapply Permutation_NoDup; [apply Array_sort_Permutation |].
  apply fold_setAdd_NoDup. constructor.
Qed.

(** X10. The customer list depends only on which names occur in the
    uploaded transactions, not on their order or on how often they
    occur: reordering the transactions, or loading the same file a
    second time, leaves the list unchanged. *)
Theorem customers_ignore_order_and_repeats :
  forall f1 f2 : list Transaction,
    ((forall n, In n (map customerName f1) <-> In n (map customerName f2)) ->
     customers f1 = customers f2)
    /\ (Permutation f1 f2 -> customers f1 = customers f2)
    /\ customers (handleDataLoaded f1 f1) = customers f1
    /\ customers (handleDataLoaded f1 f2) = customers (handleDataLoaded f2 f1).
Proof.
  intros f1 f2. split; [| split; [| split]].
  - intro H. apply customers_unique. intros n _. apply H.
  - intro Hp. apply customers_unique. intros n _.
    split; apply Permutation_in; [| apply Permutation_sym];
      apply Permutation_map, Hp.
  - apply customers_unique. intros n _. unfold handleDataLoaded.
    rewrite map_app, in_app_iff. tauto.
  - apply customers_unique. intros n _. unfold handleDataLoaded.
    rewrite !map_app, !in_app_iff. tauto.
Qed.
Lemma customers_ignore_order_and_repeats_witness :
  customers (rev sameDayInvoices) = customers sameDayInvoices.
Proof.
  destruct (customers_ignore_order_and_repeats (rev sameDayInvoices) sameDayInvoices)
    as (_ & H & _).
  apply H, Permutation_sym, Permutation_rev.
Defined.

(** ** What an upload hands over *)

Lemma buildTransaction_id (Date_parse : string -> option Z) (now : Z)
      (index : nat) (row : record) (t : Transaction) :
  buildTransaction Date_parse now index row = Some t -> id t = FileId index now.
Proof.
  unfold buildTransaction.
  destruct (negb (truthy (findValue row customerNameKeys))
            || (trim (String_of (findValue row customerNameKeys)) =? "")%string);
    [discriminate |].
  destruct (includes (toLowerCase (cleanCustomerName (findValue row customerNameKeys)))
                     "total"); [discriminate |].
  intro H. injection H as <-. reflexivity.
Qed.

Lemma buildTransactions_ids (Date_parse : string -> option Z) (now : Z)
      (rows : list record) (index : nat) :
  Forall (fun t => exists j, id t = FileId j now
                             /\ (index <= j < index + List.length rows)%nat)
         (buildTransactions Date_parse now index rows)
  /\ NoDup (map id (buildTransactions Date_parse now index rows))
  /\ (List.length (buildTransactions Date_parse now index rows)
      <= List.length rows)%nat.
Proof.
  revert index. induction rows as [| row rest IH]; intro index; cbn [buildTransactions].
  - split; [constructor | split; [constructor | cbn [List.length]; lia]].
  - destruct (IH (S index)) as (Hids & Hnd & Hlen).
    assert (Hids' : Forall (fun t => exists j, id t = FileId j now
                             /\ (index <= j < index + List.length (row :: rest))%nat)
                           (buildTransactions Date_parse now (S index) rest)).
    { eapply Forall_impl; [| exact Hids]. cbv beta. cbn [List.length].
      intros t (j & Hj & Hr). exists j. split; [exact Hj | lia]. }
    destruct (buildTransaction Date_parse now index row) as [t |] eqn:Ht.
    + pose proof (buildTransaction_id _ _ _ _ _ Ht) as Hid.
      split; [| split].
      * constructor; [| exact Hids'].
        exists index. split; [exact Hid | cbn [List.length]; lia].
      * cbn [map]. constructor; [| exact Hnd].
        intro Hin. apply in_map_iff in Hin. destruct Hin as (t' & Heq & Hin).
        rewrite Forall_forall in Hids. destruct (Hids t' Hin) as (j & Hj & Hr).
        rewrite Hid, Hj in Heq. injection Heq as Heq. lia.
      * cbn [List.length]. lia.
    + split; [exact Hids' | split; [exact Hnd | cbn [List.length]; lia]].
Qed.

Lemma buildTransactions_skipped (Date_parse : string -> option Z) (now : Z)
      (rows : list record) (index : nat) :
  buildTransactions Date_parse now index rows = [] <->
  Forall (fun row => buildTransaction Date_parse now 0 row = None) rows.
Proof.
  assert (Hidx : forall row i j,
             buildTransaction Date_parse now i row = None ->
             buildTransaction Date_parse now j row = None).
  { intros row i j. unfold buildTransaction.
    destruct (negb (truthy (findValue row customerNameKeys))
              || (trim (String_of (findValue row customerNameKeys)) =? "")%string);
      [reflexivity |].
    destruct (includes (toLowerCase (cleanCustomerName (findValue row customerNameKeys)))
                       "total"); [reflexivity | discriminate]. }
  revert index. induction rows as [| row rest IH]; intro index; cbn [buildTransactions].
  - split; [constructor | reflexivity].
  - destruct (buildTransaction Date_parse now index row) as [t |] eqn:Ht.
    + split; [discriminate |]. intro H. inversion H as [| ? ? H0 _]; subst.
      rewrite (Hidx _ _ index H0) in Ht. discriminate Ht.
    + rewrite IH. split; intro H.
      * constructor; [exact (Hidx _ _ 0%nat Ht) | exact H].
      * inversion H; assumption.
Qed.

Lemma truthy_name_filter (l : list Transaction) :
  Forall (fun t => customerName t <> "") l ->
  filter (fun n => truthy (VStr n)) (map customerName l) = map customerName l.
Proof.
  induction 1 as [| t l Ht _ IH]; cbn [map filter]; [reflexivity |].
  rewrite IH. cbn [truthy]. destruct (customerName t); [congruence | reflexivity].
Qed.

Section UploadFacts.

Variable Date_parse : string -> option Z.
Variable sheet_to_json : list (list value) -> nat -> list record.

Lemma processFile_Loaded (now : Z) (rawRows : list (list value))
      (ts : list Transaction) (seen : list string) :
  processFile Date_parse sheet_to_json now rawRows = Loaded ts seen ->
  exists i,
    findHeaderRow rawRows = Some i
    /\ ts = buildTransactions Date_parse now 0 (sheet_to_json rawRows i)
    /\ ts <> []
    /\ seen = fold_left setAdd (map customerName ts) [].
Proof.
  unfold processFile. destruct rawRows as [| r rs]; [discriminate |].
  destruct (findHeaderRow (r :: rs)) as [i |]; [| discriminate].
  destruct (sheet_to_json (r :: rs) i) as [| row rows] eqn:Hj; [discriminate |].
  destruct (buildTransactions Date_parse now 0 (row :: rows)) as [| t l] eqn:Hb;
    [discriminate |].
  intro H. injection H as <- <-. exists i.
  split; [reflexivity |]. split; [rewrite Hj; symmetry; exact Hb |].
  split; [discriminate | reflexivity].
Qed.

Lemma processFile_NoValid (now : Z) (rawRows : list (list value)) :
  processFile Date_parse sheet_to_json now rawRows = NoValidTransactions <->
  exists i,
    findHeaderRow rawRows = Some i
    /\ sheet_to_json rawRows i <> []
    /\ buildTransactions Date_parse now 0 (sheet_to_json rawRows i) = [].
Proof.
  unfold processFile. destruct rawRows as [| r rs].
  { split; [discriminate |]. intros (i & H & _). discriminate H. }
  destruct (findHeaderRow (r :: rs)) as [i |].
  2: { split; [discriminate |]. intros (i & H & _). discriminate H. }
  destruct (sheet_to_json (r :: rs) i) as [| row rows] eqn:Hj.
  { split; [discriminate |]. intros (j & H & Hne & _). injection H as <-.
    rewrite Hj in Hne. congruence. }
  destruct (buildTransactions Date_parse now 0 (row :: rows)) as [| t l] eqn:Hb.
  - split; [| reflexivity]. intros _. exists i. rewrite Hj.
    repeat split; [discriminate | exact Hb].
  - split; [discriminate |]. intros (j & H & _ & Hb'). injection H as <-.
    rewrite Hj, Hb in Hb'. discriminate Hb'.
Qed.

End UploadFacts.

(** X11. What a successful upload hands over.  The transactions are the
    rows below the located header that were not skipped, in row order;
    there is at least one and at most one per row; their ids are
    pairwise distinct.  The customers reported as found are the distinct
    customer names of these transactions, each once, in order of first
    appearance; after a first upload the form offers exactly these
    names, sorted, so that the number of customers reported is the
    number of names offered. *)
Theorem upload_hands_over :
  forall (Date_parse : string -> option Z)
         (sheet_to_json : list (list value) -> nat -> list record)
         (now : Z) (rawRows : list (list value))
         (transactions : list Transaction) (seenCustomers : list string),
    processFile Date_parse sheet_to_json now rawRows
    = Loaded transactions seenCustomers ->
    (exists headerRowIndex,
        findHeaderRow rawRows = Some headerRowIndex
        /\ transactions
           = buildTransactions Date_parse now 0 (sheet_to_json rawRows headerRowIndex)
        /\ (1 <= List.length transactions
            <= List.length (sheet_to_json rawRows headerRowIndex))%nat)
    /\ NoDup (map id transactions)
    /\ NoDup seenCustomers
    /\ (forall n, In n seenCustomers <-> exists t, In t transactions /\ customerName t = n)
    /\ (1 <= List.length seenCustomers <= List.length transactions)%nat
    /\ customers (handleDataLoaded [] transactions) = Array_sort stringAfter seenCustomers
    /\ List.length (customers (handleDataLoaded [] transactions))
       = List.length seenCustomers.
Proof.
  intros DP s2j now rawRows ts seen H.
  destruct (processFile_Loaded DP s2j now rawRows ts seen H) as (i & Hh & Hts & Hne & Hseen).
  destruct (buildTransactions_ids DP now (s2j rawRows i) 0) as (_ & Hnd & Hlen).
  rewrite <- Hts in Hnd, Hlen.
  assert (Hin : forall n, In n seen <-> exists t, In t ts /\ customerName t = n).
  { intro n. rewrite Hseen, fold_setAdd_In, in_map_iff. cbn [In].
    split; [intros [[] | (t & E & Ht)]; eauto | intros (t & Ht & E); eauto]. }
  assert (Hcust : customers (handleDataLoaded [] ts) = Array_sort stringAfter seen).
  { unfold customers, handleDataLoaded. cbn [app]. rewrite truthy_name_filter.
    - rewrite Hseen. reflexivity.
    - rewrite Hts. eapply Forall_impl; [| apply buildTransactions_names].
      cbv beta. tauto. }
  split; [| split; [| split; [| split; [| split; [| split]]]]].
  - exists i. split; [exact Hh |]. split; [exact Hts |].
    destruct ts; [congruence | cbn [List.length] in *; lia].
  - exact Hnd.
  - rewrite Hseen. apply fold_setAdd_NoDup. constructor.
  - exact Hin.
  - split.
    + destruct ts as [| t l]; [congruence |].
      assert (Ht : In (customerName t) seen)
        by (apply Hin; exists t; split; [left |]; reflexivity).
      destruct seen; [destruct Ht | cbn [List.length]; lia].
    + rewrite Hseen. pose proof (fold_setAdd_length (map customerName ts) []) as Hl.
      rewrite length_map in Hl. exact Hl.
  - exact Hcust.
  - rewrite Hcust.
    apply Permutation_length, Permutation_sym, Array_sort_Permutation.
Qed.
Lemma upload_hands_over_witness :
  match processFile Date_parse_canonical recordsBelow 1706745600000 sampleGrid with
  | Loaded transactions seenCustomers =>
      NoDup (map id transactions)
      /\ NoDup seenCustomers
      /\ customers (handleDataLoaded [] transactions)
         = Array_sort stringAfter seenCustomers
  | _ => False
  end.
Proof.
  destruct (processFile Date_parse_canonical recordsBelow 1706745600000 sampleGrid)
    as [e | | transactions seenCustomers] eqn:H.
  - vm_compute in H. discriminate H.
  - vm_compute in H. discriminate H.
  - destruct (upload_hands_over _ _ _ _ _ _ H) as (_ & H1 & H2 & _ & _ & H3 & _).
    split; [exact H1 | split; [exact H2 | exact H3]].
Defined.

(** X12. An upload ends with the status "Parsed headers but found no
    valid transactions", handing nothing over, exactly when the header
    row is located, the sheet reader returns at least one row below it,
    and every one of these rows is skipped: its customer name is absent
    or blank, or contains "total". *)
Theorem upload_without_valid_rows :
  forall (Date_parse : string -> option Z)
         (sheet_to_json : list (list value) -> nat -> list record)
         (now : Z) (rawRows : list (list value)),
    processFile Date_parse sheet_to_json now rawRows = NoValidTransactions <->
    exists headerRowIndex,
      findHeaderRow rawRows = Some headerRowIndex
      /\ sheet_to_json rawRows headerRowIndex <> []
      /\ Forall (fun row =>
                   let raw := findValue row customerNameKeys in
                   truthy raw = false
                   \/ trim (String_of raw) = ""
                   \/ includes (toLowerCase (cleanCustomerName raw)) "total" = true)
                (sheet_to_json rawRows headerRowIndex).
Proof.
  intros DP s2j now rawRows. rewrite processFile_NoValid.
  assert (Hskip : forall rows,
             buildTransactions DP now 0 rows = [] <->
             Forall (fun row =>
                       let raw := findValue row customerNameKeys in
                       truthy raw = false
                       \/ trim (String_of raw) = ""
                       \/ includes (toLowerCase (cleanCustomerName raw)) "total" = true)
                    rows).
  { intro rows. rewrite buildTransactions_skipped. split; apply Forall_impl; cbv beta zeta.
    - intros row Hrow. pose proof (buildTransaction_cases DP now 0 row) as Hc.
      rewrite Hrow in Hc. exact Hc.
    - intros row Hrow. pose proof (buildTransaction_cases DP now 0 row) as Hc.
      destruct (buildTransaction DP now 0 row) as [t |]; [| reflexivity].
      destruct Hc as (H1 & H2 & H3 & _ & H5). rewrite H3 in H5.
      destruct Hrow as [H | [H | H]]; congruence. }
  split; intros (i & Hh & Hne & H); exists i; (split; [exact Hh |]);
    (split; [exact Hne |]); apply Hskip; exact H.
Qed.

(** ** Deleting a manual entry *)

Lemma TrxId_eqb_eq (a b : TrxId) : TrxId_eqb a b = true <-> a = b.
Proof.
  destruct a as [i n | n], b as [j m | m]; cbn [TrxId_eqb];
    try (split; discriminate).
  - rewrite andb_true_iff, Nat.eqb_eq, Z.eqb_eq. split.
    + intros [-> ->]. reflexivity.
    + intro H. injection H as -> ->. auto.
  - rewrite Z.eqb_eq. split; [intros ->; reflexivity | intro H; injection H; auto].
Qed.

Lemma TrxId_eqb_refl (a : TrxId) : TrxId_eqb a a = true.
Proof. apply TrxId_eqb_eq. reflexivity. Qed.

Lemma filter_all {A : Type} (p : A -> bool) (l : list A) :
  Forall (fun x => p x = true) l -> filter p l = l.
Proof.
  induction 1 as [| x l Hx _ IH]; cbn [filter]; [reflexivity |].
  rewrite Hx, IH. reflexivity.
Qed.

Lemma filter_filter_same {A : Type} (p : A -> bool) (l : list A) :
  filter p (filter p l) = filter p l.
Proof.
  apply filter_all, Forall_forall. intros x Hx. apply filter_In in Hx. tauto.
Qed.

Lemma filter_map_swap {A B : Type} (f : A -> B) (p : B -> bool) (l : list A) :
  filter p (map f l) = map f (filter (fun x => p (f x)) l).
Proof.
  induction l as [| x l IH]; cbn [map filter]; [reflexivity |].
  destruct (p (f x)); cbn [map]; rewrite IH; reflexivity.
Qed.

Lemma filter_comm {A : Type} (p q : A -> bool) (l : list A) :
  filter p (filter q l) = filter q (filter p l).
Proof.
  induction l as [| x l IH]; cbn [filter]; [reflexivity |].
  destruct (p x) eqn:Hp, (q x) eqn:Hq; cbn [filter]; rewrite ?Hp, ?Hq, IH; reflexivity.
Qed.

(** X13. Deleting a manual entry, once confirmed, removes every entry
    that carries the given id and nothing else, the remaining entries
    keeping their order; declined, it changes nothing.  Deleting the
    entry that was just added gives back the list as it was before,
    provided no older entry carries the same id (ids are made from the
    clock reading, so two entries added within the same millisecond
    share theirs and are deleted together).  In the statement, the
    payment entries of the deleted id are gone and the others are as
    before; the invoices selected from the file keep their ids, dates
    and rendering amounts. *)
Theorem manual_delete :
  forall (id0 : TrxId) (prev : list Transaction),
    handleManualDelete false id0 prev = prev
    /\ (forall t, In t (handleManualDelete true id0 prev) <-> In t prev /\ id t <> id0)
    /\ (forall p : Transaction -> bool,
           (forall t, p t = true -> id t <> id0) ->
           filter p (handleManualDelete true id0 prev) = filter p prev)
    /\ (forall trx,
           id trx = id0 ->
           handleManualDelete true id0 (handleManualAdd prev trx)
           = handleManualDelete true id0 prev)
    /\ (forall trx,
           id trx = id0 ->
           Forall (fun t => id t <> id0) prev ->
           handleManualDelete true id0 (handleManualAdd prev trx) = prev)
    /\ (forall fileTransactions selectedCustomer config,
           paymentTrxs (handleManualDelete true id0 prev) selectedCustomer config
           = filter (fun e => negb (TrxId_eqb (id (entry e)) id0))
                    (paymentTrxs prev selectedCustomer config)
           /\ map (fun e => (id (entry e), trxDate (entry e), calculatedAmount e))
                  (invoiceTrxs fileTransactions (handleManualDelete true id0 prev)
                               selectedCustomer config)
              = map (fun e => (id (entry e), trxDate (entry e), calculatedAmount e))
                    (invoiceTrxs fileTransactions prev selectedCustomer config)).
Proof.
  intros id0 prev. unfold handleManualDelete, handleManualAdd.
  assert (Hdel : forall trx, id trx = id0 ->
                   filter (fun t => negb (TrxId_eqb (id t) id0)) (prev ++ [trx])
                   = filter (fun t => negb (TrxId_eqb (id t) id0)) prev).
  { intros trx Hid. rewrite filter_app. cbn [filter].
    rewrite Hid, TrxId_eqb_refl. cbn [negb]. apply app_nil_r. }
  split; [reflexivity |]. split; [| split; [| split; [| split]]].
  - intro t. rewrite filter_In, negb_true_iff. split; intros [H1 H2]; split; auto.
    + intro E. rewrite E, TrxId_eqb_refl in H2. discriminate H2.
    + destruct (TrxId_eqb (id t) id0) eqn:E; [| reflexivity].
      apply TrxId_eqb_eq in E. contradiction.
  - intros p Hp. clear Hdel. induction prev as [| t l IH]; [reflexivity |].
    cbn [filter]. destruct (TrxId_eqb (id t) id0) eqn:E; cbn [negb filter].
    + apply TrxId_eqb_eq in E. destruct (p t) eqn:Hpt; [| exact IH].
      exfalso. exact (Hp t Hpt E).
    + rewrite IH. reflexivity.
  - exact Hdel.
  - intros trx Hid Hfresh. rewrite (Hdel trx Hid).
    apply filter_all. eapply Forall_impl; [| exact Hfresh]. cbv beta.
    intros t Ht. destruct (TrxId_eqb (id t) id0) eqn:E; [| reflexivity].
    apply TrxId_eqb_eq in E. contradiction.
  - intros file cust cfg. split.
    + unfold paymentTrxs. rewrite filter_map_swap. f_equal. apply filter_comm.
    + unfold invoiceTrxs. rewrite !map_map. reflexivity.
Qed.

Lemma manual_delete_witness :
  handleManualDelete true (ManualId 1704844800000)
    (handleManualAdd [] (nth 0 scenarioManual
                           (mkTransaction (ManualId 0) "" "" VNull VNull PAYMENT zero
                                          "" None None))) = [].
Proof.
  destruct (manual_delete (ManualId 1704844800000) []) as (_ & _ & _ & _ & H & _).
  apply H; [reflexivity | constructor].
Defined.

(** ** What holds in every state of the application *)

Lemma handleSubmit_Some (now : Z) (selectedCustomer : string) (formData : FormData)
      (t : Transaction) :
  handleSubmit now selectedCustomer formData = Some t ->
  selectedCustomer <> ""
  /\ customerName t = selectedCustomer
  /\ trxType t = PAYMENT
  /\ originalAmount t
     = b64_neg (Math_abs (Number_ofString (form_originalAmount formData)))
  /\ id t = ManualId now
  /\ glAgency t = None /\ note t = None.
Proof.
  unfold handleSubmit. destruct selectedCustomer as [| c r]; [discriminate |].
  intro H. injection H as <-. cbn. repeat split. discriminate.
Qed.

Lemma buildTransactions_types (Date_parse : string -> option Z) (now : Z)
      (rows : list record) (index : nat) :
  Forall (fun t => trxType t = INV \/ trxType t = Payment)
         (buildTransactions Date_parse now index rows).
Proof.
  revert index. induction rows as [| row rest IH]; intro index; cbn [buildTransactions].
  - constructor.
  - destruct (buildTransaction Date_parse now index row) as [t |] eqn:Ht; [| apply IH].
    constructor; [| apply IH].
    rewrite (buildTransaction_type _ _ _ _ _ Ht).
    destruct (isPaymentType _); auto.
Qed.

Lemma customers_grow (f data : list Transaction) (c : string) :
  In c (customers f) -> In c (customers (handleDataLoaded f data)).
Proof.
  rewrite !customers_In. intros (Hne & t & Ht & E). split; [exact Hne |].
  exists t. split; [| exact E]. unfold handleDataLoaded. apply in_or_app. left. exact Ht.
Qed.

Lemma neg_abs_again (x : float64) :
  b64_neg (Math_abs (b64_neg (Math_abs x))) = b64_neg (Math_abs x).
Proof. destruct x as [s | s | | s m e]; reflexivity. Qed.

Section AppFacts.

Variable COMPANY_LOGO_BASE64 : string.
Variable Date_parse : string -> option Z.
Variable sheet_to_json : list (list value) -> nat -> list record.

Lemma reachable_invariant (s : AppState) :
  reachable COMPANY_LOGO_BASE64 Date_parse sheet_to_json s ->
  Forall (fun t => customerName t <> ""
                   /\ includes (toLowerCase (customerName t)) "total" = false
                   /\ (trxType t = INV \/ trxType t = Payment)
                   /\ exists index now, id t = FileId index now)
         (app_fileTransactions s)
  /\ Forall (fun t => trxType t = PAYMENT
                      /\ (exists x, originalAmount t = b64_neg (Math_abs x))
                      /\ In (customerName t) (customers (app_fileTransactions s))
                      /\ exists now, id t = ManualId now)
            (app_manualTransactions s)
  /\ (app_selectedCustomer s = ""
      \/ In (app_selectedCustomer s) (customers (app_fileTransactions s)))
  /\ isNaN (openingBalance (app_config s)) = false
  /\ app_logoData s <> None.
Proof.
  induction 1 as [sd ed saved | s a Hr IH Hoff].
  - cbn - [truthy]. split; [constructor |]. split; [constructor |].
    split; [left; reflexivity |]. split; [reflexivity |].
    destruct saved as [l |]; [destruct (truthy (VStr l)) |]; discriminate.
  - destruct IH as (Hf & Hm & Hs & Hob & Hlogo).
    destruct a as [data | customer | now formData | id0 confirmed | confirmed
                   | result | | text | text | text | text | |];
      cbn [dispatch offered] in *.
    + (* DataLoaded *)
      destruct Hoff as (now & rawRows & seen & Hp).
      destruct (processFile_Loaded _ _ _ _ _ _ Hp) as (i & _ & Hdata & _ & _).
      cbn. split; [| split; [| split; [| split]]]; auto.
      * unfold handleDataLoaded. apply Forall_app. split; [exact Hf |].
        pose proof (buildTransactions_names Date_parse now (sheet_to_json rawRows i) 0) as H1.
        pose proof (buildTransactions_types Date_parse now (sheet_to_json rawRows i) 0) as H2.
        destruct (buildTransactions_ids Date_parse now (sheet_to_json rawRows i) 0)
          as (H3 & _ & _).
        rewrite <- Hdata in H1, H2, H3.
        rewrite Forall_forall in H1, H2, H3. apply Forall_forall. intros t Ht.
        destruct (H1 t Ht) as [Ha Hb]. destruct (H3 t Ht) as (j & Hj & _).
        split; [exact Ha |]. split; [exact Hb |]. split; [exact (H2 t Ht) |]. eauto.
      * eapply Forall_impl; [| exact Hm]. intros t (H1 & H2 & H3 & H4).
        split; [exact H1 |]. split; [exact H2 |]. split; [| exact H4].
        apply customers_grow, H3.
      * destruct Hs as [Hs | Hs]; [left; exact Hs | right; apply customers_grow, Hs].
    + (* SelectCustomer *)
      cbn. split; [exact Hf |]. split; [exact Hm |]. split; [right; exact Hoff |].
      split; assumption.
    + (* SubmitPayment *)
      cbn. split; [exact Hf |]. split; [| split; [exact Hs | split; assumption]].
      destruct (handleSubmit now (app_selectedCustomer s) formData) as [t |] eqn:Ht;
        [| exact Hm].
      destruct (handleSubmit_Some _ _ _ _ Ht) as (Hne & Hc & Hty & Ham & Hid & _).
      unfold handleManualAdd. apply Forall_app. split; [exact Hm |].
      constructor; [| constructor].
      split; [exact Hty |]. split; [eauto |]. split; [| eauto].
      rewrite Hc. destruct Hs as [Hs | Hs]; [contradiction | exact Hs].
    + (* DeletePayment *)
      cbn. split; [exact Hf |]. split; [| split; [exact Hs | split; assumption]].
      unfold handleManualDelete. destruct confirmed; [| exact Hm].
      apply Forall_forall. intros t Ht. apply filter_In in Ht.
      rewrite Forall_forall in Hm. apply Hm, Ht.
    + (* ClearData *)
      destruct confirmed; [| tauto].
      cbn. split; [constructor |]. split; [constructor |]. split; [left; reflexivity |].
      split; [exact Hob | discriminate].
    + (* LogoUploaded *)
      cbn. split; [exact Hf |]. split; [exact Hm |]. split; [exact Hs |].
      split; [exact Hob | discriminate].
    + (* ResetLogo *)
      cbn. split; [exact Hf |]. split; [exact Hm |]. split; [exact Hs |].
      split; [exact Hob | discriminate].
    + (* SetStartDate *) cbn. tauto.
    + (* SetEndDate *) cbn. tauto.
    + (* SetOpeningBalance *)
      cbn. split; [exact Hf |]. split; [exact Hm |]. split; [exact Hs |].
      split; [| exact Hlogo]. unfold openingBalanceOf.
      destruct (parseFloat text) as [sg | sg | | sg m e]; reflexivity.
    + (* SetOperatingUnit *) cbn. tauto.
    + (* SaveConfig *) cbn. tauto.
    + (* SaveConfigExpired *) cbn. tauto.
Qed.

End AppFacts.

(** X14. In every state the application can reach - through uploads,
    customer selection, payment entry and deletion, configuration
    changes and the clearing of all data - the following hold.  Every
    file transaction has a non-empty customer name without "total" and
    is typed [INV] or [Payment].  Every manual transaction is typed
    [PAYMENT], belongs to a customer that occurs in the uploaded
    transactions, and has an amount of the form [-|x|], so that it is
    never positive and the generator's own sign rule leaves it
    unchanged.  The selected customer is empty or one of the offered
    names.  The opening balance is never [NaN]. *)
Theorem reachable_states :
  forall (COMPANY_LOGO_BASE64 : string) (Date_parse : string -> option Z)
         (sheet_to_json : list (list value) -> nat -> list record) (s : AppState),
    reachable COMPANY_LOGO_BASE64 Date_parse sheet_to_json s ->
    Forall (fun t => customerName t <> ""
                     /\ includes (toLowerCase (customerName t)) "total" = false
                     /\ (trxType t = INV \/ trxType t = Payment))
           (app_fileTransactions s)
    /\ Forall (fun t => trxType t = PAYMENT
                        /\ In (customerName t) (customers (app_fileTransactions s))
                        /\ b64_gt (originalAmount t) zero = false
                        /\ calculatedAmount (toPayment t) = originalAmount t)
              (app_manualTransactions s)
    /\ (app_selectedCustomer s = ""
        \/ In (app_selectedCustomer s) (customers (app_fileTransactions s)))
    /\ isNaN (openingBalance (app_config s)) = false.
Proof.
  intros logo DP s2j s Hr.
  destruct (reachable_invariant logo DP s2j s Hr) as (Hf & Hm & Hs & Hob & _).
  split; [| split; [| split; assumption]].
  - eapply Forall_impl; [| exact Hf]. cbv beta. tauto.
  - eapply Forall_impl; [| exact Hm]. cbv beta.
    intros t (H1 & (x & H2) & H3 & _).
    split; [exact H1 |]. split; [exact H3 |].
    cbn [toPayment calculatedAmount]. rewrite H2.
    split; [apply neg_abs_not_positive | apply neg_abs_again].
Qed.

Lemma reachable_states_witness :
  Forall (fun t => trxType t = PAYMENT
                   /\ In (customerName t) (customers (app_fileTransactions sampleSession))
                   /\ b64_gt (originalAmount t) zero = false
                   /\ calculatedAmount (toPayment t) = originalAmount t)
         (app_manualTransactions sampleSession)
  /\ app_manualTransactions sampleSession <> [].
Proof.
  split; [| discriminate].
  apply (reachable_states "data:image/png;base64,iVBORw0KGgo="
           Date_parse_canonical recordsBelow sampleSession).
  unfold sampleSession.
  apply reachable_step; [apply reachable_step; [apply reachable_step |] |].
  - apply reachable_initial.
  - exists 1706745600000, sampleGrid. eexists. vm_compute. reflexivity.
  - vm_compute. auto.
  - exact I.
Defined.

(** ** Thousands separators *)

Lemma readSign_comma (s b : string) :
  readSign (s ++ String "," b)
  = (fst (readSign s), snd (readSign s) ++ String "," b).
Proof.
  destruct s as [| c r]; [reflexivity |].
  cbn [append].
  destruct c as [[] [] [] [] [] [] [] []]; reflexivity.
Qed.

Lemma startsWith_comma (p s b : string) :
  includes p "," = false ->
  startsWith (s ++ String "," b) p = startsWith s p.
Proof.
  revert s. induction p as [| a p IH]; intros s Hp; [destruct s; reflexivity |].
  cbn [includes startsWith] in Hp.
  apply orb_false_iff in Hp. destruct Hp as [Ha Hp].
  destruct s as [| x s]; cbn [append startsWith].
  - rewrite Ascii.eqb_sym. destruct (Ascii.eqb "," a); [| reflexivity].
    cbn [andb] in Ha. destruct p; discriminate Ha.
  - rewrite IH by exact Hp. reflexivity.
Qed.

Lemma takeDigits_comma (s b : string) :
  takeDigits (s ++ String "," b)
  = (fst (takeDigits s), snd (takeDigits s) ++ String "," b).
Proof.
  induction s as [| c r IH]; [reflexivity |].
  cbn [append takeDigits]. destruct (isDigit c); [| reflexivity].
  rewrite IH. destruct (takeDigits r) as [d r']. reflexivity.
Qed.

Lemma readExponent_comma (s b : string) :
  readExponent (s ++ String "," b)
  = (fst (readExponent s), snd (readExponent s) ++ String "," b).
Proof.
  destruct s as [| c r]; [reflexivity |].
  cbn [append readExponent].
  destruct (Ascii.eqb c "e" || Ascii.eqb c "E"); [| reflexivity].
  rewrite readSign_comma. destruct (readSign r) as [eneg r']. cbn [fst snd].
  rewrite takeDigits_comma. destruct (takeDigits r') as [ed r'']. cbn [fst snd].
  destruct ed; reflexivity.
Qed.

Lemma readDecimalLiteral_comma (s b : string) :
  option_map fst (readDecimalLiteral (s ++ String "," b))
  = option_map fst (readDecimalLiteral s).
Proof.
  unfold readDecimalLiteral. rewrite readSign_comma.
  destruct (readSign s) as [neg r]. cbn [fst snd].
  rewrite startsWith_comma by reflexivity.
  destruct (startsWith r "Infinity") eqn:Hinf; [reflexivity |].
  rewrite takeDigits_comma. destruct (takeDigits r) as [ip r1]. cbn [fst snd].
  assert (Hfrac :
    match r1 ++ String "," b with
    | String "." r0 => takeDigits r0
    | _ => ("", r1 ++ String "," b)
    end
    = (fst match r1 with String "." r0 => takeDigits r0 | _ => ("", r1) end,
       snd match r1 with String "." r0 => takeDigits r0 | _ => ("", r1) end
       ++ String "," b)).
  { destruct r1 as [| c r0]; [reflexivity |]. cbn [append].
    destruct c as [[] [] [] [] [] [] [] []]; try reflexivity.
    rewrite takeDigits_comma. reflexivity. }
  rewrite Hfrac.
  destruct (match r1 with String "." r0 => takeDigits r0 | _ => ("", r1) end)
    as [fp r2]. cbn [fst snd].
  destruct (ip ++ fp); [reflexivity |].
  rewrite readExponent_comma. destruct (readExponent r2) as [ex r3]. reflexivity.
Qed.

Lemma trimStart_comma (s b : string) :
  trimStart (s ++ String "," b) = trimStart s ++ String "," b.
Proof.
  induction s as [| c r IH]; [reflexivity |].
  cbn [append trimStart]. destruct (isWhiteSpace c); [exact IH | reflexivity].
Qed.

Lemma parseFloat_comma (s b : string) :
  parseFloat (s ++ String "," b) = parseFloat s.
Proof.
  unfold parseFloat. rewrite trimStart_comma.
  pose proof (readDecimalLiteral_comma (trimStart s) b) as H.
  destruct (readDecimalLiteral (trimStart s ++ String "," b)) as [[v r] |];
    destruct (readDecimalLiteral (trimStart s)) as [[v' r'] |];
    cbn [option_map fst] in H; congruence.
Qed.

Lemma removeChars_none (p : ascii -> bool) (s : string) :
  (forall c, p c = true -> includes s (String c "") = false) ->
  removeChars p s = s.
Proof.
  induction s as [| c r IH]; intro H; [reflexivity |].
  cbn [removeChars]. destruct (p c) eqn:Hc.
  - specialize (H c Hc). cbn [includes startsWith] in H.
    rewrite Ascii.eqb_refl in H. destruct r; discriminate H.
  - rewrite IH; [reflexivity |]. intros d Hd. specialize (H d Hd).
    cbn [includes] in H. apply orb_false_iff in H. apply H.
Qed.

(** X15. [parseCurrency] ignores commas wherever they stand, so a
    grouped amount such as "1,250.50" reads as 1250.5, and on text
    without commas it is [parseFloat]; it always yields a binary64
    number or [NaN].  [parseFloat] on its own stops at the first comma:
    whatever follows the comma is not read.  The amount parser of the
    upload agrees with [parseCurrency] on every cell text without
    parentheses of a row that is not a payment, [NaN] being replaced by
    0. *)
Theorem parseCurrency_ignores_commas :
  forall a b : string,
    parseCurrency (a ++ "," ++ b) = parseCurrency (a ++ b)
    /\ (includes a "," = false -> parseCurrency a = parseFloat a)
    /\ parseFloat (a ++ "," ++ b) = parseFloat a
    /\ valid_binary prec emax (parseCurrency a) = true
    /\ (forall typeString,
           parenthesised (VStr a) = false ->
           includes (toLowerCase typeString) "payment" = false ->
           rowAmount (VStr a) typeString
           = if isNaN (parseCurrency a) then zero else parseCurrency a).
Proof.
  intros a b. unfold parseCurrency.
  split; [| split; [| split; [| split]]].
  - rewrite !removeChars_app. reflexivity.
  - intro H. rewrite removeChars_none; [reflexivity |].
    intros c Hc. unfold isComma in Hc. apply Ascii.eqb_eq in Hc. subst c. exact H.
  - apply parseFloat_comma.
  - apply parseFloat_valid.
  - intros ts Hpar Hpay. rewrite (rowAmount_plain _ _ Hpar). cbv zeta.
    unfold isPaymentType. rewrite Hpay. cbn [andb].
    destruct a as [| c r]; [reflexivity |]. reflexivity.
Qed.

Lemma parseCurrency_ignores_commas_witness :
  parseCurrency "1,250.50" = parseFloat "1250.50"
  /\ parseFloat "1,250.50" = parseFloat "1"
  /\ rowAmount (VStr "1,250.50") "INV" = parseFloat "1250.50".
Proof.
  destruct (parseCurrency_ignores_commas "1" "250.50") as (H1 & _ & H3 & _).
  destruct (parseCurrency_ignores_commas "1,250.50" "") as (_ & _ & _ & _ & H5).
  split; [exact H1 | split; [exact H3 |]].
  rewrite H5; reflexivity.
Defined.

(** ** Checks by evaluation *)

Lemma allBelow_spec (f : Z -> bool) (n : Z) :
  0 <= n -> allBelow f n = true -> forall z, 0 <= z < n -> f z = true.
Proof.
  intros Hn. unfold allBelow. rewrite iter_nat_of_Z by exact Hn.
  set (step := fun st : Z * bool => (fst st + 1, snd st && f (fst st))).
  assert (Hinv : forall k,
             let st := nat_rect (fun _ => (Z * bool)%type) (0, true) (fun _ => step) k in
             fst st = Z.of_nat k
             /\ (snd st = true -> forall z, 0 <= z < Z.of_nat k -> f z = true)).
  { induction k as [| k IH]; cbn zeta.
    - split; [reflexivity |]. intros _ z Hz. cbn in Hz. lia.
    - cbn zeta in IH. destruct IH as [IH1 IH2]. cbn [nat_rect].
      unfold step at 1. cbn [fst snd]. rewrite IH1. split; [lia |].
      intro H. apply andb_true_iff in H. destruct H as [H1 H2].
      rewrite IH1 in H2. intros z Hz.
      destruct (Z.eq_dec z (Z.of_nat k)) as [-> | Hne]; [exact H2 |].
      apply IH2; [exact H1 | lia]. }
  intros H z Hz. destruct (Hinv (Z.abs_nat n)) as [_ H2].
  apply H2; [exact H |]. rewrite Zabs2Nat.id_abs, Z.abs_eq by exact Hn. exact Hz.
Qed.

Lemma numerals_checked :
  allBelow (numeralOk 4) 10000 = true /\ allBelow (numeralOk 2) 100 = true.
Proof. split; vm_cast_no_check (eq_refl true). Qed.

(** ** The calendar

    Day numbers and calendar days correspond one to one, in the same
    order.  The year is counted from the first of March, as the
    conversions do: [yoe] is the year of the 400-year era, [doy] the
    day of the year, [mp] the month counted from March. *)

Ltac div_lia := Z.div_mod_to_equations; lia.

Lemma isLeapYear_period (y k : Z) : isLeapYear (y + 400 * k) = isLeapYear y.
Proof.
  unfold isLeapYear.
  replace (y + 400 * k) with (y + (100 * k) * 4) at 1 by lia.
  replace (y + 400 * k) with (y + (4 * k) * 100) at 1 by lia.
  replace (y + 400 * k) with (y + k * 400) by lia.
  rewrite !Z.mod_add by lia. reflexivity.
Qed.

Lemma daysInMonth_bound (y m : Z) : 28 <= daysInMonth y m <= 31.
Proof.
  unfold daysInMonth.
  destruct (m =? 2); [destruct (isLeapYear y); lia |].
  destruct ((m =? 4) || (m =? 6) || (m =? 9) || (m =? 11)); lia.
Qed.

Lemma validDate_bounds (y m d : Z) :
  validDate y m d = true -> 1 <= m <= 12 /\ 1 <= d <= daysInMonth y m.
Proof. unfold validDate. lia. Qed.

(** The length of the year that starts in March of year [yoe] *)
Lemma leap_cases (y : Z) :
  (isLeapYear y = true /\ y / 4 - y / 100 + y / 400
                          = (y - 1) / 4 - (y - 1) / 100 + (y - 1) / 400 + 1)
  \/ (isLeapYear y = false /\ y / 4 - y / 100 + y / 400
                              = (y - 1) / 4 - (y - 1) / 100 + (y - 1) / 400).
Proof.
  unfold isLeapYear.
  destruct (Z.eqb_spec (y mod 4) 0); destruct (Z.eqb_spec (y mod 100) 0);
    destruct (Z.eqb_spec (y mod 400) 0); cbn [negb orb andb];
    first [ left; split; [reflexivity | div_lia]
          | right; split; [reflexivity | div_lia]
          | exfalso; div_lia ].
Qed.
(** Every day number is the day number of the calendar day it is
    turned into. *)
Lemma civilFromDays_spec (z : Z) :
  let '(y, m, d) := civilFromDays z in
  validDate y m d = true /\ daysFromCivil y m d = z.
Proof.
  unfold civilFromDays. cbv zeta.
  set (era := (z + 719468) / 146097).
  set (doe := z + 719468 - era * 146097).
  set (yoe := (doe - doe / 1460 + doe / 36524 - doe / 146096) / 365).
  set (doy := doe - (365 * yoe + yoe / 4 - yoe / 100)).
  set (mp := (5 * doy + 2) / 153).
  assert (Hdoe : 0 <= doe < 146097) by (unfold doe, era; div_lia).
  assert (Hyoe : 0 <= yoe < 400
                 /\ 365 * yoe + yoe / 4 - yoe / 100 + yoe / 400 <= doe
                 /\ doe < 365 * (yoe + 1) + (yoe + 1) / 4 - (yoe + 1) / 100
                          + (yoe + 1) / 400).
  { unfold yoe. clearbody doe. div_lia. }
  destruct Hyoe as (Hyoe & Hlo & Hhi).
  assert (Hz : z = era * 146097 + doe - 719468) by (unfold doe; lia).
  assert (Hleap : doy < 365 + (if isLeapYear (yoe + 1) then 1 else 0)).
  { unfold doy. clearbody yoe doe.
    destruct (leap_cases (yoe + 1)) as [[-> El] | [-> El]];
      replace (yoe + 1 - 1) with yoe in El by lia; div_lia. }
  assert (Hdoy : 0 <= doy) by (unfold doy; clearbody yoe doe; div_lia).
  assert (Hdef : doe = 365 * yoe + yoe / 4 - yoe / 100 + doy) by (unfold doy; lia).
  assert (Hmp : mp = (5 * doy + 2) / 153) by reflexivity.
  clearbody mp doy yoe doe era.
  assert (Hy : isLeapYear (yoe + era * 400 + 1) = isLeapYear (yoe + 1)).
  { replace (yoe + era * 400 + 1) with (yoe + 1 + 400 * era) by lia.
    apply isLeapYear_period. }
  assert (Hd366 : doy <= 365) by (destruct (isLeapYear (yoe + 1)); lia).
  assert (Hcases : mp = 0 \/ mp = 1 \/ mp = 2 \/ mp = 3 \/ mp = 4 \/ mp = 5 \/ mp = 6
                   \/ mp = 7 \/ mp = 8 \/ mp = 9 \/ mp = 10 \/ mp = 11) by div_lia.
  unfold validDate, daysInMonth, daysFromCivil. cbv zeta.
  destruct Hcases as [E | [E | [E | [E | [E | [E | [E | [E | [E | [E | [E | E]]]]]]]]]]];
    rewrite E in Hmp |- *; cbn [Z.ltb Z.leb Z.eqb Z.add Z.sub Z.compare Pos.compare
                                 Pos.compare_cont Z.opp Z.pos_sub Pos.add Pos.succ
                                 Pos.eqb orb Pos.pred_double Z.double Z.succ_double
                                 Z.pred_double Pos.add_carry];
    rewrite ?Hy;
    (split; [destruct (isLeapYear (yoe + 1)); div_lia | div_lia]).
Qed.
(** A calendar day, counted from March *)
Lemma daysFromCivil_march (y m d : Z) :
  validDate y m d = true ->
  exists y' mp doy,
    y' = (if m <=? 2 then y - 1 else y)
    /\ mp = (if 2 <? m then m - 3 else m + 9)
    /\ 0 <= mp <= 11
    /\ doy = (153 * mp + 2) / 5 + d - 1
    /\ 0 <= doy < 365 + (if isLeapYear (y' + 1) then 1 else 0)
    /\ (mp <= 10 -> (153 * mp + 2) / 5 + d <= (153 * (mp + 1) + 2) / 5)
    /\ daysFromCivil y m d
       = 365 * y' + y' / 4 - y' / 100 + y' / 400 + doy - 719468.
Proof.
  intro Hv. pose proof (validDate_bounds _ _ _ Hv) as [Hm Hd].
  exists (if m <=? 2 then y - 1 else y), (if 2 <? m then m - 3 else m + 9),
         ((153 * (if 2 <? m then m - 3 else m + 9) + 2) / 5 + d - 1).
  split; [reflexivity |]. split; [reflexivity |].
  unfold daysFromCivil. cbv zeta. unfold daysInMonth in Hd.
  assert (Hcases : m = 1 \/ m = 2 \/ m = 3 \/ m = 4 \/ m = 5 \/ m = 6 \/ m = 7
                   \/ m = 8 \/ m = 9 \/ m = 10 \/ m = 11 \/ m = 12) by lia.
  destruct Hcases as [E | [E | [E | [E | [E | [E | [E | [E | [E | [E | [E | E]]]]]]]]]]];
    subst m;
    cbn [Z.ltb Z.leb Z.eqb Z.add Z.sub Z.compare Pos.compare Pos.compare_cont Z.opp
         Z.pos_sub Pos.add Pos.succ Pos.eqb orb Pos.pred_double Z.double
         Z.succ_double Z.pred_double Pos.add_carry] in Hd |- *;
    try replace (y - 1 + 1) with y by lia;
    (split; [lia |]); (split; [reflexivity |]);
    (split; [destruct (isLeapYear y); destruct (isLeapYear (y + 1)); div_lia |]);
    (split; [intros _; destruct (isLeapYear y); div_lia | div_lia]).
Qed.

(** A later calendar day has a larger day number. *)
Lemma daysFromCivil_increasing (y1 m1 d1 y2 m2 d2 : Z) :
  validDate y1 m1 d1 = true -> validDate y2 m2 d2 = true ->
  dateBefore (y1, m1, d1) (y2, m2, d2) = true ->
  daysFromCivil y1 m1 d1 < daysFromCivil y2 m2 d2.
Proof.
  intros V1 V2 Hb.
  pose proof (validDate_bounds _ _ _ V1) as [Hm1 Hd1].
  pose proof (validDate_bounds _ _ _ V2) as [Hm2 Hd2].
  destruct (daysFromCivil_march _ _ _ V1)
    as (y1' & mp1 & doy1 & Ey1 & Emp1 & Bmp1 & Edoy1 & Bdoy1 & Hnext1 & ->).
  destruct (daysFromCivil_march _ _ _ V2)
    as (y2' & mp2 & doy2 & Ey2 & Emp2 & Bmp2 & Edoy2 & Bdoy2 & Hnext2 & ->).
  assert (Hlex : y1' < y2' \/ (y1' = y2' /\ (mp1 < mp2 \/ (mp1 = mp2 /\ d1 < d2)))).
  { unfold dateBefore in Hb. subst y1' y2' mp1 mp2.
    destruct (Z.leb_spec m1 2), (Z.leb_spec m2 2), (Z.ltb_spec 2 m1), (Z.ltb_spec 2 m2);
      lia. }
  assert (Hd2' : 1 <= d2) by lia.
  clear Hb Ey1 Ey2 Emp1 Emp2 V1 V2 Hd1 Hd2 Hm1 Hm2.
  destruct Hlex as [Hy | [-> [Hmp | [-> Hd]]]].
  - destruct (leap_cases (y1' + 1)) as [[El Hl] | [El Hl]];
      rewrite El in Bdoy1; replace (y1' + 1 - 1) with y1' in Hl by lia;
      clear Edoy1 Edoy2 Hnext1 Hnext2 El; div_lia.
  - subst doy1 doy2. specialize (Hnext1 ltac:(lia)).
    assert (Hmono : (153 * (mp1 + 1) + 2) / 5 <= (153 * mp2 + 2) / 5) by div_lia.
    lia.
  - subst doy1 doy2. lia.
Qed.

Lemma dateBefore_trans (a b c : Z * Z * Z) :
  dateBefore a b = true -> dateBefore b c = true -> dateBefore a c = true.
Proof.
  destruct a as [[y1 m1] d1], b as [[y2 m2] d2], c as [[y3 m3] d3].
  unfold dateBefore. lia.
Qed.

Lemma dateBefore_irrefl (a : Z * Z * Z) : dateBefore a a = false.
Proof. destruct a as [[y m] d]. unfold dateBefore. lia. Qed.

Lemma dateBefore_total (y1 m1 d1 y2 m2 d2 : Z) :
  dateBefore (y1, m1, d1) (y2, m2, d2) = false ->
  dateBefore (y2, m2, d2) (y1, m1, d1) = false ->
  (y1, m1, d1) = (y2, m2, d2).
Proof.
  unfold dateBefore. intros H1 H2.
  assert (y1 = y2 /\ m1 = m2 /\ d1 = d2) as (-> & -> & ->) by lia. reflexivity.
Qed.

(** Calendar days are ordered as their day numbers. *)
Lemma daysFromCivil_order (y1 m1 d1 y2 m2 d2 : Z) :
  validDate y1 m1 d1 = true -> validDate y2 m2 d2 = true ->
  dateBefore (y1, m1, d1) (y2, m2, d2)
  = (daysFromCivil y1 m1 d1 <? daysFromCivil y2 m2 d2).
Proof.
  intros V1 V2.
  destruct (dateBefore (y1, m1, d1) (y2, m2, d2)) eqn:H12.
  - pose proof (daysFromCivil_increasing _ _ _ _ _ _ V1 V2 H12). lia.
  - destruct (dateBefore (y2, m2, d2) (y1, m1, d1)) eqn:H21.
    + pose proof (daysFromCivil_increasing _ _ _ _ _ _ V2 V1 H21). lia.
    + pose proof (dateBefore_total _ _ _ _ _ _ H12 H21) as E.
      injection E as -> -> ->. lia.
Qed.

(** The day number of a calendar day is turned back into that day. *)
Lemma civilFromDays_daysFromCivil (y m d : Z) :
  validDate y m d = true -> civilFromDays (daysFromCivil y m d) = (y, m, d).
Proof.
  intro Hv. pose proof (civilFromDays_spec (daysFromCivil y m d)) as Hs.
  destruct (civilFromDays (daysFromCivil y m d)) as [[y' m'] d'].
  destruct Hs as [Hv' He].
  apply dateBefore_total.
  - rewrite (daysFromCivil_order _ _ _ _ _ _ Hv' Hv). lia.
  - rewrite (daysFromCivil_order _ _ _ _ _ _ Hv Hv'). lia.
Qed.

Lemma civilFromDays_increasing (z1 z2 : Z) :
  z1 < z2 -> dateBefore (civilFromDays z1) (civilFromDays z2) = true.
Proof.
  intro H.
  pose proof (civilFromDays_spec z1) as S1. pose proof (civilFromDays_spec z2) as S2.
  destruct (civilFromDays z1) as [[y1 m1] d1], (civilFromDays z2) as [[y2 m2] d2].
  destruct S1 as [V1 E1], S2 as [V2 E2].
  rewrite (daysFromCivil_order _ _ _ _ _ _ V1 V2). lia.
Qed.

(** ** Decimal numerals *)

Lemma isDigit_code (c : ascii) : isDigit c = true -> 0 <= charCode c - 48 <= 9.
Proof. unfold isDigit. lia. Qed.

Lemma digitsValue_acc (s : string) (acc : Z) :
  digitsValue acc s = acc * 10 ^ Z.of_nat (String.length s) + digitsValue 0 s.
Proof.
  revert acc. induction s as [| c s IH]; intro acc; cbn [digitsValue String.length].
  - cbn. lia.
  - rewrite (IH (10 * acc + (charCode c - 48))), (IH (10 * 0 + (charCode c - 48))).
    rewrite Nat2Z.inj_succ, Z.pow_succ_r by lia. lia.
Qed.

Lemma digitsValue_bound (s : string) :
  allDigits s = true -> 0 <= digitsValue 0 s < 10 ^ Z.of_nat (String.length s).
Proof.
  induction s as [| c s IH]; intro H.
  - cbn. lia.
  - rewrite allDigits_cons in H. apply andb_true_iff in H. destruct H as [Hc Hs].
    specialize (IH Hs). pose proof (isDigit_code _ Hc) as Hd.
    cbn [digitsValue String.length]. rewrite digitsValue_acc.
    rewrite Nat2Z.inj_succ, Z.pow_succ_r by lia.
    set (P := 10 ^ Z.of_nat (String.length s)) in *. nia.
Qed.

Lemma ascii_compare_code (a b : ascii) :
  Ascii.compare a b = (charCode a ?= charCode b).
Proof. unfold Ascii.compare, charCode. symmetry. apply N2Z.inj_compare. Qed.

(** Numerals of the same length are ordered as the numbers they
    denote. *)
Lemma compare_digits (X Y r1 r2 : string) :
  String.length X = String.length Y ->
  allDigits X = true -> allDigits Y = true ->
  String.compare (X ++ r1) (Y ++ r2)
  = match digitsValue 0 X ?= digitsValue 0 Y with
    | Eq => String.compare r1 r2
    | c => c
    end.
Proof.
  revert Y. induction X as [| a X IH]; intros [| b Y] Hlen HX HY;
    try discriminate Hlen.
  - reflexivity.
  - rewrite allDigits_cons in HX, HY.
    apply andb_true_iff in HX, HY. destruct HX as [Ha HX], HY as [Hb HY].
    injection Hlen as Hlen.
    pose proof (digitsValue_bound _ HX) as BX. pose proof (digitsValue_bound _ HY) as BY.
    pose proof (isDigit_code _ Ha) as Da. pose proof (isDigit_code _ Hb) as Db.
    cbn [append String.compare digitsValue].
    rewrite (digitsValue_acc X), (digitsValue_acc Y), (IH Y Hlen HX HY).
    rewrite ascii_compare_code. rewrite <- Hlen in *.
    set (P := 10 ^ Z.of_nat (String.length X)) in *.
    set (vx := digitsValue 0 X) in *. set (vy := digitsValue 0 Y) in *.
    destruct (Z.compare_spec (charCode a) (charCode b)) as [E | L | G].
    + rewrite E.
      destruct (Z.compare_spec vx vy) as [E' | L' | G'];
        destruct (Z.compare_spec ((10 * 0 + (charCode b - 48)) * P + vx)
                                 ((10 * 0 + (charCode b - 48)) * P + vy));
        try reflexivity; lia.
    + destruct (Z.compare_spec ((10 * 0 + (charCode a - 48)) * P + vx)
                               ((10 * 0 + (charCode b - 48)) * P + vy));
        try reflexivity; nia.
    + destruct (Z.compare_spec ((10 * 0 + (charCode a - 48)) * P + vx)
                               ((10 * 0 + (charCode b - 48)) * P + vy));
        try reflexivity; nia.
Qed.

Lemma digits_unique (X Y : string) :
  String.length X = String.length Y ->
  allDigits X = true -> allDigits Y = true ->
  digitsValue 0 X = digitsValue 0 Y -> X = Y.
Proof.
  intros Hlen HX HY Hv. apply String.compare_eq_iff.
  pose proof (compare_digits X Y "" "" Hlen HX HY) as H.
  rewrite !append_empty_r, Hv, Z.compare_refl in H. exact H.
Qed.

Lemma numeral_4 (n : Z) :
  0 <= n < 10000 ->
  String.length (padZeros 4 (decimalString n)) = 4%nat
  /\ allDigits (padZeros 4 (decimalString n)) = true
  /\ digitsValue 0 (padZeros 4 (decimalString n)) = n.
Proof.
  intro Hn.
  pose proof (allBelow_spec (numeralOk 4) 10000 ltac:(lia)
                (proj1 numerals_checked) n Hn) as H.
  unfold numeralOk in H. cbv zeta in H.
  apply andb_true_iff in H. destruct H as [H H3].
  apply andb_true_iff in H. destruct H as [H1 H2].
  apply Nat.eqb_eq in H1. apply Z.eqb_eq in H3. auto.
Qed.

Lemma numeral_2 (n : Z) :
  0 <= n < 100 ->
  String.length (padZeros 2 (decimalString n)) = 2%nat
  /\ allDigits (padZeros 2 (decimalString n)) = true
  /\ digitsValue 0 (padZeros 2 (decimalString n)) = n.
Proof.
  intro Hn.
  pose proof (allBelow_spec (numeralOk 2) 100 ltac:(lia)
                (proj2 numerals_checked) n Hn) as H.
  unfold numeralOk in H. cbv zeta in H.
  apply andb_true_iff in H. destruct H as [H H3].
  apply andb_true_iff in H. destruct H as [H1 H2].
  apply Nat.eqb_eq in H1. apply Z.eqb_eq in H3. auto.
Qed.

(** ** Canonical date strings *)

Lemma splitCanonical_build (Y M D : string) :
  String.length Y = 4%nat -> String.length M = 2%nat -> String.length D = 2%nat ->
  allDigits Y = true -> allDigits M = true -> allDigits D = true ->
  splitCanonical (Y ++ String "-" (M ++ String "-" D))
  = Some (digitsValue 0 Y, digitsValue 0 M, digitsValue 0 D).
Proof.
  intros LY LM LD HY HM HD.
  destruct Y as [| y0 [| y1 [| y2 [| y3 [| y4 Y]]]]]; try discriminate LY.
  destruct M as [| m0 [| m1 [| m2 M]]]; try discriminate LM.
  destruct D as [| d0 [| d1 [| d2 D]]]; try discriminate LD.
  unfold splitCanonical.
  cbn [append takeChars dropChars String.length Nat.eqb startsWith].
  rewrite HY, HM, HD, !Ascii.eqb_refl. reflexivity.
Qed.

Lemma splitCanonical_shape (s : string) (y m d : Z) :
  splitCanonical s = Some (y, m, d) ->
  exists Y M D,
    s = Y ++ String "-" (M ++ String "-" D)
    /\ String.length Y = 4%nat /\ String.length M = 2%nat /\ String.length D = 2%nat
    /\ allDigits Y = true /\ allDigits M = true /\ allDigits D = true
    /\ y = digitsValue 0 Y /\ m = digitsValue 0 M /\ d = digitsValue 0 D.
Proof.
  unfold splitCanonical.
  destruct s as [| c0 [| c1 [| c2 [| c3 [| c4 [| c5 [| c6 [| c7 [| c8 [| c9 [| c10 s]]]]]]]]]]];
    cbn [String.length Nat.eqb andb]; try discriminate.
  cbn [takeChars dropChars startsWith].
  destruct (allDigits (String c0 (String c1 (String c2 (String c3 ""))))) eqn:HY;
    [| discriminate].
  destruct (allDigits (String c5 (String c6 ""))) eqn:HM; [| discriminate].
  destruct (allDigits (String c8 (String c9 ""))) eqn:HD; [| discriminate].
  cbn [andb].
  destruct (Ascii.eqb_spec "-" c4) as [<- |]; [| discriminate].
  destruct (Ascii.eqb_spec "-" c7) as [<- |]; [| discriminate].
  cbn [andb]. intro H. injection H as <- <- <-.
  exists (String c0 (String c1 (String c2 (String c3 "")))),
         (String c5 (String c6 "")), (String c8 (String c9 "")).
  repeat split; assumption.
Qed.

Lemma isCanonicalDate_valid (s : string) :
  isCanonicalDate s
  = match splitCanonical s with
    | Some (y, m, d) => validDate y m d
    | None => false
    end.
Proof. reflexivity. Qed.

Lemma civilFromDays_first : civilFromDays (-719528) = (0, 1, 1).
Proof. reflexivity. Qed.

Lemma civilFromDays_last : civilFromDays 2932896 = (9999, 12, 31).
Proof. reflexivity. Qed.

Lemma fourDigitYear_days (t : Z) :
  fourDigitYear t = true <-> -719528 <= t / msPerDay <= 2932896.
Proof.
  unfold fourDigitYear, msPerDay. split.
  - intro H. split.
    + apply Z.div_le_lower_bound; lia.
    + assert (Hlt : t / 86400000 < 2932897) by (apply Z.div_lt_upper_bound; lia). lia.
  - intros [H1 H2].
    pose proof (Z.div_mod t 86400000 ltac:(lia)) as Hdm.
    pose proof (Z.mod_pos_bound t 86400000 ltac:(lia)) as Hb. lia.
Qed.

Lemma fourDigitYear_civil (z : Z) :
  -719528 <= z <= 2932896 ->
  let '(y, m, d) := civilFromDays z in 0 <= y <= 9999.
Proof.
  intros [H1 H2].
  pose proof (civilFromDays_spec z) as Hs.
  destruct (civilFromDays z) as [[y m] d] eqn:E.
  destruct Hs as (Hv & _). apply validDate_bounds in Hv.
  split.
  - destruct (Z.eq_dec z (-719528)) as [-> | Hne].
    + rewrite civilFromDays_first in E. injection E as <- _ _. lia.
    + assert (Hlt : -719528 < z) by lia.
      apply civilFromDays_increasing in Hlt.
      rewrite civilFromDays_first, E in Hlt. unfold dateBefore in Hlt. lia.
  - destruct (Z.eq_dec z 2932896) as [-> | Hne].
    + rewrite civilFromDays_last in E. injection E as <- _ _. lia.
    + assert (Hlt : z < 2932896) by lia.
      apply civilFromDays_increasing in Hlt.
      rewrite civilFromDays_last, E in Hlt. unfold dateBefore in Hlt. lia.
Qed.

(** The date string of a time value whose year has four digits is a
    canonical date, and reads back as the midnight before the time
    value. *)
Lemma toISODate_canonical (t : Z) :
  fourDigitYear t = true ->
  splitCanonical (toISODate t) = Some (civilFromDays (t / msPerDay))
  /\ isCanonicalDate (toISODate t) = true
  /\ Date_parse_canonical (toISODate t) = Some (t / msPerDay * msPerDay).
Proof.
  intro Ht. apply fourDigitYear_days in Ht.
  pose proof (fourDigitYear_civil _ Ht) as Hy.
  pose proof (civilFromDays_spec (t / msPerDay)) as Hs.
  assert (Hsplit : splitCanonical (toISODate t) = Some (civilFromDays (t / msPerDay))).
  { unfold toISODate.
    destruct (civilFromDays (t / msPerDay)) as [[y m] d].
    destruct Hs as (Hv & _). pose proof (validDate_bounds _ _ _ Hv) as [Hm Hd].
    pose proof (daysInMonth_bound y m) as Hdm.
    replace ((0 <=? y) && (y <=? 9999)) with true by lia.
    destruct (numeral_4 y ltac:(lia)) as (L1 & A1 & V1).
    destruct (numeral_2 m ltac:(lia)) as (L2 & A2 & V2).
    destruct (numeral_2 d ltac:(lia)) as (L3 & A3 & V3).
    change (padZeros 4 (decimalString y) ++ "-" ++ padZeros 2 (decimalString m)
            ++ "-" ++ padZeros 2 (decimalString d))
      with (padZeros 4 (decimalString y)
            ++ String "-" (padZeros 2 (decimalString m)
                           ++ String "-" (padZeros 2 (decimalString d)))).
    rewrite splitCanonical_build by assumption. rewrite V1, V2, V3. reflexivity. }
  split; [exact Hsplit |].
  unfold Date_parse_canonical. rewrite isCanonicalDate_valid, Hsplit.
  destruct (civilFromDays (t / msPerDay)) as [[y m] d].
  destruct Hs as (Hv & Hd). rewrite Hv, Hd. split; reflexivity.
Qed.

(** A canonical date is the date string of its own time value. *)
Lemma canonical_toISODate (s : string) :
  isCanonicalDate s = true ->
  exists y m d,
    splitCanonical s = Some (y, m, d)
    /\ validDate y m d = true
    /\ Date_parse_canonical s = Some (daysFromCivil y m d * msPerDay)
    /\ fourDigitYear (daysFromCivil y m d * msPerDay) = true
    /\ toISODate (daysFromCivil y m d * msPerDay) = s.
Proof.
  intro Hc. pose proof Hc as Hc'. rewrite isCanonicalDate_valid in Hc'.
  destruct (splitCanonical s) as [[[y m] d] |] eqn:Hsplit; [| discriminate].
  exists y, m, d. split; [reflexivity |]. split; [exact Hc' |].
  destruct (splitCanonical_shape _ _ _ _ Hsplit)
    as (Y & M & D & Hs & LY & LM & LD & AY & AM & AD & Ey & Em & Ed).
  pose proof (digitsValue_bound _ AY) as BY. rewrite LY in BY.
  pose proof (digitsValue_bound _ AM) as BM. rewrite LM in BM.
  pose proof (digitsValue_bound _ AD) as BD. rewrite LD in BD.
  rewrite <- Ey in BY. rewrite <- Em in BM. rewrite <- Ed in BD.
  change (10 ^ Z.of_nat 4) with 10000 in BY.
  change (10 ^ Z.of_nat 2) with 100 in BM, BD.
  pose proof (validDate_bounds _ _ _ Hc') as [Hm Hd].
  assert (Hdays : -719528 <= daysFromCivil y m d <= 2932896).
  { assert (V0 : validDate 0 1 1 = true) by reflexivity.
    assert (V9 : validDate 9999 12 31 = true) by reflexivity.
    pose proof (daysFromCivil_order _ _ _ _ _ _ Hc' V0) as H1.
    pose proof (daysFromCivil_order _ _ _ _ _ _ V9 Hc') as H2.
    change (daysFromCivil 0 1 1) with (-719528) in H1.
    change (daysFromCivil 9999 12 31) with 2932896 in H2.
    pose proof (daysInMonth_bound y m) as Hdm.
    unfold dateBefore in H1, H2. lia. }
  assert (Hdiv : daysFromCivil y m d * msPerDay / msPerDay = daysFromCivil y m d)
    by (apply Z.div_mul; discriminate).
  split; [| split].
  - unfold Date_parse_canonical. rewrite Hsplit, Hc. reflexivity.
  - apply fourDigitYear_days. rewrite Hdiv. exact Hdays.
  - unfold toISODate. rewrite Hdiv, (civilFromDays_daysFromCivil _ _ _ Hc').
    replace ((0 <=? y) && (y <=? 9999)) with true by lia.
    destruct (numeral_4 y ltac:(lia)) as (L1 & A1 & V1).
    destruct (numeral_2 m ltac:(lia)) as (L2 & A2 & V2).
    destruct (numeral_2 d ltac:(lia)) as (L3 & A3 & V3).
    rewrite (digits_unique (padZeros 4 (decimalString y)) Y) by congruence.
    rewrite (digits_unique (padZeros 2 (decimalString m)) M) by congruence.
    rewrite (digits_unique (padZeros 2 (decimalString d)) D) by congruence.
    rewrite Hs. reflexivity.
Qed.

(** Canonical dates are ordered, as strings, like the days they
    denote. *)
Lemma canonical_order (s1 s2 : string) (y1 m1 d1 y2 m2 d2 : Z) :
  splitCanonical s1 = Some (y1, m1, d1) ->
  splitCanonical s2 = Some (y2, m2, d2) ->
  (s1 <=? s2)%string = negb (dateBefore (y2, m2, d2) (y1, m1, d1)).
Proof.
  intros H1 H2.
  destruct (splitCanonical_shape _ _ _ _ H1)
    as (Y1 & M1 & D1 & -> & LY1 & LM1 & LD1 & AY1 & AM1 & AD1 & -> & -> & ->).
  destruct (splitCanonical_shape _ _ _ _ H2)
    as (Y2 & M2 & D2 & -> & LY2 & LM2 & LD2 & AY2 & AM2 & AD2 & -> & -> & ->).
  unfold String.leb.
  rewrite (compare_digits Y1 Y2) by congruence.
  cbn [String.compare]. change (Ascii.compare "-" "-") with Eq. cbv iota.
  rewrite (compare_digits M1 M2) by congruence.
  cbn [String.compare]. change (Ascii.compare "-" "-") with Eq. cbv iota.
  rewrite <- (append_empty_r D1), <- (append_empty_r D2).
  rewrite (compare_digits D1 D2) by congruence.
  rewrite !append_empty_r. cbn [String.compare].
  unfold dateBefore.
  destruct (Z.compare_spec (digitsValue 0 Y1) (digitsValue 0 Y2));
    destruct (Z.compare_spec (digitsValue 0 M1) (digitsValue 0 M2));
    destruct (Z.compare_spec (digitsValue 0 D1) (digitsValue 0 D2)); lia.
Qed.

(** ** Dates that [parseDate] returns *)

Lemma digit_not_separator (c : ascii) : isDigit c = true -> isDateSeparator c = false.
Proof.
  intro H. destruct (isDateSeparator c) eqn:E; [| reflexivity].
  rewrite (separator_not_digit _ E) in H. discriminate H.
Qed.

Lemma canonical_chars (s : string) (y m d : Z) :
  splitCanonical s = Some (y, m, d) ->
  exists c0 c1 c2 c3 c5 c6 c8 c9,
    s = String c0 (String c1 (String c2 (String c3 (String "-"
          (String c5 (String c6 (String "-" (String c8 (String c9 "")))))))))
    /\ isDigit c0 = true /\ isDigit c1 = true /\ isDigit c2 = true
    /\ isDigit c3 = true /\ isDigit c5 = true /\ isDigit c6 = true
    /\ isDigit c8 = true /\ isDigit c9 = true.
Proof.
  intro H.
  destruct (splitCanonical_shape _ _ _ _ H)
    as (Y & M & D & -> & LY & LM & LD & AY & AM & AD & _).
  destruct Y as [| y0 [| y1 [| y2 [| y3 [| y4 Y]]]]]; try discriminate LY.
  destruct M as [| m0 [| m1 [| m2 M]]]; try discriminate LM.
  destruct D as [| d0 [| d1 [| d2 D]]]; try discriminate LD.
  rewrite !allDigits_cons in AY. rewrite !allDigits_cons in AM.
  rewrite !allDigits_cons in AD.
  exists y0, y1, y2, y3, m0, m1, d0, d1. cbn [append].
  apply andb_true_iff in AY. destruct AY as [Y0 AY].
  apply andb_true_iff in AY. destruct AY as [Y1 AY].
  apply andb_true_iff in AY. destruct AY as [Y2 AY].
  apply andb_true_iff in AY. destruct AY as [Y3 _].
  apply andb_true_iff in AM. destruct AM as [M0 AM].
  apply andb_true_iff in AM. destruct AM as [M1 _].
  apply andb_true_iff in AD. destruct AD as [D0 AD].
  apply andb_true_iff in AD. destruct AD as [D1 _].
  split; [reflexivity |]. auto 10.
Qed.

Lemma canonical_trim (s : string) (y m d : Z) :
  splitCanonical s = Some (y, m, d) -> trim s = s /\ matchDMY s = None /\ s <> "".
Proof.
  intro H.
  destruct (canonical_chars _ _ _ _ H)
    as (c0 & c1 & c2 & c3 & c5 & c6 & c8 & c9 & -> & H0 & H1 & H2 & H3 & H5 & H6 & H8 & H9).
  split; [| split; [| discriminate]].
  - unfold trim. rewrite (trimStart_keeps _ _ (digit_not_white _ H0)).
    repeat (rewrite trimEnd_keeps
              by (reflexivity || (apply digit_not_white; assumption))).
    reflexivity.
  - unfold matchDMY. rewrite (oneOrTwoDigits_two _ _ _ H0 H1).
    cbn [separator]. rewrite (digit_not_separator _ H2). reflexivity.
Qed.

Lemma fourDigitYear_timeClip (t : Z) :
  fourDigitYear t = true -> timeClip (Some t) = Some t.
Proof.
  unfold fourDigitYear, timeClip. intro H.
  replace (Z.abs t <=? 8640000000000000) with true by lia. reflexivity.
Qed.

(** X16. A valid calendar date in the canonical form YYYY-MM-DD is
    returned unchanged by [parseDate], on every host whose date parser
    reads such a string as that day at midnight UTC (as the language
    standard requires).  In particular [parseDate] applied to a
    canonical date that it returned gives the same date again. *)
Theorem parseDate_keeps_canonical_dates :
  forall (Date_parse : string -> option Z) (now : Z) (s : string),
    isCanonicalDate s = true ->
    Date_parse s = Date_parse_canonical s ->
    parseDate Date_parse now (VStr s) = s.
Proof.
  intros DP now s Hc Hhost.
  destruct (canonical_toISODate s Hc) as (y & m & d & Hsplit & Hv & Hp & Hf & Hiso).
  destruct (canonical_trim _ _ _ _ Hsplit) as (Ht & Hm & Hne).
  rewrite (parseDate_string DP now s Hne), Ht, Hm, Hhost, Hp.
  rewrite (fourDigitYear_timeClip _ Hf). exact Hiso.
Qed.

Lemma parseDate_keeps_canonical_dates_witness :
  parseDate Date_parse_canonical 1706745600000 (VStr "2024-02-29") = "2024-02-29".
Proof.
  apply (parseDate_keeps_canonical_dates Date_parse_canonical 1706745600000 "2024-02-29");
    reflexivity.
Defined.

(** The groups of a match of the day-month-year pattern *)
Lemma matchDMY_Some (s day month year : string) :
  matchDMY s = Some (day, month, year) ->
  digitGroup 1 2 day = true /\ digitGroup 1 2 month = true
  /\ digitGroup 4 4 year = true.
Proof.
  assert (H12 : forall r g r', oneOrTwoDigits r = Some (g, r') -> digitGroup 1 2 g = true).
  { intros r g r'. unfold oneOrTwoDigits.
    destruct r as [| a [| b r]]; [discriminate | |].
    - destruct (isDigit a) eqn:Ha; [| discriminate].
      intro H. injection H as <- _. unfold digitGroup. rewrite allDigits_cons, Ha.
      reflexivity.
    - destruct (isDigit a) eqn:Ha; [| discriminate].
      destruct (isDigit b) eqn:Hb; intro H; injection H as <- _;
        unfold digitGroup; rewrite !allDigits_cons, Ha, ?Hb; reflexivity. }
  unfold matchDMY.
  destruct (oneOrTwoDigits s) as [[g1 r1] |] eqn:E1; [| discriminate].
  destruct (separator r1) as [r2 |]; [| discriminate].
  destruct (oneOrTwoDigits r2) as [[g2 r3] |] eqn:E2; [| discriminate].
  destruct (separator r3) as [r4 |]; [| discriminate].
  unfold fourDigits. cbv zeta. remember (takeChars 4 r4) as yy eqn:Eyy. clear Eyy.
  destruct ((String.length yy =? 4)%nat && allDigits yy) eqn:E4; [| discriminate].
  intro H. injection H as <- <- <-.
  split; [exact (H12 _ _ _ E1) |]. split; [exact (H12 _ _ _ E2) |].
  apply andb_true_iff in E4. destruct E4 as [L4 A4]. apply Nat.eqb_eq in L4.
  unfold digitGroup. rewrite L4, A4. reflexivity.
Qed.

Lemma padStart2_group (g : string) :
  digitGroup 1 2 g = true ->
  String.length (padStart2 g) = 2%nat
  /\ allDigits (padStart2 g) = true
  /\ digitsValue 0 (padStart2 g) = digitsValue 0 g.
Proof.
  intro H.
  destruct (digitGroup_1_2 _ H) as [(a & -> & Ha) | (a & b & -> & Ha & Hb)].
  - cbn [padStart2]. rewrite !allDigits_cons, Ha. repeat split.
  - cbn [padStart2]. rewrite !allDigits_cons, Ha, Hb. repeat split.
Qed.

Lemma dmy_result_canonical (day month year : string) :
  digitGroup 1 2 day = true -> digitGroup 1 2 month = true ->
  digitGroup 4 4 year = true ->
  isCanonicalDate (year ++ "-" ++ padStart2 month ++ "-" ++ padStart2 day)
  = validDate (digitsValue 0 year) (digitsValue 0 month) (digitsValue 0 day).
Proof.
  intros Hd Hm Hy.
  destruct (padStart2_group _ Hd) as (Ld & Ad & Vd).
  destruct (padStart2_group _ Hm) as (Lm & Am & Vm).
  assert (Ly : String.length year = 4%nat /\ allDigits year = true).
  { unfold digitGroup in Hy.
    apply andb_true_iff in Hy. destruct Hy as [Hy Ay].
    apply andb_true_iff in Hy. destruct Hy as [H1 H2].
    apply Nat.leb_le in H1, H2. split; [lia | exact Ay]. }
  destruct Ly as [Ly Ay].
  change (year ++ "-" ++ padStart2 month ++ "-" ++ padStart2 day)
    with (year ++ String "-" (padStart2 month ++ String "-" (padStart2 day))).
  rewrite isCanonicalDate_valid, splitCanonical_build by assumption.
  rewrite Vd, Vm. reflexivity.
Qed.

(** X17. When [parseDate] returns a valid calendar date.  Suppose the
    clock reading, the date that the host parser makes of the text and
    the date of a spreadsheet serial number all lie in the years 0000
    to 9999.  Then the result of [parseDate] is a valid date in the
    canonical form YYYY-MM-DD in every case but one: when the text
    matches the day-month-year pattern, the result is a valid date
    exactly when the three groups, read as day, month and year, name a
    day of the calendar. *)
Theorem parseDate_result_is_a_date :
  forall (Date_parse : string -> option Z) (now : Z) (val : value),
    fourDigitYear now = true ->
    (forall t, timeClip (Date_parse (trim (String_of val))) = Some t ->
               fourDigitYear t = true) ->
    (forall n t, val = VNum n ->
                 timeClip (Math_round (b64_mul (b64_mul (b64_sub n (ofZ 25569))
                                                        (ofZ 86400)) (ofZ 1000)))
                 = Some t ->
                 fourDigitYear t = true) ->
    match matchDMY (trim (String_of val)) with
    | Some (day, month, year) =>
        truthy val = true -> serialDate val = None ->
        parseDate Date_parse now val
        = year ++ "-" ++ padStart2 month ++ "-" ++ padStart2 day
        /\ isCanonicalDate (parseDate Date_parse now val)
           = validDate (digitsValue 0 year) (digitsValue 0 month) (digitsValue 0 day)
    | None => isCanonicalDate (parseDate Date_parse now val) = true
    end
    /\ (truthy val = false -> parseDate Date_parse now val = toISODate now)
    /\ (truthy val = false \/ serialDate val <> None ->
        isCanonicalDate (parseDate Date_parse now val) = true).
Proof.
  intros DP now val Hnow Hhost Hserial.
  assert (Hnow' : isCanonicalDate (toISODate now) = true)
    by apply (toISODate_canonical now Hnow).
  assert (Hser : forall iso, serialDate val = Some iso -> isCanonicalDate iso = true).
  { intros iso. unfold serialDate. destruct val as [| | b | n | s]; try discriminate.
    destruct (timeClip (Math_round _)) as [t |] eqn:E; [| discriminate].
    intro H. injection H as <-.
    apply (toISODate_canonical t). exact (Hserial n t eq_refl E). }
  assert (Hgen : match timeClip (DP (trim (String_of val))) with
                 | Some t => isCanonicalDate (toISODate t) = true
                 | None => True
                 end).
  { destruct (timeClip (DP (trim (String_of val)))) as [t |] eqn:E; [| exact I].
    apply (toISODate_canonical t). apply Hhost. reflexivity. }
  split; [| split].
  - unfold parseDate.
    destruct (matchDMY (trim (String_of val))) as [[[day month] year] |] eqn:Hm.
    + intros Ht Hs. rewrite Ht, Hs. cbn [negb]. split; [reflexivity |].
      destruct (matchDMY_Some _ _ _ _ Hm) as (Hd & Hmo & Hy).
      apply dmy_result_canonical; assumption.
    + destruct (truthy val); cbn [negb]; [| exact Hnow'].
      destruct (serialDate val) as [iso |] eqn:Hs; [apply Hser; reflexivity |].
      destruct (timeClip (DP (trim (String_of val)))); [exact Hgen | exact Hnow'].
  - intro Ht. unfold parseDate. rewrite Ht. reflexivity.
  - intros [Ht | Hs]; unfold parseDate.
    + rewrite Ht. exact Hnow'.
    + destruct (truthy val); cbn [negb]; [| exact Hnow'].
      destruct (serialDate val) as [iso |]; [apply Hser; reflexivity | congruence].
Qed.

Lemma parseDate_result_is_a_date_witness :
  isCanonicalDate (parseDate Date_parse_canonical 1706745600000 (VStr "29/02/2024"))
  = true
  /\ isCanonicalDate (parseDate Date_parse_canonical 1706745600000 (VStr "29/02/2023"))
     = false
  /\ isCanonicalDate (parseDate Date_parse_canonical 1706745600000 (VStr "next week"))
     = true.
Proof.
  assert (Hhost : forall (val : value) (t : Z),
             timeClip (Date_parse_canonical (trim (String_of val))) = Some t ->
             fourDigitYear t = true).
  { intros val t H. unfold Date_parse_canonical in H.
    destruct (splitCanonical (trim (String_of val))) as [[[y m] d] |] eqn:E;
      [| discriminate].
    destruct (isCanonicalDate (trim (String_of val))) eqn:Hc; [| discriminate].
    destruct (canonical_toISODate _ Hc) as (y' & m' & d' & E' & _ & _ & Hf & _).
    rewrite E in E'. injection E' as <- <- <-.
    rewrite (fourDigitYear_timeClip _ Hf) in H. injection H as <-. exact Hf. }
  split; [| split].
  - destruct (parseDate_result_is_a_date Date_parse_canonical 1706745600000
                (VStr "29/02/2024") eq_refl (Hhost _)) as (H & _).
    + intros n t E. discriminate E.
    + destruct (H eq_refl eq_refl) as [_ ->]. reflexivity.
  - destruct (parseDate_result_is_a_date Date_parse_canonical 1706745600000
                (VStr "29/02/2023") eq_refl (Hhost _)) as (H & _).
    + intros n t E. discriminate E.
    + destruct (H eq_refl eq_refl) as [_ ->]. reflexivity.
  - destruct (parseDate_result_is_a_date Date_parse_canonical 1706745600000
                (VStr "next week") eq_refl (Hhost _)) as (H & _).
    + intros n t E. discriminate E.
    + exact H.
Defined.

(** ** The statement period *)

Lemma canonical_leb_time (s1 s2 : string) :
  isCanonicalDate s1 = true -> isCanonicalDate s2 = true ->
  exists t1 t2,
    Date_parse_canonical s1 = Some t1
    /\ Date_parse_canonical s2 = Some t2
    /\ (s1 <=? s2)%string = (t1 <=? t2).
Proof.
  intros H1 H2.
  destruct (canonical_toISODate s1 H1) as (y1 & m1 & d1 & S1 & V1 & P1 & _).
  destruct (canonical_toISODate s2 H2) as (y2 & m2 & d2 & S2 & V2 & P2 & _).
  exists (daysFromCivil y1 m1 d1 * msPerDay), (daysFromCivil y2 m2 d2 * msPerDay).
  split; [exact P1 |]. split; [exact P2 |].
  rewrite (canonical_order _ _ _ _ _ _ _ _ S1 S2).
  rewrite (daysFromCivil_order _ _ _ _ _ _ V2 V1).
  unfold msPerDay.
  destruct (Z.ltb_spec (daysFromCivil y2 m2 d2) (daysFromCivil y1 m1 d1));
    destruct (Z.leb_spec (daysFromCivil y1 m1 d1 * 86400000)
                         (daysFromCivil y2 m2 d2 * 86400000));
    try reflexivity; lia.
Qed.

(** X18. The period test of the statement compares date strings, not
    dates.  When the transaction date and the two ends of the period
    are valid dates in the canonical form YYYY-MM-DD, the comparison of
    the strings agrees with the calendar: the transaction is selected
    exactly when it belongs to the target customer and its day is not
    before the first day and not after the last day of the period. *)
Theorem period_test_follows_the_calendar :
  forall (selectedCustomer : string) (config : StatementConfig) (t : Transaction),
    isCanonicalDate (trxDate t) = true ->
    isCanonicalDate (startDate config) = true ->
    isCanonicalDate (endDate config) = true ->
    exists first day last,
      Date_parse_canonical (startDate config) = Some first
      /\ Date_parse_canonical (trxDate t) = Some day
      /\ Date_parse_canonical (endDate config) = Some last
      /\ inStatement selectedCustomer config t
         = (customerName t =? selectedCustomer)%string
           && (first <=? day) && (day <=? last).
Proof.
  intros cust cfg t Ht Hs He.
  destruct (canonical_leb_time _ _ Hs Ht) as (first & day & P1 & P2 & E1).
  destruct (canonical_leb_time _ _ Ht He) as (day' & last & P2' & P3 & E2).
  rewrite P2 in P2'. injection P2' as <-.
  exists first, day, last. repeat split; try assumption.
  unfold inStatement, forCustomer. rewrite E1, E2. reflexivity.
Qed.

Lemma period_test_follows_the_calendar_witness :
  inStatement "ACME" januaryConfig
    (mkTransaction (FileId 0 0) "2024-01-31" "" VNull VNull INV zero "ACME" None None)
  = true
  /\ inStatement "ACME" januaryConfig
       (mkTransaction (FileId 0 0) "2024-02-01" "" VNull VNull INV zero "ACME" None None)
     = false.
Proof.
  split.
  - destruct (period_test_follows_the_calendar "ACME" januaryConfig
                (mkTransaction (FileId 0 0) "2024-01-31" "" VNull VNull INV zero
                               "ACME" None None) eq_refl eq_refl eq_refl)
      as (first & day & last & P1 & P2 & P3 & ->).
    vm_compute in P1, P2, P3.
    injection P1 as <-. injection P2 as <-. injection P3 as <-. reflexivity.
  - destruct (period_test_follows_the_calendar "ACME" januaryConfig
                (mkTransaction (FileId 0 0) "2024-02-01" "" VNull VNull INV zero
                               "ACME" None None) eq_refl eq_refl eq_refl)
      as (first & day & last & P1 & P2 & P3 & ->).
    vm_compute in P1, P2, P3.
    injection P1 as <-. injection P2 as <-. injection P3 as <-. reflexivity.
Defined.

(** ** The merge stage and the order of the ledger *)

Lemma StronglySorted_among {A : Type} (R R' : A -> A -> Prop) (l : list A) :
  (forall a b, In a l -> In b l -> R a b -> R' a b) ->
  StronglySorted R l -> StronglySorted R' l.
Proof.
  intros Himp Hs. induction Hs as [| a l Hs IH Ha]; constructor.
  - apply IH. intros x y Hx Hy. apply Himp; right; assumption.
  - apply Forall_forall. intros b Hb. rewrite Forall_forall in Ha.
    apply Himp; [left; reflexivity | right; exact Hb | apply Ha, Hb].
Qed.

(** On a host that reads canonical dates as the language requires, the
    time of an entry with a canonical date is the midnight of its day. *)
Lemma getTime_canonical (Date_parse : string -> option Z) (e : LedgerEntry) :
  (forall s, isCanonicalDate s = true -> Date_parse s = Date_parse_canonical s) ->
  isCanonicalDate (trxDate (entry e)) = true ->
  exists y m d,
    splitCanonical (trxDate (entry e)) = Some (y, m, d)
    /\ validDate y m d = true
    /\ getTime Date_parse e = Some (daysFromCivil y m d * msPerDay).
Proof.
  intros Hhost Hc.
  destruct (canonical_toISODate _ Hc) as (y & m & d & Hs & Hv & Hp & Hf & _).
  exists y, m, d. split; [exact Hs |]. split; [exact Hv |].
  unfold getTime. rewrite (Hhost _ Hc), Hp. apply fourDigitYear_timeClip, Hf.
Qed.

Lemma keyLe_calendar (Date_parse : string -> option Z) (a b : LedgerEntry) :
  (forall s, isCanonicalDate s = true -> Date_parse s = Date_parse_canonical s) ->
  isCanonicalDate (trxDate (entry a)) = true ->
  isCanonicalDate (trxDate (entry b)) = true ->
  keyLe (getTime Date_parse) a b ->
  notDatedAfter a b
  /\ (trxDate (entry a) <=? trxDate (entry b))%string = true.
Proof.
  intros Hhost Ha Hb (x & y & Hx & Hy & Hxy).
  destruct (getTime_canonical _ _ Hhost Ha) as (y1 & m1 & d1 & S1 & V1 & T1).
  destruct (getTime_canonical _ _ Hhost Hb) as (y2 & m2 & d2 & S2 & V2 & T2).
  rewrite T1 in Hx. injection Hx as <-. rewrite T2 in Hy. injection Hy as <-.
  assert (Hbefore : dateBefore (y2, m2, d2) (y1, m1, d1) = false).
  { rewrite (daysFromCivil_order _ _ _ _ _ _ V2 V1). unfold msPerDay in Hxy.
    apply Z.ltb_ge. lia. }
  split.
  - exists (y1, m1, d1), (y2, m2, d2). auto.
  - rewrite (canonical_order _ _ _ _ _ _ _ _ S1 S2), Hbefore. reflexivity.
Qed.

(** C2 (as amended). The merge stage keeps exactly the file
    transactions of the target customer whose [trxDate] lies between
    [startDate] and [endDate] inclusive (the dates compared as
    strings), each retagged [INVOICE] with the absolute value of its
    [originalAmount] as rendering amount; it keeps the manual
    transactions by the same test, each retagged [PAYMENT] with the
    negated absolute value as rendering amount, never positive whatever
    the stored sign; the ledger holds these entries and no others, each
    as often as selected.  When the date of every selected entry is a
    date for the host, the ledger is in ascending order of time, entries
    of one time in the order invoices before payments, each group in
    input order; when the dates are valid dates in the form YYYY-MM-DD
    this is the order of the calendar, and of the date strings. *)
Theorem merge_stage :
  forall (Date_parse : string -> option Z)
         (fileTransactions manualTransactions : list Transaction)
         (selectedCustomer : string) (config : StatementConfig),
    let refTrx := refTrxOf manualTransactions selectedCustomer in
    let invoices := map (toInvoice refTrx)
                        (filter (inStatement selectedCustomer config) fileTransactions) in
    let payments := map toPayment
                        (filter (inStatement selectedCustomer config) manualTransactions) in
    let ledger := allTrxs Date_parse fileTransactions manualTransactions
                          selectedCustomer config in
    (forall t, inStatement selectedCustomer config t = true <->
               customerName t = selectedCustomer
               /\ (startDate config <=? trxDate t)%string = true
               /\ (trxDate t <=? endDate config)%string = true)
    /\ (forall t, trxType (entry (toInvoice refTrx t)) = INVOICE
                  /\ calculatedAmount (toInvoice refTrx t) = Math_abs (originalAmount t)
                  /\ b64_lt (calculatedAmount (toInvoice refTrx t)) zero = false
                  /\ trxDate (entry (toInvoice refTrx t)) = trxDate t
                  /\ id (entry (toInvoice refTrx t)) = id t)
    /\ (forall t, trxType (entry (toPayment t)) = PAYMENT
                  /\ calculatedAmount (toPayment t)
                     = b64_neg (Math_abs (originalAmount t))
                  /\ b64_gt (calculatedAmount (toPayment t)) zero = false
                  /\ trxDate (entry (toPayment t)) = trxDate t
                  /\ id (entry (toPayment t)) = id t)
    /\ (forall e, In e ledger <->
                  (exists t, In t fileTransactions
                             /\ inStatement selectedCustomer config t = true
                             /\ e = toInvoice refTrx t)
                  \/ (exists t, In t manualTransactions
                                /\ inStatement selectedCustomer config t = true
                                /\ e = toPayment t))
    /\ Permutation (invoices ++ payments)%list ledger
    /\ (Forall (fun e => getTime Date_parse e <> None) (invoices ++ payments)%list ->
        StronglySorted (keyLe (getTime Date_parse)) ledger
        /\ forall time,
             filter (hasKey (getTime Date_parse) time) ledger
             = filter (hasKey (getTime Date_parse) time) (invoices ++ payments)%list)
    /\ ((forall s, isCanonicalDate s = true -> Date_parse s = Date_parse_canonical s) ->
        Forall (fun e => isCanonicalDate (trxDate (entry e)) = true)
               (invoices ++ payments)%list ->
        StronglySorted notDatedAfter ledger
        /\ StronglySorted
             (fun a b => (trxDate (entry a) <=? trxDate (entry b))%string = true)
             ledger).
Proof.
  intros DP file manual cust cfg refTrx invoices payments ledger.
  assert (Hperm : Permutation (invoices ++ payments)%list ledger)
    by apply sortByDate_Permutation.
  split; [| split; [| split; [| split; [| split; [| split]]]]].
  - intro t. apply inStatement_spec.
  - intro t. cbn [toInvoice entry calculatedAmount trxType trxDate id].
    repeat split. destruct (originalAmount t) as [s | s | | s m e]; reflexivity.
  - intro t. cbn [toPayment entry calculatedAmount trxType trxDate id].
    repeat split. apply neg_abs_not_positive.
  - intro e. exact (allTrxs_In DP file manual cust cfg e).
  - exact Hperm.
  - intro Hdates. split.
    + apply sortByDate_sorted, Hdates.
    + intro time. apply sortByDate_stable.
  - intros Hhost Hcanon.
    assert (Hdates : Forall (fun e => getTime DP e <> None) (invoices ++ payments)%list).
    { apply Forall_forall. intros e He. rewrite Forall_forall in Hcanon.
      destruct (getTime_canonical DP e Hhost (Hcanon e He)) as (y & m & d & _ & _ & ->).
      discriminate. }
    assert (Hsorted : StronglySorted (keyLe (getTime DP)) ledger)
      by (apply sortByDate_sorted, Hdates).
    assert (Hin : forall e, In e ledger -> isCanonicalDate (trxDate (entry e)) = true).
    { intros e He. rewrite Forall_forall in Hcanon. apply Hcanon.
      apply (Permutation_in _ (Permutation_sym Hperm)), He. }
    split.
    + apply (StronglySorted_among (keyLe (getTime DP))); [| exact Hsorted].
      intros a b Ha Hb Hab. apply (keyLe_calendar DP a b Hhost); auto.
    + apply (StronglySorted_among (keyLe (getTime DP))); [| exact Hsorted].
      intros a b Ha Hb Hab. apply (keyLe_calendar DP a b Hhost); auto.
Qed.

Lemma merge_stage_witness :
  map (fun e => trxDate (entry e))
      (allTrxs Date_parse_canonical unorderedFile januaryPayment "ACME" januaryConfig)
  = ["2024-01-05"; "2024-01-10"; "2024-01-20"]
  /\ StronglySorted (keyLe (getTime Date_parse_canonical))
       (allTrxs Date_parse_canonical unorderedFile januaryPayment "ACME" januaryConfig)
  /\ StronglySorted notDatedAfter
       (allTrxs Date_parse_canonical unorderedFile januaryPayment "ACME" januaryConfig).
Proof.
  split; [reflexivity |].
  destruct (merge_stage Date_parse_canonical unorderedFile januaryPayment "ACME"
                        januaryConfig) as (_ & _ & _ & _ & _ & Htime & Hcal).
  split.
  - apply Htime. apply dates_checked. vm_compute. reflexivity.
  - apply Hcal.
    + intros s _. reflexivity.
    + vm_compute. repeat constructor.
Defined.

(** C2 (as stated) fails on a ledger with a stored date that is no
    date.  The upload reads the cell "12/25/2024" day-month-year and
    stores "2024-25-12"; the comparator of the sort is [NaN] on that
    entry, which therefore stays where it stood, ahead of the invoice
    of 5 January 2024: the ledger is in ascending order neither of the
    date strings nor of year, month and day.  (On these two entries the
    comparator is [NaN] both ways, an order in which all are equal:
    every stable sort returns them as they stood.) *)
Lemma misdated_entry_is_not_sorted :
  map (fun e => trxDate (entry e))
      (allTrxs Date_parse_canonical misdatedFile [] "ACME" twoYearConfig)
  = ["2024-25-12"; "2024-01-05"]
  /\ Date_parse_canonical "2024-25-12" = None
  /\ splitCanonical "2024-25-12" = Some (2024, 25, 12)
  /\ splitCanonical "2024-01-05" = Some (2024, 1, 5)
  /\ dateBefore (2024, 1, 5) (2024, 25, 12) = true
  /\ ~ StronglySorted notDatedAfter
         (allTrxs Date_parse_canonical misdatedFile [] "ACME" twoYearConfig)
  /\ ~ StronglySorted
         (fun a b => (trxDate (entry a) <=? trxDate (entry b))%string = true)
         (allTrxs Date_parse_canonical misdatedFile [] "ACME" twoYearConfig).
Proof.
  split; [reflexivity |]. split; [reflexivity |]. split; [reflexivity |].
  split; [reflexivity |]. split; [reflexivity |].
  remember (allTrxs Date_parse_canonical misdatedFile [] "ACME" twoYearConfig)
    as ledger eqn:El.
  vm_compute in El. subst ledger. split.
  - intro H. inversion H as [| a l _ Hall]; subst.
    inversion Hall as [| b l' (ymd1 & ymd2 & H1 & H2 & H3) _]; subst.
    vm_compute in H1, H2. injection H1 as <-. injection H2 as <-.
    discriminate H3.
  - intro H. inversion H as [| a l _ Hall]; subst.
    inversion Hall as [| b l' Hab _]; subst.
    discriminate Hab.
Qed.
